(** * Deep Research Agent: the research graph and its two entry points

    A shallow embedding of
      - [src/types/agent.ts]        the state schema and its reducers,
      - [src/agent/tools/search.ts] [executeSearch], [validateSearchResults],
      - [src/agent/graph.ts]        the five nodes and [buildResearchGraph],
      - [src/agent/index.ts]        [executeResearch], [executeResearchStreaming],
    and, around them, of
      - [src/agent/tools/search.ts] [optimizeQueryForMigration] and
                                    [extractVersions], with the matcher of
                                    their regular expressions,
      - [src/agent/index.ts]        [validateEnvironment], [src/utils/env.ts],
      - [src/cli]                   the submit handler of [QueryInput], the
                                    hook [useAgent] and the submit handler of
                                    [App],
    followed by the properties of the research workflow.

    Conventions of the embedding.
      - A JavaScript number is a rational ([Q]).  Scores and indices are
        finite numbers; for every IEEE double [s], [s > 0.7] holds in
        JavaScript exactly when [7/10 < s] holds over the rationals, because
        the double nearest to 0.7 lies below 7/10 and its successor above;
        and the difference of two finite doubles has the sign of their exact
        difference, which is all a comparator is read for.
      - A string is a [string]; one character stands for one UTF-16 code
        unit, so [String.length] is the [.length] of the source.
      - [T | undefined] is [option T].
      - An [async] function is a computation over the state of the external
        collaborators (LLM, search tool, clock) that may throw: the monad [M].
      - The graph engine of the library is the loop [pregel]: run the node,
        write its update into the channels with their reducers, ask the
        conditional edge where to go.  [invoke] returns the final value of
        the channels; [stream] yields, per node executed, the object that
        node returned, which is what [src/agent/index.ts] unpacks. *)

From Stdlib Require Import List String Ascii ZArith QArith Bool Lia Lqa.
From Stdlib Require Import Permutation Sorted DecimalString.
Import ListNotations.
Close Scope Q_scope.
Open Scope string_scope.

Set Implicit Arguments.
Set Warnings "-register-all".

(* ================================================================= *)
(** ** JavaScript helpers *)

Module JS.

(** White space removed by [String.prototype.trim], among the code units
    below 256: TAB, LF, VT, FF, CR, SPACE and NBSP. *)
Definition isWhiteSpace (c : ascii) : bool :=
  let n := nat_of_ascii c in
  (((9 <=? n) && (n <=? 13)) || (n =? 32) || (n =? 160))%nat.

Fixpoint trimStart (s : string) : string :=
  match s with
  | String c s' => if isWhiteSpace c then trimStart s' else s
  | EmptyString => EmptyString
  end.

(** [trimEnd] drops a character when everything from it on is white space. *)
Fixpoint trimEnd (s : string) : string :=
  match s with
  | String c s' =>
      match trimEnd s' with
      | EmptyString => if isWhiteSpace c then EmptyString else String c EmptyString
      | t => String c t
      end
  | EmptyString => EmptyString
  end.

Definition trim (s : string) : string := trimEnd (trimStart s).

(** [`${n}`] for a non-negative integer. *)
Definition showNat (n : nat) : string := NilZero.string_of_uint (Nat.to_uint n).

(** The line feed the source writes as a backslash followed by n. *)
Definition nl : string := String (ascii_of_nat 10) EmptyString.

(** [a > b] on numbers. *)
Definition gt (a b : Q) : bool := negb (Qle_bool a b).

(** [a || b] on numbers: zero is falsy. *)
Definition orNumber (a : option Q) (b : Q) : Q :=
  match a with
  | Some n => if Qeq_bool n 0 then b else n
  | None => b
  end.

(** [a || b] on strings: the empty string is falsy. *)
Definition orString (a : option string) (b : string) : string :=
  match a with
  | Some (String c s) => String c s
  | _ => b
  end.

(** [arr.map((x, i) => f(i, x))], counting from [i]. *)
Fixpoint mapi {A B} (f : nat -> A -> B) (i : nat) (l : list A) : list B :=
  match l with
  | [] => []
  | x :: l' => f i x :: mapi f (S i) l'
  end.

(** [Array.prototype.join]. *)
Definition join (sep : string) (l : list string) : string := String.concat sep l.

(** [arr[idx]] for a number [idx]: an element when [idx] is an integer
    within the array, [undefined] otherwise (so for 1.5 or -1). *)
Definition index {A} (arr : list A) (idx : Q) : option A :=
  let r := Qred idx in
  if (Pos.eqb (Qden r) 1 && (0 <=? Qnum r)%Z)%bool
  then nth_error arr (Z.to_nat (Qnum r))
  else None.

(** [Array.prototype.sort(compareFn)]: a stable sort; [x] stays before [y]
    unless [compareFn(x, y) > 0].  Written as insertion from the right, which
    computes the one stable arrangement a consistent comparator admits. *)
Section Sort.
Variable A : Type.
Variable compareFn : A -> A -> Q.

Fixpoint insert (x : A) (l : list A) : list A :=
  match l with
  | [] => [x]
  | y :: l' =>
      if Qle_bool (compareFn x y) 0 then x :: y :: l'
      else y :: insert x l'
  end.

Definition sort (l : list A) : list A := fold_right insert [] l.
End Sort.

(** Values produced by [JSON.parse]. *)
Inductive json : Type :=
| JNull
| JBool (b : bool)
| JNumber (n : Q)
| JString (s : string)
| JArray (l : list json)
| JObject (members : list (string * json)).

(** Truthiness, as used by [||]. *)
Definition truthy (v : json) : bool :=
  match v with
  | JNull => false
  | JBool b => b
  | JNumber n => negb (Qeq_bool n 0)
  | JString s => match s with EmptyString => false | _ => true end
  | JArray _ | JObject _ => true
  end.

(** Own property of a parsed object; of two members with one key the later
    one wins, as in [JSON.parse]. *)
Fixpoint member (k : string) (ms : list (string * json)) : option json :=
  match ms with
  | [] => None
  | (k', v) :: ms' =>
      match member k ms' with
      | Some v' => Some v'
      | None => if String.eqb k k' then Some v else None
      end
  end.

(** [v.k] for one of the property names read by the synthesis node
    (none of which is a built-in property of strings, numbers or arrays).
    [None] is a [TypeError] (reading a property of [null]); [Some None] is
    [undefined]. *)
Definition get (v : json) (k : string) : option (option json) :=
  match v with
  | JNull => None
  | JObject ms => Some (member k ms)
  | _ => Some None
  end.

(** [a || b] where [a] may be [undefined]. *)
Definition or (a : option json) (b : json) : json :=
  match a with
  | Some v => if truthy v then v else b
  | None => b
  end.

(** Messages of the [TypeError]s the nodes can run into (Node.js wording). *)
Definition TypeError_undefined (prop : string) : string :=
  "Cannot read properties of undefined (reading '" ++ prop ++ "')".
Definition TypeError_null (prop : string) : string :=
  "Cannot read properties of null (reading '" ++ prop ++ "')".
Definition TypeError_not_a_function (what : string) : string :=
  what ++ " is not a function".

End JS.

(* ================================================================= *)
(** ** The state schema ([src/types/agent.ts]) *)

Record SearchResult : Type := {
  title : string;
  url : string;
  content : string;
  score : Q;
  timestamp : option string
}.

Module AnalysisStep.
Record t : Type := {
  step : string;
  findings : string;
  confidence : Q
}.
End AnalysisStep.

(** The lists come out of [JSON.parse] untyped, hence [JS.json]. *)
Record MigrationFindings : Type := {
  summary : JS.json;
  migrationSteps : JS.json;
  breakingChanges : JS.json;
  examples : JS.json;
  sources : list string
}.

Module Status.
Inductive t : Type :=
| idle | parsing_query | searching | filtering_results
| analyzing | synthesizing | complete | error.

Definition eqb (a b : t) : bool :=
  match a, b with
  | idle, idle | parsing_query, parsing_query | searching, searching
  | filtering_results, filtering_results | analyzing, analyzing
  | synthesizing, synthesizing | complete, complete | error, error => true
  | _, _ => false
  end.
End Status.
Definition AgentStatus : Type := Status.t.

Inductive BaseMessage : Type :=
| HumanMessage (text : string)
| AIMessage (text : string).

(** [AgentState]: the value of every channel.  An element of
  [relevantResults] can be [undefined] at run time (see [filterRelevance]),
  hence the inner [option]. *)
Record AgentState : Type := {
  query : string;
  enhancedQuery : option string;
  searchResults : option (list SearchResult);
  relevantResults : option (list (option SearchResult));
  analysisSteps : option (list AnalysisStep.t);
  findings : option MigrationFindings;
  messages : list BaseMessage;
  status : AgentStatus;
  error : option string;
  searchAttempts : Z
}.

(** [Partial<AgentState>]: an object literal, as the list of its
  [key: value] entries. *)
Inductive Assignment : Type :=
| Set_query (v : string)
| Set_enhancedQuery (v : string)
| Set_searchResults (v : list SearchResult)
| Set_relevantResults (v : list (option SearchResult))
| Set_analysisSteps (v : list AnalysisStep.t)
| Set_findings (v : MigrationFindings)
| Set_messages (v : list BaseMessage)
| Set_status (v : AgentStatus)
| Set_error (v : string)
| Set_searchAttempts (v : Z).

Definition Partial : Type := list Assignment.

(** The reducers of [AgentStateAnnotation]: [messages] concatenates, every
    other channel keeps the last value written. *)
Definition assign (s : AgentState) (a : Assignment) : AgentState :=
  match a with
  | Set_query v =>
      {| query := v; enhancedQuery := enhancedQuery s; searchResults := searchResults s;
         relevantResults := relevantResults s; analysisSteps := analysisSteps s;
         findings := findings s; messages := messages s; status := status s;
         error := error s; searchAttempts := searchAttempts s |}
  | Set_enhancedQuery v =>
      {| query := query s; enhancedQuery := Some v; searchResults := searchResults s;
         relevantResults := relevantResults s; analysisSteps := analysisSteps s;
         findings := findings s; messages := messages s; status := status s;
         error := error s; searchAttempts := searchAttempts s |}
  | Set_searchResults v =>
      {| query := query s; enhancedQuery := enhancedQuery s; searchResults := Some v;
         relevantResults := relevantResults s; analysisSteps := analysisSteps s;
         findings := findings s; messages := messages s; status := status s;
         error := error s; searchAttempts := searchAttempts s |}
  | Set_relevantResults v =>
      {| query := query s; enhancedQuery := enhancedQuery s; searchResults := searchResults s;
         relevantResults := Some v; analysisSteps := analysisSteps s;
         findings := findings s; messages := messages s; status := status s;
         error := error s; searchAttempts := searchAttempts s |}
  | Set_analysisSteps v =>
      {| query := query s; enhancedQuery := enhancedQuery s; searchResults := searchResults s;
         relevantResults := relevantResults s; analysisSteps := Some v;
         findings := findings s; messages := messages s; status := status s;
         error := error s; searchAttempts := searchAttempts s |}
  | Set_findings v =>
      {| query := query s; enhancedQuery := enhancedQuery s; searchResults := searchResults s;
         relevantResults := relevantResults s; analysisSteps := analysisSteps s;
         findings := Some v; messages := messages s; status := status s;
         error := error s; searchAttempts := searchAttempts s |}
  | Set_messages v =>
      {| query := query s; enhancedQuery := enhancedQuery s; searchResults := searchResults s;
         relevantResults := relevantResults s; analysisSteps := analysisSteps s;
         findings := findings s; messages := messages s ++ v; status := status s;
         error := error s; searchAttempts := searchAttempts s |}
  | Set_status v =>
      {| query := query s; enhancedQuery := enhancedQuery s; searchResults := searchResults s;
         relevantResults := relevantResults s; analysisSteps := analysisSteps s;
         findings := findings s; messages := messages s; status := v;
         error := error s; searchAttempts := searchAttempts s |}
  | Set_error v =>
      {| query := query s; enhancedQuery := enhancedQuery s; searchResults := searchResults s;
         relevantResults := relevantResults s; analysisSteps := analysisSteps s;
         findings := findings s; messages := messages s; status := status s;
         error := Some v; searchAttempts := searchAttempts s |}
  | Set_searchAttempts v =>
      {| query := query s; enhancedQuery := enhancedQuery s; searchResults := searchResults s;
         relevantResults := relevantResults s; analysisSteps := analysisSteps s;
         findings := findings s; messages := messages s; status := status s;
         error := error s; searchAttempts := v |}
  end.

(** Writing a node's update into the channels. *)
Definition merge (s : AgentState) (u : Partial) : AgentState := fold_left assign u s.

(** Reading a key of an object literal: the last entry for it, if any. *)
Definition lookup {A} (key : Assignment -> option A) (u : Partial) : option A :=
  fold_left (fun acc a => match key a with Some v => Some v | None => acc end) u None.

Definition key_query a := match a with Set_query v => Some v | _ => None end.
Definition key_enhancedQuery a := match a with Set_enhancedQuery v => Some v | _ => None end.
Definition key_searchResults a := match a with Set_searchResults v => Some v | _ => None end.
Definition key_relevantResults a := match a with Set_relevantResults v => Some v | _ => None end.
Definition key_analysisSteps a := match a with Set_analysisSteps v => Some v | _ => None end.
Definition key_findings a := match a with Set_findings v => Some v | _ => None end.
Definition key_messages a := match a with Set_messages v => Some v | _ => None end.
Definition key_status a := match a with Set_status v => Some v | _ => None end.
Definition key_error a := match a with Set_error v => Some v | _ => None end.
Definition key_searchAttempts a := match a with Set_searchAttempts v => Some v | _ => None end.

(* ================================================================= *)
(** ** External collaborators and the [async] monad *)

(** A formatted prompt of [src/agent/llm.ts]: the template and the values of
    its variables; the wording of the templates is fixed text. *)
Inductive Prompt : Type :=
| QUERY_ENHANCEMENT_PROMPT (query : string)
| RELEVANCE_FILTER_PROMPT (query results : string)
| DEEP_ANALYSIS_PROMPT (query content : string)
| SYNTHESIS_PROMPT (query : string) (sourceCount : nat) (analyses : string).

(** A call that left the process. *)
Inductive Event : Type :=
| LLMCall (prompt : Prompt)
| SearchCall (query : string).

(** A settled promise: fulfilled, or rejected with the text that
    [error instanceof Error ? error.message : String(error)] extracts. *)
Inductive Outcome (A : Type) : Type :=
| Ok (a : A)
| Throw (message : string).
Arguments Throw {A} message.

(** A record of Tavily's reply, before [executeSearch] coerces it. *)
Record RawResult : Type := {
  raw_title : option string;
  raw_url : option string;
  raw_content : option string;
  raw_snippet : option string;
  raw_score : option Q
}.

(** [JSON.parse] returns [any]; each call site assigns the value to a
    variable of a declared type.  The model gives every call site the view at
    that type, and keeps the ways the value can miss it that the code
    reacts to: a [SyntaxError], a value that is no array, and, in the array
    of search results, an element that is [null] ([None]), of which no
    field can be read.  Any other element is read field by field, as a
    record; the fields an element lacks are [undefined]. *)
Inductive ParsedResults : Type :=       (* [let results: any[]] *)
| ResultsNotJSON
| ResultsNull
| ResultsNotArray
| ResultsArray (results : list (option RawResult)).

Inductive ParsedIndices : Type :=       (* [let relevantIndices: number[]] *)
| IndicesNotJSON
| IndicesNotArray
| IndicesArray (indices : list Q).

(** The nodes registered by [buildResearchGraph], and where an edge can lead. *)
Module Node.
Inductive t : Type :=
| query_parser | search | relevance_filter | deep_analysis | synthesis.
End Node.

Inductive Target : Type :=
| goto (n : Node.t)
| END.

(** One item of [graph.stream(...)]: [{ [nodeName]: update }], the object the
    node returned. *)
Record Chunk : Type := {
  node : Node.t;
  values : Partial
}.

Section Agent.

(** The state of the world outside the process. *)
Variable W : Type.

(** What the process observes of it.  [llm_invoke] is
    [createLLM().invoke([new HumanMessage(prompt)])] followed by
    [.content.toString()]; [searchTool_invoke] is
    [createSearchTool().invoke(query)]; [Date_now] is
    [new Date().toISOString()].  The three views of [JSON.parse] are pure. *)
Record Env : Type := {
  llm_invoke : Prompt -> W -> Outcome string * W;
  searchTool_invoke : string -> W -> Outcome string * W;
  Date_now : W -> string * W;
  JSON_parse_results : string -> ParsedResults;
  JSON_parse_indices : string -> ParsedIndices;
  JSON_parse : string -> option JS.json
}.

Variable env : Env.

(** The collaborators together with the calls made so far. *)
Record World : Type := {
  collaborators : W;
  calls : list Event
}.

Definition M (A : Type) : Type := World -> Outcome A * World.

Definition ret {A} (a : A) : M A := fun w => (Ok a, w).

Definition throw {A} (message : string) : M A := fun w => (Throw message, w).

Definition bind {A B} (m : M A) (k : A -> M B) : M B :=
  fun w =>
    match m w with
    | (Ok a, w') => k a w'
    | (Throw e, w') => (Throw e, w')
    end.

(** [try { m } catch (error) { handler(message of error) }]. *)
Definition try_catch {A} (m : M A) (handler : string -> M A) : M A :=
  fun w =>
    match m w with
    | (Ok a, w') => (Ok a, w')
    | (Throw e, w') => handler e w'
    end.

Notation "x <- m ;; k" := (bind m (fun x => k))
  (at level 61, m at next level, right associativity).

Fixpoint mapM {A B} (f : A -> M B) (l : list A) : M (list B) :=
  match l with
  | [] => ret []
  | x :: l' => y <- f x ;; ys <- mapM f l' ;; ret (y :: ys)
  end.

Definition llm (prompt : Prompt) : M string :=
  fun w =>
    let (r, c) := llm_invoke env prompt (collaborators w) in
    (r, {| collaborators := c; calls := calls w ++ [LLMCall prompt] |}).

Definition searchTool (query : string) : M string :=
  fun w =>
    let (r, c) := searchTool_invoke env query (collaborators w) in
    (r, {| collaborators := c; calls := calls w ++ [SearchCall query] |}).

Definition now : M string :=
  fun w =>
    let (t, c) := Date_now env (collaborators w) in
    (Ok t, {| collaborators := c; calls := calls w |}).

(* ================================================================= *)
(** ** [src/agent/tools/search.ts] *)

(** The callback of [results.map]; [result.title] is read first, and
    throws when [result] is [null]. *)
Definition coerce (index : nat) (result : option RawResult) : M SearchResult :=
  match result with
  | None => throw (JS.TypeError_null "title")
  | Some result =>
      t <- now ;;
      ret {| title := JS.orString (raw_title result) ("Result " ++ JS.showNat (index + 1));
             url := JS.orString (raw_url result) "";
             content := JS.orString (raw_content result)
                                    (JS.orString (raw_snippet result) "");
             score := JS.orNumber (raw_score result) 0.5;
             timestamp := Some t |}
  end.

Definition executeSearch (query : string) : M (list SearchResult) :=
  try_catch
    (rawResults <- searchTool query ;;
     results <- match JSON_parse_results env rawResults with
                | ResultsNotJSON => throw "Invalid search results format"
                | ResultsNull => throw (JS.TypeError_null "map")
                | ResultsNotArray => throw (JS.TypeError_not_a_function "results.map")
                | ResultsArray results => ret results
                end ;;
     searchResults <- mapM (fun ir => coerce (fst ir) (snd ir))
                           (combine (seq 0 (List.length results)) results) ;;
     let filteredResults :=
       filter (fun result => (50 <? String.length (content result))%nat) searchResults in
     ret filteredResults)
    (fun message => throw ("Search failed: " ++ message)).

Definition validateSearchResults (results : list SearchResult) : bool :=
  if (List.length results =? 0)%nat then false
  else
    let hasHighQualityResult :=
      existsb (fun result =>
                 JS.gt (score result) 0.7
                 && (200 <? String.length (content result))%nat) results in
    hasHighQualityResult.

(* ================================================================= *)
(** ** The nodes of [src/agent/graph.ts] *)

(** What a node leaves behind: the object it returns, and the [state] object
    it was given as it is once the node has run.  The arrays of [state] are
    the arrays held by the channels, so a node that changes one in place
    changes the channel. *)
Record NodeResult : Type := {
  input_after : AgentState;
  update : Partial
}.

Definition returns (state : AgentState) (u : Partial) : M NodeResult :=
  ret {| input_after := state; update := u |}.

Definition parseQuery (state : AgentState) : M NodeResult :=
  try_catch
    (response <- llm (QUERY_ENHANCEMENT_PROMPT (query state)) ;;
     let enhancedQuery := JS.trim response in
     returns state
       [ Set_enhancedQuery enhancedQuery;
         Set_status Status.searching;
         Set_messages [HumanMessage (query state); AIMessage enhancedQuery] ])
    (fun message =>
       returns state
         [ Set_status Status.error;
           Set_error ("Query parsing failed: " ++ message) ]).

Definition retrySuffix : string := " official documentation breaking changes".

Definition search (state : AgentState) : M NodeResult :=
  let query := JS.orString (enhancedQuery state) (query state) in
  try_catch
    (searchResults <- executeSearch query ;;
     if negb (validateSearchResults searchResults) then
       if (searchAttempts state <? 2)%Z then
         returns state
           [ Set_searchAttempts (searchAttempts state + 1);
             Set_status Status.parsing_query;
             Set_enhancedQuery (query ++ retrySuffix) ]
       else
         returns state
           [ Set_status Status.error;
             Set_error "Could not find sufficient search results" ]
     else
       returns state
         [ Set_searchResults searchResults;
           Set_status Status.filtering_results ])
    (fun message =>
       returns state
         [ Set_status Status.error;
           Set_error ("Search failed: " ++ message) ]).

(** [state.searchResults![i].score]; the indices it is asked about are
    those of the array itself. *)
Definition scoreAt (results : list SearchResult) (i : nat) : Q :=
  match nth_error results i with
  | Some result => score result
  | None => 0
  end.

Definition byScore (a b : SearchResult) : Q := (score b - score a)%Q.

Definition inRange (len : nat) (idx : Q) : bool :=
  Qle_bool 0 idx && JS.gt (inject_Z (Z.of_nat len)) idx.

Definition formatResult (idx : nat) (result : SearchResult) : string :=
  "[" ++ JS.showNat idx ++ "] " ++ title result ++ JS.nl
  ++ "URL: " ++ url result ++ JS.nl
  ++ "Content: " ++ substring 0 300 (content result) ++ "...".

Definition resultsText (results : list SearchResult) : string :=
  JS.join (JS.nl ++ JS.nl) (JS.mapi formatResult 0 results).

Definition setSearchResults (v : list SearchResult) (s : AgentState) : AgentState :=
  {| query := query s; enhancedQuery := enhancedQuery s; searchResults := Some v;
     relevantResults := relevantResults s; analysisSteps := analysisSteps s;
     findings := findings s; messages := messages s; status := status s;
     error := error s; searchAttempts := searchAttempts s |}.

Definition filterRelevance (state : AgentState) : M NodeResult :=
  match searchResults state with
  | None | Some [] =>
      returns state
        [ Set_status Status.error;
          Set_error "No search results to filter" ]
  | Some results =>
      try_catch
        (response <- llm (RELEVANCE_FILTER_PROMPT (query state) (resultsText results)) ;;
         let content := JS.trim response in
         relevantIndices <-
           match JSON_parse_indices env content with
           | IndicesArray indices => ret indices
           | IndicesNotJSON =>
               ret (map (fun idx => inject_Z (Z.of_nat idx))
                        (firstn 5
                           (JS.sort (fun a b => (scoreAt results b - scoreAt results a)%Q)
                                    (seq 0 (List.length results)))))
           | IndicesNotArray =>
               throw (JS.TypeError_not_a_function "relevantIndices.filter")
           end ;;
         let relevantResults :=
           map (JS.index results)
               (filter (inRange (List.length results)) relevantIndices) in
         returns state
           [ Set_relevantResults relevantResults;
             Set_status Status.analyzing ])
        (fun _ =>
           (* [state.searchResults.sort(...)] sorts the array of the state itself *)
           let sorted := JS.sort byScore results in
           let topResults := firstn 5 sorted in
           ret {| input_after := setSearchResults sorted state;
                  update := [ Set_relevantResults (map Some topResults);
                              Set_status Status.analyzing ] |})
  end.

(** The [for ... of] loop of [analyzeResults]. *)
Fixpoint analyzeEach (state : AgentState) (resultsToAnalyze : list (option SearchResult))
    (analysisSteps : list AnalysisStep.t) : M (list AnalysisStep.t) :=
  match resultsToAnalyze with
  | [] => ret analysisSteps
  | None :: _ => throw (JS.TypeError_undefined "title")
  | Some result :: rest =>
      response <- llm (DEEP_ANALYSIS_PROMPT (query state) (content result)) ;;
      let analysis := JS.trim response in
      analyzeEach state rest
        (analysisSteps ++
           [ {| AnalysisStep.step := "Analysis of: " ++ title result;
                AnalysisStep.findings := analysis;
                AnalysisStep.confidence := score result |} ])
  end.

Definition analyzeResults (state : AgentState) : M NodeResult :=
  match relevantResults state with
  | None | Some [] =>
      returns state
        [ Set_status Status.error;
          Set_error "No relevant results to analyze" ]
  | Some relevant =>
      try_catch
        (let resultsToAnalyze := firstn 3 relevant in
         analysisSteps <- analyzeEach state resultsToAnalyze [] ;;
         returns state
           [ Set_analysisSteps analysisSteps;
             Set_status Status.synthesizing ])
        (fun message =>
           returns state
             [ Set_status Status.error;
               Set_error ("Analysis failed: " ++ message) ])
  end.

(** [synthesis.k], which throws on [null]. *)
Definition property (v : JS.json) (k : string) : M (option JS.json) :=
  match JS.get v k with
  | Some p => ret p
  | None => throw (JS.TypeError_null k)
  end.

Definition urlOf (r : option SearchResult) : M string :=
  match r with
  | Some r => ret (url r)
  | None => throw (JS.TypeError_undefined "url")
  end.

Definition synthesizeFindings (state : AgentState) : M NodeResult :=
  match analysisSteps state with
  | None | Some [] =>
      returns state
        [ Set_status Status.error;
          Set_error "No analyses to synthesize" ]
  | Some steps =>
      try_catch
        (let analysesText :=
           JS.join (JS.nl ++ JS.nl ++ "---" ++ JS.nl ++ JS.nl)
             (map (fun step => AnalysisStep.step step ++ ":" ++ JS.nl
                               ++ AnalysisStep.findings step) steps) in
         response <- llm (SYNTHESIS_PROMPT (query state) (List.length steps) analysesText) ;;
         let synthesisJson := JS.trim response in
         let synthesis :=
           match JSON_parse env synthesisJson with
           | Some v => v
           | None =>
               JS.JObject [ ("summary", JS.JString synthesisJson);
                            ("migrationSteps", JS.JArray []);
                            ("breakingChanges", JS.JArray []);
                            ("examples", JS.JArray []) ]
           end in
         sources <- match relevantResults state with
                    | Some relevant => mapM urlOf (firstn 5 relevant)
                    | None => ret []
                    end ;;
         summary' <- property synthesis "summary" ;;
         migrationSteps' <- property synthesis "migrationSteps" ;;
         breakingChanges' <- property synthesis "breakingChanges" ;;
         examples' <- property synthesis "examples" ;;
         notes' <- property synthesis "notes" ;;
         let findings :=
           {| summary := JS.or summary' (JS.JString "Migration guide synthesis");
              migrationSteps := JS.or migrationSteps' (JS.JArray []);
              breakingChanges := JS.or breakingChanges' (JS.JArray []);
              examples := JS.or examples' (JS.or notes' (JS.JArray []));
              sources := sources |} in
         returns state
           [ Set_findings findings;
             Set_status Status.complete ])
        (fun message =>
           returns state
             [ Set_status Status.error;
               Set_error ("Synthesis failed: " ++ message) ])
  end.

(* ================================================================= *)
(** ** [buildResearchGraph] and the engine that runs it *)

Definition nodeFn (n : Node.t) : AgentState -> M NodeResult :=
  match n with
  | Node.query_parser => parseQuery
  | Node.search => search
  | Node.relevance_filter => filterRelevance
  | Node.deep_analysis => analyzeResults
  | Node.synthesis => synthesizeFindings
  end.

(** The conditional edges, read on the state after the node's update. *)
Definition edge (n : Node.t) (state : AgentState) : Target :=
  match n with
  | Node.query_parser =>
      if Status.eqb (status state) Status.error then END
      else goto Node.search
  | Node.search =>
      if Status.eqb (status state) Status.error then END
      else if Status.eqb (status state) Status.parsing_query then goto Node.query_parser
      else goto Node.relevance_filter
  | Node.relevance_filter =>
      if Status.eqb (status state) Status.error then END
      else goto Node.deep_analysis
  | Node.deep_analysis =>
      if Status.eqb (status state) Status.error then END
      else goto Node.synthesis
  | Node.synthesis => END
  end.

(** What [new StateGraph(...).addNode(...)...compile()] holds: the function
    of every node, the conditional edge leaving it, and the node [START]
    leads to. *)
Record CompiledGraph : Type := {
  nodes : Node.t -> AgentState -> M NodeResult;
  edges : Node.t -> AgentState -> Target;
  entry : Node.t
}.

Definition buildResearchGraph : CompiledGraph :=
  {| nodes := nodeFn; edges := edge; entry := Node.query_parser |}.

(** The channels before the input is written: the declared defaults; the
    channels without one are empty ([query] is written by every input, so its
    place holder is never read). *)
Definition channelDefaults : AgentState :=
  {| query := ""; enhancedQuery := None; searchResults := None;
     relevantResults := None; analysisSteps := None; findings := None;
     messages := []; status := Status.idle; error := None; searchAttempts := 0 |}.

(** The engine's default bound on the number of steps of one run. *)
Definition recursionLimit : nat := 25.

(** One step: run the node, write its update, and yield it. *)
Definition step (graph : CompiledGraph) (n : Node.t) (state : AgentState)
  : M (AgentState * Chunk) :=
  r <- nodes graph n state ;;
  ret (merge (input_after r) (update r), {| node := n; values := update r |}).

(** The run from node [n]: the final state, or the exception that ended
    the run, and the chunks yielded on the way. *)
Fixpoint pregel (graph : CompiledGraph) (steps : nat) (n : Node.t)
    (state : AgentState) (w : World)
  : (Outcome AgentState * list Chunk) * World :=
  match steps with
  | O => ((Throw "GraphRecursionError", []), w)
  | S steps' =>
      match step graph n state w with
      | (Throw e, w') => ((Throw e, []), w')
      | (Ok (state', chunk), w') =>
          match edges graph n state' with
          | END => ((Ok state', [chunk]), w')
          | goto n' =>
              let '((r, chunks), w'') := pregel graph steps' n' state' w' in
              ((r, chunk :: chunks), w'')
          end
      end
  end.

(** [graph.invoke(input)]: the final value of the channels. *)
Definition invoke (graph : CompiledGraph) (input : Partial) : M AgentState :=
  fun w =>
    let '((r, _), w') :=
      pregel graph recursionLimit (entry graph) (merge channelDefaults input) w in
    (r, w').

(** [graph.stream(input)], in the mode a compiled [StateGraph] streams in:
    one chunk per node executed, and how the iteration ends. *)
Definition stream (graph : CompiledGraph) (input : Partial) (w : World)
  : (Outcome unit * list Chunk) * World :=
  let '((r, chunks), w') :=
    pregel graph recursionLimit (entry graph) (merge channelDefaults input) w in
  ((match r with Ok _ => Ok tt | Throw e => Throw e end, chunks), w').

(* ================================================================= *)
(** ** [src/agent/index.ts] *)

Definition initialState (query : string) : Partial :=
  [ Set_query query;
    Set_status Status.parsing_query;
    Set_searchAttempts 0 ].

(** [agentGraph] is built on the first call and reused afterwards: the
    same graph every time. *)
Definition initializeAgent : CompiledGraph := buildResearchGraph.

Definition executeResearch (query : string) : M AgentState :=
  let graph := initializeAgent in
  try_catch
    (finalState <- invoke graph (initialState query) ;;
     if Status.eqb (status finalState) Status.error then
       throw (JS.orString (error finalState) "Unknown error occurred")
     else ret finalState)
    (fun message => throw message).

Section Streaming.

(** The caller's side of [onUpdate]: what the callback does to the caller's
    own state. *)
Variable U : Type.
Variable onUpdate : Partial -> U -> U.

(** The body of the [for await] loop; [values] is an object, hence truthy. *)
Definition forAwait (chunks : list Chunk) (finalState : option Partial) (ui : U)
  : option Partial * U :=
  fold_left
    (fun acc chunk =>
       let values := values chunk in
       (Some values, onUpdate values (snd acc)))
    chunks (finalState, ui).

Definition executeResearchStreaming (query : string) (ui : U) (w : World)
  : (Outcome Partial * U) * World :=
  let graph := initializeAgent in
  let '((r, chunks), w') := stream graph (initialState query) w in
  let (finalState, ui') := forAwait chunks None ui in
  match r with
  | Throw message => ((Throw message, ui'), w')
  | Ok _ =>
      match finalState with
      | None => ((Throw "Graph execution produced no final state", ui'), w')
      | Some finalState =>
          match lookup key_status finalState with
          | Some Status.error =>
              ((Throw (JS.orString (lookup key_error finalState)
                                   "Unknown error occurred"), ui'), w')
          | _ => ((Ok finalState, ui'), w')
          end
      end
  end.

End Streaming.

End Agent.

Arguments World W : clear implicits.
Arguments M W A : clear implicits.

(* ================================================================= *)
(** ** Vocabulary of the properties *)

Definition Node_eqb (a b : Node.t) : bool :=
  match a, b with
  | Node.query_parser, Node.query_parser | Node.search, Node.search
  | Node.relevance_filter, Node.relevance_filter
  | Node.deep_analysis, Node.deep_analysis | Node.synthesis, Node.synthesis => true
  | _, _ => false
  end.

(** How many times node [n] ran, read off the chunks of a run. *)
Definition executions (n : Node.t) (chunks : list Chunk) : nat :=
  List.length (filter (fun c => Node_eqb (node c) n) chunks).

(** The states and worlds a run from [query] in world [w0] passes through,
    each with the place the engine goes next. *)
Inductive Reachable {W : Type} (env : Env W) (query : string) (w0 : World W)
  : Target -> AgentState -> World W -> Prop :=
| reach_start :
    Reachable env query w0 (goto Node.query_parser)
      (merge channelDefaults (initialState query)) w0
| reach_step n state w state' chunk w' :
    Reachable env query w0 (goto n) state w ->
    step (buildResearchGraph env) n state w = (Ok (state', chunk), w') ->
    Reachable env query w0 (edge n state') state' w'.

(** Node executions still ahead, at most, when the engine is about to run
    [n] on [state]. *)
Definition budget (n : Node.t) (state : AgentState) : nat :=
  match n with
  | Node.query_parser => 2 * Z.to_nat (2 - searchAttempts state) + 5
  | Node.search => 2 * Z.to_nat (2 - searchAttempts state) + 4
  | Node.relevance_filter => 3
  | Node.deep_analysis => 2
  | Node.synthesis => 1
  end.

(** What holds of the state whenever a node is about to run. *)
Definition Running (state : AgentState) : Prop :=
  findings state = None
  /\ error state = None
  /\ (0 <= searchAttempts state <= 2)%Z.

(** What holds of the state a run ends in. *)
Definition Terminal (state : AgentState) : Prop :=
  (status state = Status.complete /\ findings state <> None)
  \/ (status state = Status.error /\ findings state = None /\ error state <> None).

(** The fields of a final state that a caller can read, with [None] for
    [undefined]: of the state [graph.invoke] returns, and of the object
    [executeResearchStreaming] returns under the name of [AgentState]. *)
Record View : Type := {
  view_query : option string;
  view_enhancedQuery : option string;
  view_searchResults : option (list SearchResult);
  view_relevantResults : option (list (option SearchResult));
  view_analysisSteps : option (list AnalysisStep.t);
  view_findings : option MigrationFindings;
  view_status : option AgentStatus;
  view_error : option string
}.

Definition viewOfState (s : AgentState) : View :=
  {| view_query := Some (query s);
     view_enhancedQuery := enhancedQuery s;
     view_searchResults := searchResults s;
     view_relevantResults := relevantResults s;
     view_analysisSteps := analysisSteps s;
     view_findings := findings s;
     view_status := Some (status s);
     view_error := error s |}.

Definition viewOfObject (u : Partial) : View :=
  {| view_query := lookup key_query u;
     view_enhancedQuery := lookup key_enhancedQuery u;
     view_searchResults := lookup key_searchResults u;
     view_relevantResults := lookup key_relevantResults u;
     view_analysisSteps := lookup key_analysisSteps u;
     view_findings := lookup key_findings u;
     view_status := lookup key_status u;
     view_error := lookup key_error u |}.

(** [a] may stand before [b] in an array sorted by score, highest first. *)
Definition byScoreOrder (a b : SearchResult) : Prop := (score b <= score a)%Q.

(** "The top [k] of [l] by score": [top] is sorted by score, highest first,
    has [k] elements or all of [l], and nothing left out outscores anything
    kept. *)
Definition TopByScore (k : nat) (l top : list SearchResult) : Prop :=
  StronglySorted byScoreOrder top
  /\ List.length top = Nat.min k (List.length l)
  /\ exists rest,
       Permutation (top ++ rest) l
       /\ forall x y, In x top -> In y rest -> byScoreOrder x y.

(** An update that reports a failure. *)
Definition ErrorUpdate (u : Partial) : Prop :=
  exists message, u = [Set_status Status.error; Set_error message].

(** The updates node [n] can return on [state], failures apart. *)
Definition SuccessUpdate (n : Node.t) (state : AgentState) (u : Partial) : Prop :=
  match n with
  | Node.query_parser =>
      exists enhanced log,
        u = [Set_enhancedQuery enhanced; Set_status Status.searching; Set_messages log]
  | Node.search =>
      (exists hits, u = [Set_searchResults hits; Set_status Status.filtering_results])
      \/ ((searchAttempts state < 2)%Z
          /\ exists enhanced,
               u = [ Set_searchAttempts (searchAttempts state + 1);
                     Set_status Status.parsing_query;
                     Set_enhancedQuery enhanced ])
  | Node.relevance_filter =>
      exists relevant, u = [Set_relevantResults relevant; Set_status Status.analyzing]
  | Node.deep_analysis =>
      exists notes, u = [Set_analysisSteps notes; Set_status Status.synthesizing]
  | Node.synthesis =>
      exists guide, u = [Set_findings guide; Set_status Status.complete]
  end.

(** What a node may have done to the state object it was given: nothing, or
    replaced the contents of its [searchResults] array. *)
Definition Frame (state after : AgentState) : Prop :=
  after = state \/ exists hits, after = setSearchResults hits state.

(** The search collaborator always returns, and what it returns never
    passes validation. *)
Definition AlwaysInsufficient {W : Type} (env : Env W) : Prop :=
  forall (q : string) (w : World W),
    exists hits w',
      executeSearch env q w = (Ok hits, w') /\ validateSearchResults hits = false.

(** The LLM answers every query-enhancement prompt. *)
Definition RefineAnswers {W : Type} (env : Env W) : Prop :=
  forall (q : string) (c : W),
    exists response c',
      llm_invoke env (QUERY_ENHANCEMENT_PROMPT q) c = (Ok response, c').

(** Every run ends in the error status with two retries counted, after
    three executions of the Search node. *)
Definition ExhaustsRetries {W : Type} (env : Env W) : Prop :=
  forall (query : string) (w : World W),
    exists final chunks w',
      stream (buildResearchGraph env) (initialState query) w = ((Ok tt, chunks), w')
      /\ invoke (buildResearchGraph env) (initialState query) w = (Ok final, w')
      /\ status final = Status.error
      /\ searchAttempts final = 2%Z
      /\ executions Node.search chunks = 3.

(** The LLM answers every analysis prompt. *)
Definition AnalysisAnswers {W : Type} (env : Env W) : Prop :=
  forall (q content : string) (c : W),
    exists response c',
      llm_invoke env (DEEP_ANALYSIS_PROMPT q content) c = (Ok response, c').

(** The message of the first analysis call that fails, when the LLM is asked
    about [hits] one after the other, the collaborators being in the state
    [c] at first; [None] when every call is answered. *)
Fixpoint firstAnalysisFailure {W : Type} (env : Env W) (q : string)
    (hits : list SearchResult) (c : W) : option string :=
  match hits with
  | [] => None
  | hit :: hits' =>
      match llm_invoke env (DEEP_ANALYSIS_PROMPT q (content hit)) c with
      | (Ok _, c') => firstAnalysisFailure env q hits' c'
      | (Throw message, _) => Some message
      end
  end.

(** The calls the Analyze node makes for [hits]. *)
Definition analysisCalls (q : string) (hits : list SearchResult) : list Event :=
  map (fun hit => LLMCall (DEEP_ANALYSIS_PROMPT q (content hit))) hits.

(** The note the Analyze node owes to a hit. *)
Definition NoteOf (hit : SearchResult) (note : AnalysisStep.t) : Prop :=
  AnalysisStep.step note = "Analysis of: " ++ title hit
  /\ AnalysisStep.confidence note = score hit.

(** The update the Analyze node owes to [hits]: min(3, len) notes, one for
    each of the first three hits, in their order. *)
Definition AnalysisOf (hits : list SearchResult) (u : Partial) : Prop :=
  exists notes,
    u = [Set_analysisSteps notes; Set_status Status.synthesizing]
    /\ List.length notes = Nat.min 3 (List.length hits)
    /\ Forall2 NoteOf (firstn 3 hits) notes.

(** A number that is an integer. *)
Definition isInteger (n : Q) : Prop := exists z : Z, (n == inject_Z z)%Q.

(** "The reply can be parsed as a list of integer indices". *)
Definition ParsesAsIndexList (reply : ParsedIndices) : Prop :=
  exists indices, reply = IndicesArray indices /\ Forall isInteger indices.

(** A reply on which [filterRelevance] takes one of its two fallbacks: text
    that is not JSON, or JSON for something other than an array. *)
Definition NoArray (reply : ParsedIndices) : Prop :=
  reply = IndicesNotJSON \/ reply = IndicesNotArray.

(* ================================================================= *)
(** ** Test doubles

    Scripted collaborators for the concrete runs below.  The world is the
    number of searches made so far, so that a search double can answer its
    first call differently from its third.  The three [JSON.parse] tables
    agree with [JSON.parse] on every text these doubles produce. *)

Module Mock.

Definition dq : string := String (ascii_of_nat 34) EmptyString.

Fixpoint times (n : nat) (s : string) : string :=
  match n with
  | O => EmptyString
  | S n' => s ++ times n' s
  end.

(** 250 characters of documentation. *)
Definition longText : string := times 25 "migration ".

Definition field (k v : string) : string := dq ++ k ++ dq ++ ":" ++ dq ++ v ++ dq.

Definition hitText (title url score : string) : string :=
  "{" ++ field "title" title ++ "," ++ field "url" url ++ ","
  ++ field "content" longText ++ "," ++ dq ++ "score" ++ dq ++ ":" ++ score ++ "}".

Definition guideRaw : RawResult :=
  {| raw_title := Some "Migration Guide"; raw_url := Some "https://example.org/guide";
     raw_content := Some longText; raw_snippet := None; raw_score := Some 0.9%Q |}.

Definition blogRaw : RawResult :=
  {| raw_title := Some "Blog"; raw_url := Some "https://example.org/blog";
     raw_content := Some longText; raw_snippet := None; raw_score := Some 0.5%Q |}.

Definition guideText : string := hitText "Migration Guide" "https://example.org/guide" "0.9".
Definition blogText : string := hitText "Blog" "https://example.org/blog" "0.5".

(** Replies of the search tool. *)
Definition nothingFound : string := "[]".
Definition guideFound : string := "[" ++ guideText ++ "]".
Definition blogThenGuide : string := "[" ++ blogText ++ "," ++ guideText ++ "]".

Definition parse_results (text : string) : ParsedResults :=
  if String.eqb text nothingFound then ResultsArray []
  else if String.eqb text guideFound then ResultsArray [Some guideRaw]
  else if String.eqb text blogThenGuide then ResultsArray [Some blogRaw; Some guideRaw]
  else ResultsNotJSON.

Definition parse_indices (text : string) : ParsedIndices :=
  if String.eqb text "[0]" then IndicesArray [0%Q]
  else if String.eqb text "[1.5]" then IndicesArray [1.5%Q]
  else if String.eqb text "[2, 0, -1]" then IndicesArray [2%Q; 0%Q; (-1)%Q]
  else if String.eqb text "null" then IndicesNotArray
  else IndicesNotJSON.

Definition parse (text : string) : option JS.json :=
  if String.eqb text "{}" then Some (JS.JObject [])
  else if String.eqb text "null" then Some JS.JNull
  else None.

Definition env (llm : Prompt -> Outcome string) (searches : nat -> Outcome string)
  : Env nat :=
  {| llm_invoke := fun prompt n => (llm prompt, n);
     searchTool_invoke := fun _ n => (searches n, S n);
     Date_now := fun n => ("2025-01-01T00:00:00.000Z", n);
     JSON_parse_results := parse_results;
     JSON_parse_indices := parse_indices;
     JSON_parse := parse |}.

(** The same with an LLM that is told how many searches have been made. *)
Definition envCounting (llm : nat -> Prompt -> Outcome string)
    (searches : nat -> Outcome string) : Env nat :=
  {| llm_invoke := fun prompt n => (llm n prompt, n);
     searchTool_invoke := fun _ n => (searches n, S n);
     Date_now := fun n => ("2025-01-01T00:00:00.000Z", n);
     JSON_parse_results := parse_results;
     JSON_parse_indices := parse_indices;
     JSON_parse := parse |}.

Definition start : World nat := {| collaborators := 0; calls := [] |}.

(** An LLM that answers every prompt; [indices] is its answer to the
    relevance filter. *)
Definition llmAnswers (indices : string) (prompt : Prompt) : Outcome string :=
  match prompt with
  | QUERY_ENHANCEMENT_PROMPT _ => Ok "Spring Boot 2 to 3 migration guide"
  | RELEVANCE_FILTER_PROMPT _ _ => Ok indices
  | DEEP_ANALYSIS_PROMPT _ _ => Ok "{}"
  | SYNTHESIS_PROMPT _ _ _ => Ok "Upgrade Java first."
  end.

(** An LLM that is down. *)
Definition llmDown (_ : Prompt) : Outcome string := Throw "429 quota exceeded".

(** An LLM whose quota runs out at the relevance filter only. *)
Definition llmFilterDown (prompt : Prompt) : Outcome string :=
  match prompt with
  | RELEVANCE_FILTER_PROMPT _ _ => Throw "429 quota exceeded"
  | _ => llmAnswers "[0]" prompt
  end.

(** Search doubles. *)
Definition alwaysNothing (_ : nat) : Outcome string := Ok nothingFound.
Definition alwaysGuide (_ : nat) : Outcome string := Ok guideFound.
Definition alwaysBlogThenGuide (_ : nat) : Outcome string := Ok blogThenGuide.
Definition guideOnThirdCall (n : nat) : Outcome string :=
  if (n <? 2)%nat then Ok nothingFound else Ok guideFound.

(** The chunks of the run on [query]. *)
Definition chunksOf (e : Env nat) (query : string) : list Chunk :=
  snd (fst (stream (buildResearchGraph e) (initialState query) start)).

(** The engine after [k] node executions of the run on [query]: where it
    goes next, the state and the world. *)
Fixpoint advance (e : Env nat) (k : nat) (t : Target) (s : AgentState) (w : World nat)
  : Target * AgentState * World nat :=
  match k, t with
  | S k', goto n =>
      match step (buildResearchGraph e) n s w with
      | (Ok (s', _), w') => advance e k' (edge n s') s' w'
      | (Throw _, w') => (END, s, w')
      end
  | _, _ => (t, s, w)
  end.

Definition stateAt (e : Env nat) (query : string) (k : nat) : AgentState :=
  snd (fst (advance e k (goto Node.query_parser)
                    (merge channelDefaults (initialState query)) start)).

Definition worldAt (e : Env nat) (query : string) (k : nat) : World nat :=
  snd (advance e k (goto Node.query_parser)
               (merge channelDefaults (initialState query)) start).

Definition hitsAt (e : Env nat) (query : string) (k : nat) : list SearchResult :=
  match searchResults (stateAt e query k) with
  | Some hits => hits
  | None => []
  end.

(** An LLM whose quota runs out at the analysis only. *)
Definition llmAnalysisDown (prompt : Prompt) : Outcome string :=
  match prompt with
  | DEEP_ANALYSIS_PROMPT _ _ => Throw "429 quota exceeded"
  | _ => llmAnswers "[0]" prompt
  end.

(** The scenarios. *)
Definition question : string := "Spring Boot 2 to 3".
Definition happy : Env nat := env (llmAnswers "[0]") alwaysGuide.
Definition starved : Env nat := env (llmAnswers "[0]") alwaysNothing.
Definition lateGuide : Env nat := env (llmAnswers "[0]") guideOnThirdCall.
Definition llmOutage : Env nat := env llmDown alwaysNothing.
Definition filterOutage : Env nat := env llmFilterDown alwaysBlogThenGuide.
Definition analysisOutage : Env nat := env llmAnalysisDown alwaysGuide.
Definition fractional : Env nat := env (llmAnswers "[1.5]") alwaysBlogThenGuide.
Definition speechless : Env nat := env (llmAnswers "I cannot rank these.") alwaysBlogThenGuide.
Definition outOfRange : Env nat := env (llmAnswers "[2, 0, -1]") alwaysBlogThenGuide.

(** An LLM that answers until the first search has been made, and a search
    that never finds anything. *)
Definition outageAfterRetry : Env nat :=
  envCounting (fun n prompt => if (n =? 0)%nat then llmAnswers "[0]" prompt
                               else llmDown prompt)
              alwaysNothing.

(** The queries passed to the search tool, read off the calls of a run. *)
Definition searched (w : World nat) : list string :=
  flat_map (fun event => match event with
                         | SearchCall q => [q]
                         | LLMCall _ => []
                         end) (calls w).

(** An [onUpdate] that records what it is called with. *)
Definition record (values : Partial) (seen : list Partial) : list Partial :=
  seen ++ [values].

End Mock.

(** Further doubles: a relevance filter that answers [[2.5]], a search tool
    whose reply is [[null]], and a state with ten relevant results. *)
Module Scenario.

Definition parse_results (text : string) : ParsedResults :=
  if String.eqb text "[null]" then ResultsArray [None]
  else Mock.parse_results text.

Definition parse_indices (text : string) : ParsedIndices :=
  if String.eqb text "[2.5]" then IndicesArray [2.5%Q]
  else Mock.parse_indices text.

Definition env (llm : Prompt -> Outcome string) (searches : nat -> Outcome string)
  : Env nat :=
  {| llm_invoke := fun prompt n => (llm prompt, n);
     searchTool_invoke := fun _ n => (searches n, S n);
     Date_now := fun n => ("2025-01-01T00:00:00.000Z", n);
     JSON_parse_results := parse_results;
     JSON_parse_indices := parse_indices;
     JSON_parse := Mock.parse |}.

Definition beyondRange : Env nat :=
  env (Mock.llmAnswers "[2.5]") Mock.alwaysBlogThenGuide.

Definition nullHit : Env nat :=
  env (Mock.llmAnswers "[0]") (fun _ => Ok "[null]").

(** The [i]-th of ten hits, with the score [i/10]. *)
Definition numbered (i : nat) : SearchResult :=
  {| title := "Guide " ++ JS.showNat i;
     url := "https://example.org/" ++ JS.showNat i;
     content := Mock.longText ++ JS.showNat i;
     score := Qmake (Z.of_nat i) 10;
     timestamp := Some "2025-01-01T00:00:00.000Z" |}.

Definition tenHits : list SearchResult := map numbered (seq 1 10).

(** The happy run before the Analyze node, had the filter kept ten hits. *)
Definition tenRelevant : AgentState :=
  merge (Mock.stateAt Mock.happy Mock.question 3)
        [Set_relevantResults (map Some tenHits)].

(** An LLM whose quota runs out at the analysis of the second of the ten. *)
Definition llmSecondAnalysisDown (prompt : Prompt) : Outcome string :=
  match prompt with
  | DEEP_ANALYSIS_PROMPT _ text =>
      if String.eqb text (content (numbered 2)) then Throw "429 quota exceeded"
      else Ok "{}"
  | _ => Mock.llmAnswers "[0]" prompt
  end.

Definition secondAnalysisDown : Env nat := env llmSecondAnalysisDown Mock.alwaysGuide.

End Scenario.


(** ** [src/utils/env.ts] and [validateEnvironment] of [src/agent/index.ts] *)

(** [process.env]: the value of a variable, [None] when it is not set. *)
Definition ProcessEnv : Type := string -> option string.

(** [process.env[key] || defaultValue]. *)
Definition getEnv (processEnv : ProcessEnv) (key defaultValue : string) : string :=
  JS.orString (processEnv key) defaultValue.

(** [process.env.DEBUG === "true"]. *)
Definition isDebugMode (processEnv : ProcessEnv) : bool :=
  match processEnv "DEBUG" with
  | Some value => String.eqb value "true"
  | None => false
  end.

(** [!value] for a string that may be [undefined]. *)
Definition falsy (value : option string) : bool :=
  match value with
  | Some (String _ _) => false
  | _ => true
  end.

Definition validateEnvironment (processEnv : ProcessEnv) : Outcome unit :=
  let required := [ ("OPENAI_API_KEY", processEnv "OPENAI_API_KEY");
                    ("TAVILY_API_KEY", processEnv "TAVILY_API_KEY") ] in
  let missing :=
    fold_left (fun missing entry =>
                 let '(key, value) := entry in
                 if falsy value then (missing ++ [key])%list else missing)
              required [] in
  if (0 <? List.length missing)%nat then
    Throw ("Missing required environment variables: " ++ JS.join ", " missing ++ JS.nl
           ++ "Please create a .env file with these variables. See .env.example for details.")
  else Ok tt.

(** ** [src/cli/components/QueryInput.tsx] *)

Module QueryInput.
Section HandleSubmit.
Variable U : Type.
(** What the parent's [onSubmit] does to the parent's state. *)
Variable onSubmit : string -> U -> U.

Definition handleSubmit (submittedValue : string) (ui : U) : U :=
  let trimmed := JS.trim submittedValue in
  if (0 <? String.length trimmed)%nat then onSubmit trimmed ui else ui.
End HandleSubmit.
End QueryInput.

(** Vocabulary on strings *)

(** Only white space. *)
Fixpoint blank (s : string) : bool :=
  match s with
  | EmptyString => true
  | String c s' => JS.isWhiteSpace c && blank s'
  end.

Definition firstChar (s : string) : option ascii :=
  match s with
  | String c _ => Some c
  | EmptyString => None
  end.

Fixpoint lastChar (s : string) : option ascii :=
  match s with
  | EmptyString => None
  | String c EmptyString => Some c
  | String _ s' => lastChar s'
  end.

(** No white space at either end. *)
Definition Trimmed (s : string) : Prop :=
  (forall c, firstChar s = Some c -> JS.isWhiteSpace c = false)
  /\ (forall c, lastChar s = Some c -> JS.isWhiteSpace c = false).



Definition isLLMCall (e : Event) : bool :=
  match e with LLMCall _ => true | SearchCall _ => false end.
Definition isSearchCall (e : Event) : bool :=
  match e with SearchCall _ => true | LLMCall _ => false end.

Definition llmCalls (events : list Event) : nat := List.length (filter isLLMCall events).
Definition searchCalls (events : list Event) : nat := List.length (filter isSearchCall events).

(** The records of a reply, when none of its elements is [null]. *)
Fixpoint records (results : list (option RawResult)) : option (list RawResult) :=
  match results with
  | [] => Some []
  | None :: _ => None
  | Some raw :: results' => option_map (cons raw) (records results')
  end.

(** What [executeSearch] makes of the record at position [i] of the reply. *)
Definition Coerced (i : nat) (raw : RawResult) (hit : SearchResult) : Prop :=
  title hit = JS.orString (raw_title raw) ("Result " ++ JS.showNat (i + 1))
  /\ url hit = JS.orString (raw_url raw) ""
  /\ content hit = JS.orString (raw_content raw) (JS.orString (raw_snippet raw) "")
  /\ score hit = JS.orNumber (raw_score raw) 0.5
  /\ timestamp hit <> None.

(** A hit that [executeSearch] lets through. *)
Definition Usable (hit : SearchResult) : Prop :=
  50 < String.length (content hit)
  /\ title hit <> ""
  /\ ~ (score hit == 0)%Q
  /\ timestamp hit <> None.

(** The status a run has while node [n] is about to run. *)
Definition phase (n : Node.t) : AgentStatus :=
  match n with
  | Node.query_parser => Status.parsing_query
  | Node.search => Status.searching
  | Node.relevance_filter => Status.filtering_results
  | Node.deep_analysis => Status.analyzing
  | Node.synthesis => Status.synthesizing
  end.

(** An entry of [relevantResults]: [undefined], or one of [hits]. *)
Definition FromHits (hits : list SearchResult) (entry : option SearchResult) : Prop :=
  forall hit, entry = Some hit -> In hit hits.

(** What a state holds once the Search node has succeeded, ... *)
Definition Found (state : AgentState) (hits : list SearchResult) : Prop :=
  searchResults state = Some hits /\ validateSearchResults hits = true.

(** ... once the Filter node has, ... *)
Definition Filtered (state : AgentState) (hits : list SearchResult)
    (relevant : list (option SearchResult)) : Prop :=
  Found state hits
  /\ relevantResults state = Some relevant
  /\ Forall (FromHits hits) relevant.

(** ... once the Analyze node has: a note for each of the first three
    relevant results, none of which is [undefined], ... *)
Definition Analyzed (state : AgentState) (hits : list SearchResult)
    (relevant : list (option SearchResult)) (notes : list AnalysisStep.t) : Prop :=
  Filtered state hits relevant
  /\ analysisSteps state = Some notes
  /\ exists used,
       firstn 3 relevant = map Some used /\ used <> [] /\ Forall2 NoteOf used notes.

(** ... and once the Synthesize node has: a report that cites the URLs of
    the first five relevant results. *)
Definition Reported (state : AgentState) (hits : list SearchResult)
    (relevant : list (option SearchResult)) (notes : list AnalysisStep.t)
    (guide : MigrationFindings) : Prop :=
  Analyzed state hits relevant notes
  /\ findings state = Some guide
  /\ exists cited,
       firstn 5 relevant = map Some cited /\ sources guide = map url cited.

(** The error messages a run can end with. *)
Definition RunError (message : string) : Prop :=
  (exists cause, message = "Query parsing failed: " ++ cause)
  \/ (exists cause, message = "Search failed: Search failed: " ++ cause)
  \/ message = "Could not find sufficient search results"
  \/ message = "No relevant results to analyze"
  \/ (exists cause, message = "Analysis failed: " ++ cause)
  \/ (exists cause, message = "Synthesis failed: " ++ cause).

(** What the state holds by the time the engine is about to go to [t]. *)
Definition Gathered (t : Target) (state : AgentState) : Prop :=
  match t with
  | goto Node.query_parser | goto Node.search => True
  | goto Node.relevance_filter => exists hits, Found state hits
  | goto Node.deep_analysis => exists hits relevant, Filtered state hits relevant
  | goto Node.synthesis => exists hits relevant notes, Analyzed state hits relevant notes
  | END =>
      (status state = Status.complete ->
       exists hits relevant notes guide, Reported state hits relevant notes guide)
      /\ (status state = Status.error ->
          exists message, error state = Some message /\ RunError message)
  end.

(** The [messages] channel after the LLM has given [answers] to the
    query-enhancement prompt. *)
Definition dialogue (query : string) (answers : list string) : list BaseMessage :=
  flat_map (fun answer => [HumanMessage query; AIMessage answer]) answers.

(** Calls a node makes at most: to the LLM, and to the search tool. *)
Definition llmCost (n : Node.t) : nat :=
  match n with
  | Node.search => 0
  | Node.deep_analysis => 3
  | _ => 1
  end.

Definition searchCost (n : Node.t) : nat :=
  match n with
  | Node.search => 1
  | _ => 0
  end.

(** The object the Synthesize node falls back on when the reply of the LLM
    is not JSON. *)
Definition plainSynthesis (synthesisJson : string) : JS.json :=
  JS.JObject [ ("summary", JS.JString synthesisJson);
               ("migrationSteps", JS.JArray []);
               ("breakingChanges", JS.JArray []);
               ("examples", JS.JArray []) ].

(** The report the Synthesize node makes of a parsed reply and the URLs. *)
Definition ReportOf (synthesis : JS.json) (urls : list string)
    (guide : MigrationFindings) : Prop :=
  exists summary' migrationSteps' breakingChanges' examples' notes',
    JS.get synthesis "summary" = Some summary'
    /\ JS.get synthesis "migrationSteps" = Some migrationSteps'
    /\ JS.get synthesis "breakingChanges" = Some breakingChanges'
    /\ JS.get synthesis "examples" = Some examples'
    /\ JS.get synthesis "notes" = Some notes'
    /\ guide = {| summary := JS.or summary' (JS.JString "Migration guide synthesis");
                  migrationSteps := JS.or migrationSteps' (JS.JArray []);
                  breakingChanges := JS.or breakingChanges' (JS.JArray []);
                  examples := JS.or examples' (JS.or notes' (JS.JArray []));
                  sources := urls |}.

(** Calls still ahead, at most, when the engine is about to run [n]. *)
Definition llmBudget (n : Node.t) (state : AgentState) : nat :=
  match n with
  | Node.query_parser => Z.to_nat (3 - searchAttempts state) + 5
  | Node.search => Z.to_nat (2 - searchAttempts state) + 5
  | Node.relevance_filter => 5
  | Node.deep_analysis => 4
  | Node.synthesis => 1
  end.

Definition searchBudget (n : Node.t) (state : AgentState) : nat :=
  match n with
  | Node.query_parser | Node.search => Z.to_nat (3 - searchAttempts state)
  | _ => 0
  end.

(** How many answers the [messages] channel holds by the time the engine is
    about to go to [t], and where the last one is. *)
Definition Asked (t : Target) (state : AgentState) (answers : list string) : Prop :=
  match t with
  | goto Node.query_parser => Z.of_nat (List.length answers) = searchAttempts state
  | goto Node.search =>
      Z.of_nat (List.length answers) = (searchAttempts state + 1)%Z
      /\ exists earlier answer,
           answers = (earlier ++ [answer])%list /\ enhancedQuery state = Some answer
  | _ => (Z.of_nat (List.length answers) <= searchAttempts state + 1)%Z
  end.


(** ** [src/cli/hooks/useAgent.ts] *)

Module UseAgent.

(** The three [useState] cells of the hook.  [state] holds what
    [executeResearchStreaming] passes to [onUpdate]. *)
Record t : Type := {
  state : option Partial;
  isLoading : bool;
  error : option string
}.

Definition setState (value : option Partial) (hook : t) : t :=
  {| state := value; isLoading := isLoading hook; error := error hook |}.

Definition setIsLoading (value : bool) (hook : t) : t :=
  {| state := state hook; isLoading := value; error := error hook |}.

Definition setError (value : option string) (hook : t) : t :=
  {| state := state hook; isLoading := isLoading hook; error := value |}.

Definition getStatusMessage (status : option AgentStatus) : string :=
  match status with
  | None => ""
  | Some Status.idle => "Ready"
  | Some Status.parsing_query => "Understanding your query..."
  | Some Status.searching => "Searching the internet for migration guides..."
  | Some Status.filtering_results => "Filtering relevant results..."
  | Some Status.analyzing => "Analyzing documentation..."
  | Some Status.synthesizing => "Creating your migration guide..."
  | Some Status.complete => "Complete!"
  | Some Status.error => "Error occurred"
  end.

(** [getStatusMessage(state?.status)]. *)
Definition statusMessage (hook : t) : string :=
  getStatusMessage (match state hook with
                    | Some values => lookup key_status values
                    | None => None
                    end).

Definition reset (hook : t) : t :=
  setIsLoading false (setError None (setState None hook)).

Section Hook.
Variable W : Type.
Variable env : Env W.

Definition executeQuery (query : string) (hook : t) (w : World W) : t * World W :=
  let hook := setIsLoading true hook in
  let hook := setError None hook in
  let hook := setState None hook in
  let '((r, hook), w') :=
    executeResearchStreaming env
      (fun updatedState hook => setState (Some updatedState) hook) query hook w in
  let hook := match r with
              | Ok _ => hook
              | Throw errorMessage => setError (Some errorMessage) hook
              end in
  (setIsLoading false hook, w').

End Hook.
End UseAgent.

(** ** [src/cli/App.tsx] *)

Module App.

(** The [useState] cells of the component, and the hook it uses. *)
Record t : Type := {
  query : string;
  hasSubmitted : bool;
  agent : UseAgent.t
}.

Definition setHasSubmitted (value : bool) (app : t) : t :=
  {| query := query app; hasSubmitted := value; agent := agent app |}.

Section Component.
Variable W : Type.
Variable env : Env W.

Definition handleSubmit (submittedQuery : string) (app : t) (w : World W) : t * World W :=
  let app := setHasSubmitted true app in
  let (agent', w') := UseAgent.executeQuery env submittedQuery (agent app) w in
  ({| query := query app; hasSubmitted := hasSubmitted app; agent := agent' |}, w').

(** [<QueryInput onSubmit={handleSubmit} />]: the user presses Enter on
    [text]. *)
Definition pressEnter (text : string) (app : t) (w : World W) : t * World W :=
  QueryInput.handleSubmit
    (fun submittedQuery ui => handleSubmit submittedQuery (fst ui) (snd ui))
    text (app, w).

End Component.
End App.


(* ================================================================= *)
(** ** Regular expressions, as far as [src/agent/tools/search.ts] uses them *)

Module RegExp.

(** [\d], [\w] and [\s] on the code units a [string] holds. *)
Definition isDigit (c : ascii) : bool :=
  let n := nat_of_ascii c in ((48 <=? n) && (n <=? 57))%nat.

Definition isWordChar (c : ascii) : bool :=
  let n := nat_of_ascii c in
  (((97 <=? n) && (n <=? 122)) || ((65 <=? n) && (n <=? 90))
   || ((48 <=? n) && (n <=? 57)) || (n =? 95))%nat.

Definition isSpace (c : ascii) : bool := JS.isWhiteSpace c.

(** Canonicalization under the [i] flag: the upper case of the code unit.
    The upper case of U+00FF and of U+00B5 lies above U+00FF; they are left
    as they are, which keeps them apart from every other code unit, as
    their upper case does. *)
Definition canonicalize (c : ascii) : ascii :=
  let n := nat_of_ascii c in
  if (((97 <=? n) && (n <=? 122))
      || ((224 <=? n) && (n <=? 254) && negb (n =? 247)))%nat
  then ascii_of_nat (n - 32)
  else c.

(** A pattern character under the [i] flag. *)
Definition ignoreCase (pattern c : ascii) : bool :=
  Ascii.eqb (canonicalize c) (canonicalize pattern).

(** A pattern character above U+00FF, here U+2020 and U+2019, which have
    no other case.  A [string] holds code units up to U+00FF, and none of
    them is such a character or has it as its upper case: on the inputs of
    this model the character matches nothing.  Inputs that hold the
    character itself are beyond the model, as they are for every function
    on strings in this file. *)
Definition outside (c : ascii) : bool := false.

(** The patterns: a character test, sequence, alternative, greedy
    repetition, capturing parentheses and the assertion [\b]. *)
Inductive t : Type :=
| Empty
| Char (accepts : ascii -> bool)
| Seq (r1 r2 : t)
| Alt (r1 r2 : t)
| Star (r : t)
| Group (n : nat) (r : t)
| WordBoundary.

(** [r+] and [r?]; for an [r] that matches no empty string and holds no
    capturing parentheses these are [rr*] and [r|]. *)
Definition Plus (r : t) : t := Seq r (Star r).
Definition Opt (r : t) : t := Alt r Empty.

(** A run of pattern characters, under the [i] flag. *)
Fixpoint Lit (pattern : string) : t :=
  match pattern with
  | EmptyString => Empty
  | String p pattern' => Seq (Char (ignoreCase p)) (Lit pattern')
  end.

(** The state of a match: the character before the current position, the
    input from the current position on, and the captures so far, the latest
    first. *)
Record State : Type := {
  before : option ascii;
  rest : string;
  captures : list (nat * string)
}.

Definition Continuation : Type := State -> option State.
Definition Matcher : Type := State -> Continuation -> option State.

Definition isWordAt (c : option ascii) : bool :=
  match c with
  | Some c => isWordChar c
  | None => false
  end.

Definition next (x : State) : option ascii :=
  match rest x with
  | String c _ => Some c
  | EmptyString => None
  end.

(** [r*]: one more round of [m] as long as it consumes input, the
    continuation otherwise; [fuel] bounds the rounds by the length of the
    input left. *)
Fixpoint RepeatMatcher (m : Matcher) (fuel : nat) (x : State) (c : Continuation)
  : option State :=
  match fuel with
  | O => c x
  | S fuel' =>
      match m x (fun y =>
                   if (String.length (rest y) <? String.length (rest x))%nat
                   then RepeatMatcher m fuel' y c
                   else None) with
      | Some z => Some z
      | None => c x
      end
  end.

(** The backtracking matcher of a pattern: [c] is tried on every way the
    pattern matches at [x], in the order of priority, until it succeeds. *)
Fixpoint compile (r : t) (x : State) (c : Continuation) : option State :=
  match r with
  | Empty => c x
  | Char accepts =>
      match rest x with
      | String a s =>
          if accepts a
          then c {| before := Some a; rest := s; captures := captures x |}
          else None
      | EmptyString => None
      end
  | Seq r1 r2 => compile r1 x (fun y => compile r2 y c)
  | Alt r1 r2 =>
      match compile r1 x c with
      | Some z => Some z
      | None => compile r2 x c
      end
  | Star r' => RepeatMatcher (compile r') (String.length (rest x)) x c
  | Group n r' =>
      compile r' x
        (fun y =>
           let captured :=
             substring 0 (String.length (rest x) - String.length (rest y)) (rest x) in
           c {| before := before y; rest := rest y;
                captures := (n, captured) :: captures y |})
  | WordBoundary =>
      if xorb (isWordAt (before x)) (isWordAt (next x)) then c x else None
  end.

(** The first position from which the pattern matches. *)
Fixpoint scan (r : t) (before : option ascii) (input : string) : option State :=
  match compile r {| before := before; rest := input; captures := [] |} Some with
  | Some z => Some z
  | None =>
      match input with
      | String c input' => scan r (Some c) input'
      | EmptyString => None
      end
  end.

(** [pattern.exec(input)] and [input.match(pattern)], without the [g] flag. *)
Definition exec (r : t) (input : string) : option State := scan r None input.

(** [pattern.test(input)]. *)
Definition test (r : t) (input : string) : bool :=
  match exec r input with
  | Some _ => true
  | None => false
  end.

(** [match[n]]. *)
Fixpoint group (n : nat) (captures : list (nat * string)) : option string :=
  match captures with
  | [] => None
  | (n', s) :: captures' => if (n =? n')%nat then Some s else group n captures'
  end.

End RegExp.

(** ** The helpers of [src/agent/tools/search.ts] *)

(** [/\b(migrat|upgrad|port|transition|move)\b/i] *)
Definition migrationKeywords : list string :=
  ["migrat"; "upgrad"; "port"; "transition"; "move"].

Definition migrationKeywordPattern : RegExp.t :=
  RegExp.Seq RegExp.WordBoundary
    (RegExp.Seq
       (RegExp.Group 1
          (RegExp.Alt (RegExp.Lit "migrat")
             (RegExp.Alt (RegExp.Lit "upgrad")
                (RegExp.Alt (RegExp.Lit "port")
                   (RegExp.Alt (RegExp.Lit "transition") (RegExp.Lit "move"))))))
       RegExp.WordBoundary).

Definition optimizeQueryForMigration (query : string) : string :=
  let hasMigrationKeyword := RegExp.test migrationKeywordPattern query in
  if negb hasMigrationKeyword then query ++ " migration guide upgrade documentation"
  else query ++ " official documentation guide".

(** A version, [\d+] followed by any number of [\.\d+]. *)
Definition versionPattern : RegExp.t :=
  RegExp.Seq (RegExp.Plus (RegExp.Char RegExp.isDigit))
    (RegExp.Star (RegExp.Seq (RegExp.Char (Ascii.eqb "."))
                             (RegExp.Plus (RegExp.Char RegExp.isDigit)))).

(** The pattern of [extractVersions], under the [i] flag: an optional
    [from\s+] outside the captures, a version in the first parentheses,
    [\s+], then [to] or the three characters U+00E2, U+2020 and U+2019, [\s+],
    and a version in the second parentheses. *)
Definition transitionPattern : RegExp.t :=
  RegExp.Seq
    (RegExp.Opt (RegExp.Seq (RegExp.Lit "from") (RegExp.Plus (RegExp.Char RegExp.isSpace))))
    (RegExp.Seq (RegExp.Group 1 versionPattern)
       (RegExp.Seq (RegExp.Plus (RegExp.Char RegExp.isSpace))
          (RegExp.Seq
             (RegExp.Alt (RegExp.Lit "to")
                (RegExp.Seq (RegExp.Char (RegExp.ignoreCase (ascii_of_nat 226)))
                   (RegExp.Seq (RegExp.Char RegExp.outside) (RegExp.Char RegExp.outside))))
             (RegExp.Seq (RegExp.Plus (RegExp.Char RegExp.isSpace))
                (RegExp.Group 2 versionPattern))))).

Module Versions.
Record t : Type := {
  source : option string;
  target : option string
}.
End Versions.

Definition extractVersions (query : string) : Versions.t :=
  let match' := RegExp.exec transitionPattern query in
  match match' with
  | Some m =>
      {| Versions.source := RegExp.group 1 (RegExp.captures m);
         Versions.target := RegExp.group 2 (RegExp.captures m) |}
  | None => {| Versions.source := None; Versions.target := None |}
  end.


(** *** Vocabulary on patterns and matches *)

(** The character before the position reached once [consumed] has been
    read from a position with [before] before it. *)
Definition lastOr (before : option ascii) (consumed : string) : option ascii :=
  match lastChar consumed with
  | Some c => Some c
  | None => before
  end.

Fixpoint allChars (p : ascii -> bool) (s : string) : bool :=
  match s with
  | EmptyString => true
  | String c s' => p c && allChars p s'
  end.

(** [s] is [pattern], case ignored. *)
Fixpoint sameIgnoringCase (pattern s : string) : bool :=
  match pattern, s with
  | EmptyString, EmptyString => true
  | String p pattern', String c s' => RegExp.ignoreCase p c && sameIgnoringCase pattern' s'
  | _, _ => false
  end.

(** [s] begins with [pattern], case ignored: what follows it. *)
Fixpoint stripPrefix (pattern s : string) : option string :=
  match pattern with
  | EmptyString => Some s
  | String p pattern' =>
      match s with
      | String c s' => if RegExp.ignoreCase p c then stripPrefix pattern' s' else None
      | EmptyString => None
      end
  end.

(** One of the five words of the pattern, in any case. *)
Definition IsMigrationKeyword (w : string) : Prop :=
  exists keyword, In keyword migrationKeywords /\ sameIgnoringCase keyword w = true.

(** The query holds one of the five words as a word of its own: with no
    letter, digit or underscore right before it or right after it. *)
Definition HasMigrationKeyword (query : string) : Prop :=
  exists pre w post,
    query = pre ++ w ++ post
    /\ IsMigrationKeyword w
    /\ RegExp.isWordAt (lastChar pre) = false
    /\ RegExp.isWordAt (firstChar post) = false.

(** What follows one of the five words, when [s] begins with it, is not a
    letter, digit or underscore. *)
Definition keywordEnds (s keyword : string) : bool :=
  match stripPrefix keyword s with
  | Some s' => negb (RegExp.isWordAt (firstChar s'))
  | None => false
  end.

(** The same as a test: at the position after [before], ... *)
Definition keywordAt (before : option ascii) (s : string) : bool :=
  negb (RegExp.isWordAt before) && existsb (keywordEnds s) migrationKeywords.

(** ... and at any position from there on. *)
Fixpoint keywordIn (before : option ascii) (s : string) : bool :=
  keywordAt before s
  || match s with
     | String c s' => keywordIn (Some c) s'
     | EmptyString => false
     end.

(** One or more digits; one or more white-space characters. *)
Definition digits (s : string) : bool :=
  (0 <? String.length s)%nat && allChars RegExp.isDigit s.

Definition spaces (s : string) : bool :=
  (0 <? String.length s)%nat && allChars RegExp.isSpace s.

(** [first.more1.more2...] *)
Fixpoint groups (more : list string) : string :=
  match more with
  | [] => ""
  | d :: more' => "." ++ d ++ groups more'
  end.

Definition dotted (first : string) (more : list string) : string := first ++ groups more.

Definition DottedNumber (s : string) : Prop :=
  exists first more,
    s = dotted first more /\ digits first = true /\ Forall (fun d => digits d = true) more.

(** What follows a version and does not continue it: no digit, and no dot
    with a digit behind it. *)
Definition endsVersion (post : string) : bool :=
  match post with
  | EmptyString => true
  | String c post' =>
      negb (RegExp.isDigit c)
      && negb (Ascii.eqb "." c
               && match post' with
                  | String d _ => RegExp.isDigit d
                  | EmptyString => false
                  end)
  end.

(** The ways a pattern matches: from [x] it reaches [y]. *)
Inductive Reaches : RegExp.t -> RegExp.State -> RegExp.State -> Prop :=
| reaches_empty x : Reaches RegExp.Empty x x
| reaches_char accepts x a s :
    RegExp.rest x = String a s ->
    accepts a = true ->
    Reaches (RegExp.Char accepts) x
      {| RegExp.before := Some a; RegExp.rest := s; RegExp.captures := RegExp.captures x |}
| reaches_seq r1 r2 x y z :
    Reaches r1 x y -> Reaches r2 y z -> Reaches (RegExp.Seq r1 r2) x z
| reaches_alt_l r1 r2 x y : Reaches r1 x y -> Reaches (RegExp.Alt r1 r2) x y
| reaches_alt_r r1 r2 x y : Reaches r2 x y -> Reaches (RegExp.Alt r1 r2) x y
| reaches_star_done r x : Reaches (RegExp.Star r) x x
| reaches_star_more r x y z :
    Reaches r x y ->
    String.length (RegExp.rest y) < String.length (RegExp.rest x) ->
    Reaches (RegExp.Star r) y z ->
    Reaches (RegExp.Star r) x z
| reaches_group n r x y :
    Reaches r x y ->
    Reaches (RegExp.Group n r) x
      {| RegExp.before := RegExp.before y; RegExp.rest := RegExp.rest y;
         RegExp.captures :=
           (n, substring 0 (String.length (RegExp.rest x) - String.length (RegExp.rest y))
                           (RegExp.rest x)) :: RegExp.captures y |}
| reaches_boundary x :
    xorb (RegExp.isWordAt (RegExp.before x)) (RegExp.isWordAt (RegExp.next x)) = true ->
    Reaches RegExp.WordBoundary x x.

(** What [compile (Lit pattern)] makes of a state. *)
Fixpoint readLit (pattern : string) (x : RegExp.State) : option RegExp.State :=
  match pattern with
  | EmptyString => Some x
  | String p pattern' =>
      match RegExp.rest x with
      | String c s =>
          if RegExp.ignoreCase p c
          then readLit pattern' {| RegExp.before := Some c; RegExp.rest := s;
                                   RegExp.captures := RegExp.captures x |}
          else None
      | EmptyString => None
      end
  end.

Definition isLetter (c : ascii) : bool :=
  let n := nat_of_ascii c in
  (((97 <=? n) && (n <=? 122)) || ((65 <=? n) && (n <=? 90)))%nat.

Definition allAscii : list ascii := map ascii_of_nat (seq 0 256).

(** [y] is the way of highest priority in which [r] matches at [x]: the
    matcher returns whatever the continuation returns there, if it returns
    something. *)
Definition Greedy (r : RegExp.t) (x y : RegExp.State) : Prop :=
  forall c z, c y = Some z -> RegExp.compile r x c = Some z.

(** [r] matches in no way at [x]. *)
Definition Fails (r : RegExp.t) (x : RegExp.State) : Prop :=
  forall c, RegExp.compile r x c = None.

Definition matched (o : option RegExp.State) : bool :=
  match o with
  | Some _ => true
  | None => false
  end.


(** The continuation of the alternatives of the keyword pattern: the
    capture, then the closing [\b]. *)
Definition afterKeyword (x : RegExp.State) : RegExp.Continuation :=
  fun y =>
    RegExp.compile RegExp.WordBoundary
      {| RegExp.before := RegExp.before y; RegExp.rest := RegExp.rest y;
         RegExp.captures :=
           (1, substring 0 (String.length (RegExp.rest x) - String.length (RegExp.rest y))
                           (RegExp.rest x)) :: RegExp.captures y |}
      Some.

(** [first|second|...] *)
Fixpoint oneOf (first : string) (others : list string) : RegExp.t :=
  match others with
  | [] => RegExp.Lit first
  | second :: others' => RegExp.Alt (RegExp.Lit first) (oneOf second others')
  end.

(** The two parts of [transitionPattern]. *)
Definition fromPrefix : RegExp.t :=
  RegExp.Seq (RegExp.Lit "from") (RegExp.Plus (RegExp.Char RegExp.isSpace)).

Definition transitionBody : RegExp.t :=
  RegExp.Seq (RegExp.Group 1 versionPattern)
    (RegExp.Seq (RegExp.Plus (RegExp.Char RegExp.isSpace))
       (RegExp.Seq
          (RegExp.Alt (RegExp.Lit "to")
             (RegExp.Seq (RegExp.Char (RegExp.ignoreCase (ascii_of_nat 226)))
                (RegExp.Seq (RegExp.Char RegExp.outside) (RegExp.Char RegExp.outside))))
          (RegExp.Seq (RegExp.Plus (RegExp.Char RegExp.isSpace))
             (RegExp.Group 2 versionPattern)))).

(** What stands between the two versions, white space apart: the word [to],
    or the three characters U+00E2, U+2020 and U+2019 of the pattern. *)
Definition Separator (sep : string) : Prop :=
  sameIgnoringCase "to" sep = true
  \/ exists c1 c2 c3,
       sep = String c1 (String c2 (String c3 ""))
       /\ RegExp.ignoreCase (ascii_of_nat 226) c1 = true
       /\ RegExp.outside c2 = true
       /\ RegExp.outside c3 = true.

(** A match whose captures are [a] and [b]. *)
Definition Captured (a b : string) (o : option RegExp.State) : Prop :=
  exists z, o = Some z /\ RegExp.captures z = [(2, b); (1, a)].

Definition notDigit (c : ascii) : bool := negb (RegExp.isDigit c).

(** The end of the input, or a digit. *)
Definition atDigit (s : string) : bool :=
  match s with
  | EmptyString => true
  | String d _ => RegExp.isDigit d
  end.

(** A match from [x] to [y] that read [s] and captured nothing. *)
Definition Consumed (s : string) (x y : RegExp.State) : Prop :=
  RegExp.rest x = s ++ RegExp.rest y /\ RegExp.captures y = RegExp.captures x.

(** The outcome of the body of [transitionPattern] at some position where
    [A] is left of the input and nothing is captured yet. *)
Definition Skips (A : string) (o : option RegExp.State) : Prop :=
  exists y,
    RegExp.rest y = A /\ RegExp.captures y = []
    /\ o = RegExp.compile transitionBody y Some.

(* ================================================================= *)
(** * Properties *)

(** ** Numbers *)

Lemma gt_iff (a b : Q) : JS.gt a b = true <-> (b < a)%Q.
Proof.
  unfold JS.gt. rewrite negb_true_iff. split; intro H.
  - apply Qnot_le_lt. intro Hle. apply Qle_bool_iff in Hle. congruence.
  - destruct (Qle_bool a b) eqn:E; [|reflexivity].
    apply Qle_bool_iff in E. exfalso. apply (Qlt_not_le _ _ H E).
Qed.

(* ================================================================= *)
(** ** Validation of search results *)

(** C7.  [validateSearchResults], which the Search node applies to what
    [executeSearch] returned, accepts a sequence of hits exactly when one of
    them has a score above 0.7 and more than 200 characters of content; the
    empty sequence is rejected. *)
Theorem validateSearchResults_iff :
  validateSearchResults [] = false
  /\ forall results : list SearchResult,
       validateSearchResults results = true
       <-> exists hit, In hit results
                       /\ (0.7 < score hit)%Q
                       /\ 200 < String.length (content hit).
Proof.
  split; [reflexivity|].
  intro results. unfold validateSearchResults.
  destruct results as [|r rs].
  - simpl. split; [discriminate|]. intros (hit & [] & _).
  - change (List.length (r :: rs) =? 0)%nat with false. cbv iota.
    rewrite existsb_exists. split.
    + intros (hit & Hin & Hq). apply andb_true_iff in Hq as [Hs Hc].
      exists hit. repeat split; [assumption| now apply gt_iff | now apply Nat.ltb_lt].
    + intros (hit & Hin & Hs & Hc). exists hit. split; [assumption|].
      apply andb_true_iff. split; [now apply gt_iff | now apply Nat.ltb_lt].
Qed.

(* ================================================================= *)
(** ** [Array.prototype.sort] by score *)

Section SortFacts.

Variables A B : Type.

Lemma insert_permutation (cmp : A -> A -> Q) (x : A) (l : list A) :
  Permutation (JS.insert cmp x l) (x :: l).
Proof.
  induction l as [|y l IH]; cbn [JS.insert]; [reflexivity|].
  destruct (Qle_bool (cmp x y) 0); [reflexivity|].
  rewrite IH. apply perm_swap.
Qed.

Lemma sort_permutation (cmp : A -> A -> Q) (l : list A) :
  Permutation (JS.sort cmp l) l.
Proof.
  induction l as [|x l IH]; [reflexivity|].
  unfold JS.sort in *. cbn [fold_right].
  rewrite insert_permutation. now constructor.
Qed.

(** Sorting commutes with a map that the comparator factors through. *)
Lemma insert_map (f : A -> B) (cmpA : A -> A -> Q) (cmpB : B -> B -> Q) :
  (forall a b, cmpA a b = cmpB (f a) (f b)) ->
  forall x l, map f (JS.insert cmpA x l) = JS.insert cmpB (f x) (map f l).
Proof.
  intros H x l. induction l as [|y l IH]; [reflexivity|].
  cbn [JS.insert map]. rewrite <- H.
  destruct (Qle_bool (cmpA x y) 0); [reflexivity|].
  cbn [map]. now rewrite IH.
Qed.

Lemma sort_map (f : A -> B) (cmpA : A -> A -> Q) (cmpB : B -> B -> Q) :
  (forall a b, cmpA a b = cmpB (f a) (f b)) ->
  forall l, map f (JS.sort cmpA l) = JS.sort cmpB (map f l).
Proof.
  intros H l. induction l as [|x l IH]; [reflexivity|].
  unfold JS.sort in *. cbn [fold_right map].
  rewrite (insert_map f cmpA cmpB H). now rewrite IH.
Qed.

Lemma StronglySorted_app_inv (R : A -> A -> Prop) (l1 l2 : list A) :
  StronglySorted R (l1 ++ l2) ->
  forall x y, In x l1 -> In y l2 -> R x y.
Proof.
  induction l1 as [|a l1 IH]; intros HS x y Hx Hy; [contradiction|].
  cbn [app] in HS. apply StronglySorted_inv in HS as [HS Hall].
  destruct Hx as [->|Hx].
  - rewrite Forall_forall in Hall. apply Hall, in_or_app. now right.
  - now apply IH.
Qed.

Lemma StronglySorted_firstn (R : A -> A -> Prop) (k : nat) (l : list A) :
  StronglySorted R l -> StronglySorted R (firstn k l).
Proof.
  revert l. induction k as [|k IH]; intros l HS; [constructor|].
  destruct l as [|a l]; [constructor|].
  apply StronglySorted_inv in HS as [HS Hall]. cbn [firstn].
  constructor; [now apply IH|].
  rewrite Forall_forall in *. intros x Hx. apply Hall.
  rewrite <- (firstn_skipn k l). apply in_or_app. now left.
Qed.

End SortFacts.

Lemma byScore_le (a b : SearchResult) :
  Qle_bool (byScore a b) 0 = true <-> byScoreOrder a b.
Proof.
  unfold byScore, byScoreOrder. rewrite Qle_bool_iff. split; intro H; lra.
Qed.

Lemma insert_sorted (x : SearchResult) (l : list SearchResult) :
  StronglySorted byScoreOrder l ->
  StronglySorted byScoreOrder (JS.insert byScore x l).
Proof.
  induction 1 as [|y l HS IH Hall]; cbn [JS.insert].
  - repeat constructor.
  - destruct (Qle_bool (byScore x y) 0) eqn:E.
    + apply byScore_le in E. constructor; [now constructor|].
      constructor; [assumption|].
      rewrite Forall_forall in *. intros z Hz. specialize (Hall z Hz).
      unfold byScoreOrder in *. lra.
    + assert (Hyx : byScoreOrder y x).
      { unfold byScoreOrder. destruct (Qlt_le_dec (score y) (score x)) as [Hlt|Hle];
          [|assumption].
        assert (Qle_bool (byScore x y) 0 = true)
          by (apply byScore_le; unfold byScoreOrder; lra).
        congruence. }
      constructor; [assumption|].
      rewrite Forall_forall in *. intros z Hz.
      apply (Permutation_in _ (insert_permutation byScore x l)) in Hz.
      destruct Hz as [<-|Hz]; [assumption | now apply Hall].
Qed.

Lemma sort_sorted (l : list SearchResult) :
  StronglySorted byScoreOrder (JS.sort byScore l).
Proof.
  induction l as [|x l IH]; [constructor|].
  unfold JS.sort in *. cbn [fold_right]. now apply insert_sorted.
Qed.

(** The first [k] hits of the array sorted by score are its top [k]. *)
Lemma top_of_sorted (k : nat) (l : list SearchResult) :
  TopByScore k l (firstn k (JS.sort byScore l)).
Proof.
  pose proof (sort_sorted l) as HS. pose proof (sort_permutation byScore l) as HP.
  split; [|split].
  - now apply StronglySorted_firstn.
  - rewrite length_firstn. now rewrite (Permutation_length HP).
  - exists (skipn k (JS.sort byScore l)). rewrite firstn_skipn. split; [assumption|].
    intros x y Hx Hy. rewrite <- (firstn_skipn k (JS.sort byScore l)) in HS.
    change (byScoreOrder x y). eapply StronglySorted_app_inv; eassumption.
Qed.

(* ================================================================= *)
(** ** What each node returns *)

Ltac settled := eexists _, _; (split; [reflexivity|]).
Ltac failure := left; red; eexists; reflexivity.
Ltac success := right; cbn [update SuccessUpdate]; repeat eexists.

(** Reads the fields of a merged state without unfolding the arithmetic. *)
Ltac fields :=
  cbn [nodes edges entry buildResearchGraph initializeAgent
       merge fold_left assign setSearchResults edge budget Status.eqb
       query enhancedQuery searchResults relevantResults analysisSteps findings
       messages status error searchAttempts input_after update node values] in *.

Section Nodes.

Variable W : Type.
Variable env : Env W.

Lemma parseQuery_cases (state : AgentState) (w : World W) :
  match llm_invoke env (QUERY_ENHANCEMENT_PROMPT (query state)) (collaborators w) with
  | (Ok response, c) =>
      parseQuery env state w =
        (Ok {| input_after := state;
               update := [ Set_enhancedQuery (JS.trim response);
                           Set_status Status.searching;
                           Set_messages [ HumanMessage (query state);
                                          AIMessage (JS.trim response) ] ] |},
         {| collaborators := c;
            calls := calls w ++ [LLMCall (QUERY_ENHANCEMENT_PROMPT (query state))] |})
  | (Throw message, c) =>
      parseQuery env state w =
        (Ok {| input_after := state;
               update := [ Set_status Status.error;
                           Set_error ("Query parsing failed: " ++ message) ] |},
         {| collaborators := c;
            calls := calls w ++ [LLMCall (QUERY_ENHANCEMENT_PROMPT (query state))] |})
  end.
Proof.
  unfold parseQuery, try_catch, bind, llm, returns, ret.
  destruct (llm_invoke env _ _) as [[response|message] c]; reflexivity.
Qed.

Lemma search_cases (state : AgentState) (w : World W) :
  let q := JS.orString (enhancedQuery state) (query state) in
  match executeSearch env q w with
  | (Ok hits, w') =>
      search env state w =
        (Ok {| input_after := state;
               update :=
                 if validateSearchResults hits then
                   [ Set_searchResults hits; Set_status Status.filtering_results ]
                 else if (searchAttempts state <? 2)%Z then
                   [ Set_searchAttempts (searchAttempts state + 1);
                     Set_status Status.parsing_query;
                     Set_enhancedQuery (q ++ retrySuffix) ]
                 else
                   [ Set_status Status.error;
                     Set_error "Could not find sufficient search results" ] |}, w')
  | (Throw message, w') =>
      search env state w =
        (Ok {| input_after := state;
               update := [ Set_status Status.error;
                           Set_error ("Search failed: " ++ message) ] |}, w')
  end.
Proof.
  intro q. unfold search, try_catch, bind, returns, ret. fold q.
  destruct (executeSearch env q w) as [[hits|message] w']; [|reflexivity].
  destruct (validateSearchResults hits); simpl; [reflexivity|].
  destruct (searchAttempts state <? 2)%Z; reflexivity.
Qed.

Lemma parseQuery_shape (state : AgentState) (w : World W) :
  exists r w', parseQuery env state w = (Ok r, w')
    /\ input_after r = state
    /\ (ErrorUpdate (update r) \/ SuccessUpdate Node.query_parser state (update r)).
Proof.
  pose proof (parseQuery_cases state w) as H.
  destruct (llm_invoke env _ _) as [[response|message] c];
    rewrite H; settled; (split; [reflexivity|]).
  - success.
  - failure.
Qed.

Lemma search_shape (state : AgentState) (w : World W) :
  exists r w', search env state w = (Ok r, w')
    /\ input_after r = state
    /\ (ErrorUpdate (update r) \/ SuccessUpdate Node.search state (update r)).
Proof.
  pose proof (search_cases state w) as H. cbv zeta in H.
  destruct (executeSearch env _ w) as [[hits|message] w'];
    rewrite H; settled; (split; [reflexivity|]).
  - cbn [update]. destruct (validateSearchResults hits).
    + right. left. eexists. reflexivity.
    + destruct (searchAttempts state <? 2)%Z eqn:E.
      * right. right. split; [now apply Z.ltb_lt|]. eexists. reflexivity.
      * failure.
  - failure.
Qed.

Lemma filterRelevance_shape (state : AgentState) (w : World W) :
  exists r w', filterRelevance env state w = (Ok r, w')
    /\ Frame state (input_after r)
    /\ (ErrorUpdate (update r) \/ SuccessUpdate Node.relevance_filter state (update r)).
Proof.
  unfold filterRelevance.
  destruct (searchResults state) as [[|hit hits]|].
  1,3: settled; split; [now left | failure].
  unfold try_catch, bind, llm, returns, ret, throw.
  destruct (llm_invoke env _ _) as [[response|message] c].
  - destruct (JSON_parse_indices env (JS.trim response)).
    + settled. split; [now left | success].
    + settled. split; [right; eexists; reflexivity | success].
    + settled. split; [now left | success].
  - settled. split; [right; eexists; reflexivity | success].
Qed.

Lemma analyzeResults_shape (state : AgentState) (w : World W) :
  exists r w', analyzeResults env state w = (Ok r, w')
    /\ input_after r = state
    /\ (ErrorUpdate (update r) \/ SuccessUpdate Node.deep_analysis state (update r)).
Proof.
  unfold analyzeResults.
  destruct (relevantResults state) as [[|hit hits]|].
  1,3: settled; split; [reflexivity | failure].
  unfold try_catch, bind, returns, ret.
  destruct (analyzeEach env state _ _ w) as [[notes|message] w'];
    settled; (split; [reflexivity|]).
  - success.
  - failure.
Qed.

Lemma synthesizeFindings_shape (state : AgentState) (w : World W) :
  exists r w', synthesizeFindings env state w = (Ok r, w')
    /\ input_after r = state
    /\ (ErrorUpdate (update r) \/ SuccessUpdate Node.synthesis state (update r)).
Proof.
  unfold synthesizeFindings.
  destruct (analysisSteps state) as [[|note notes]|].
  1,3: settled; split; [reflexivity | failure].
  unfold try_catch.
  match goal with
  | |- context [ match bind ?m ?k w with _ => _ end ] =>
      destruct (bind m k w) as [[r|message] w'] eqn:E
  end.
  - settled.
    unfold bind, returns, ret, throw, property in E.
    destruct (llm env _ w) as [[response|?] w1]; [|discriminate].
    match type of E with
    | context [ match ?src w1 with _ => _ end ] =>
        destruct (src w1) as [[urls|?] w2]
    end; [|discriminate].
    match type of E with
    | context [ JS.get ?v _ ] => destruct v
    end; simpl in E; inversion E; subst; (split; [reflexivity|]); success.
  - settled. split; [reflexivity | failure].
Qed.

(** Every node settles with an update, whatever the collaborators do: a
    failure is reported in the update, never thrown. *)
Lemma node_shape (n : Node.t) (state : AgentState) (w : World W) :
  exists r w', nodeFn env n state w = (Ok r, w')
    /\ Frame state (input_after r)
    /\ (ErrorUpdate (update r) \/ SuccessUpdate n state (update r)).
Proof.
  destruct n; simpl nodeFn.
  - destruct (parseQuery_shape state w) as (r & w' & E & F & S).
    exists r, w'. rewrite F. split; [assumption|]. split; [now left | assumption].
  - destruct (search_shape state w) as (r & w' & E & F & S).
    exists r, w'. rewrite F. split; [assumption|]. split; [now left | assumption].
  - apply filterRelevance_shape.
  - destruct (analyzeResults_shape state w) as (r & w' & E & F & S).
    exists r, w'. rewrite F. split; [assumption|]. split; [now left | assumption].
  - destruct (synthesizeFindings_shape state w) as (r & w' & E & F & S).
    exists r, w'. rewrite F. split; [assumption|]. split; [now left | assumption].
Qed.

(** Every node but the Filter hands back the state object it was given
    untouched. *)
Lemma other_nodes_leave_input (n : Node.t) (state : AgentState) (w : World W) :
  n <> Node.relevance_filter ->
  exists r w', nodeFn env n state w = (Ok r, w') /\ input_after r = state.
Proof.
  intro Hn. destruct n; cbn [nodeFn]; try contradiction.
  - destruct (parseQuery_shape state w) as (r & w' & E & F & _). eauto.
  - destruct (search_shape state w) as (r & w' & E & F & _). eauto.
  - destruct (analyzeResults_shape state w) as (r & w' & E & F & _). eauto.
  - destruct (synthesizeFindings_shape state w) as (r & w' & E & F & _). eauto.
Qed.

End Nodes.

(* ================================================================= *)
(** ** Runs of the graph *)

Section Runs.

Variable W : Type.
Variable env : Env W.

(** One step from a running state: the node settles, and either the run
    ends in a terminal state or it moves on with fewer executions ahead. *)
Lemma step_progress (n : Node.t) (state : AgentState) (w : World W) :
  Running state ->
  exists state' chunk w',
    step (buildResearchGraph env) n state w = (Ok (state', chunk), w')
    /\ node chunk = n
    /\ (0 <= searchAttempts state' <= 2)%Z
    /\ ((edge n state' = END /\ Terminal state')
        \/ (exists n', edge n state' = goto n'
                       /\ Running state' /\ budget n' state' < budget n state)).
Proof.
  intros (Hf & He & Ha).
  destruct (node_shape env n state w) as (r & w' & E & F & S).
  unfold step, bind, ret. cbn [nodes buildResearchGraph]. rewrite E.
  eexists _, _, _. split; [reflexivity|]. split; [reflexivity|].
  destruct r as [after u]. cbn [input_after update] in *.
  assert (Hfa : findings after = None) by (destruct F as [->|[hits ->]]; assumption).
  assert (Hea : error after = None) by (destruct F as [->|[hits ->]]; assumption).
  assert (Haa : searchAttempts after = searchAttempts state)
    by (destruct F as [->|[hits ->]]; reflexivity).
  clear F E. destruct S as [[message ->]|S].
  - fields. split; [lia|]. left. split; [now destruct n|].
    right. fields. repeat split; [assumption | discriminate].
  - destruct n; cbn [SuccessUpdate] in S.
    + destruct S as (e & m & ->). fields. split; [lia|]. right.
      eexists. split; [reflexivity|]. split; [repeat split; fields; solve [assumption|lia]|].
      fields. lia.
    + destruct S as [(hits & ->)|(Hlt & e & ->)]; fields; (split; [lia|]); right;
        eexists; (split; [reflexivity|]); (split; [repeat split; fields; solve [assumption|lia]|]);
        fields; lia.
    + destruct S as (rel & ->). fields. split; [lia|]. right.
      eexists. split; [reflexivity|]. split; [repeat split; fields; solve [assumption|lia]|].
      fields. lia.
    + destruct S as (notes & ->). fields. split; [lia|]. right.
      eexists. split; [reflexivity|]. split; [repeat split; fields; solve [assumption|lia]|].
      fields. lia.
    + destruct S as (guide & ->). fields. split; [lia|]. left. split; [reflexivity|].
      left. fields. split; [reflexivity | discriminate].
Qed.

Lemma initial_running (query : string) :
  Running (merge channelDefaults (initialState query)).
Proof. unfold channelDefaults, initialState. repeat split; fields; lia. Qed.

Lemma budget_positive (n : Node.t) (state : AgentState) : 1 <= budget n state.
Proof. destruct n; unfold budget; lia. Qed.

(** A run from a running state ends, within the executions budgeted, in a
    terminal state: the engine needs no more steps than that. *)
Lemma pregel_terminates (fuel : nat) :
  forall (n : Node.t) (state : AgentState) (w : World W),
    Running state ->
    budget n state <= fuel ->
    exists final chunks w',
      pregel (buildResearchGraph env) fuel n state w = ((Ok final, chunks), w')
      /\ Terminal final
      /\ (0 <= searchAttempts final <= 2)%Z
      /\ 1 <= List.length chunks <= budget n state.
Proof.
  induction fuel as [|fuel IH]; intros n state w HR Hb.
  - pose proof (budget_positive n state). lia.
  - destruct (step_progress n w HR)
      as (state' & chunk & w' & Es & _ & Ha & [[Ee HT]|(n' & Ee & HR' & Hlt)]).
    + exists state', [chunk], w'. cbn [pregel edges buildResearchGraph]. rewrite Es, Ee.
      repeat split; try assumption; try lia; cbn [List.length];
        pose proof (budget_positive n state); lia.
    + destruct (IH n' state' w' HR') as (final & chunks & w'' & Ep & HT & Haf & Hl);
        [lia|].
      exists final, (chunk :: chunks), w''. cbn [pregel edges buildResearchGraph].
      rewrite Es, Ee, Ep.
      repeat split; try assumption; try lia; cbn [List.length]; lia.
Qed.

(** Along a run the counter of search attempts stays within 0..2, no
    report and no error exist while a node is about to run, and where the
    run stops the state is terminal. *)
Lemma reachable_invariant (query : string) (w0 : World W)
    (t : Target) (state : AgentState) (w : World W) :
  Reachable env query w0 t state w ->
  (0 <= searchAttempts state <= 2)%Z
  /\ match t with
     | goto _ => Running state
     | END => Terminal state
     end.
Proof.
  induction 1 as [|n state w state' chunk w' _ [_ HR] Es].
  - split; [|apply initial_running]. unfold channelDefaults, initialState. fields. lia.
  - destruct (step_progress n w HR)
      as (s1 & c1 & w1 & Es1 & _ & Ha & [[Ee HT]|(n' & Ee & HR' & _)]);
      rewrite Es in Es1; inversion Es1; subst; rewrite Ee; auto.
Qed.

(** The final state of a run is one of its reachable states. *)
Lemma pregel_reachable (query : string) (w0 : World W) (fuel : nat) :
  forall n state w final chunks w',
    Reachable env query w0 (goto n) state w ->
    pregel (buildResearchGraph env) fuel n state w = ((Ok final, chunks), w') ->
    Reachable env query w0 END final w'.
Proof.
  induction fuel as [|fuel IH]; intros n state w final chunks w' HR Ep.
  - discriminate.
  - cbn [pregel edges buildResearchGraph] in Ep.
    destruct (step (buildResearchGraph env) n state w) as [[[state1 chunk1]|message] w1] eqn:Es;
      [|discriminate].
    pose proof (reach_step HR Es) as HR1.
    destruct (edge n state1) as [n1|] eqn:Ee.
    + destruct (pregel (buildResearchGraph env) fuel n1 state1 w1) as [[r cs] w2] eqn:Ep1.
      inversion Ep; subst. eapply IH; eassumption.
    + inversion Ep; subst. assumption.
Qed.

Lemma invoke_stream (input : Partial) (w : World W) :
  forall final chunks w',
    pregel (buildResearchGraph env) recursionLimit Node.query_parser
           (merge channelDefaults input) w
      = ((Ok final, chunks), w') ->
    invoke (buildResearchGraph env) input w = (Ok final, w')
    /\ stream (buildResearchGraph env) input w = ((Ok tt, chunks), w').
Proof.
  intros final chunks w' E. unfold invoke, stream.
  cbn [entry buildResearchGraph]. now rewrite E.
Qed.

(** C3, as the code has it.  Whatever the query and the collaborators, a run
    ends, without exhausting the engine's step limit, after at most
    9 = 3 * 2 + 3 node executions: up to three rounds of Refine and Search,
    then Filter, Analyze and Synthesize. *)
Theorem run_at_most_nine_executions (query : string) (w : World W) :
  exists final chunks w',
    stream (buildResearchGraph env) (initialState query) w = ((Ok tt, chunks), w')
    /\ invoke (buildResearchGraph env) (initialState query) w = (Ok final, w')
    /\ 1 <= List.length chunks <= 9.
Proof.
  destruct (@pregel_terminates recursionLimit Node.query_parser
              (merge channelDefaults (initialState query)) w
              (initial_running query))
    as (final & chunks & w' & E & _ & _ & Hl).
  - unfold channelDefaults, initialState, recursionLimit. fields.
    change (Z.to_nat (2 - 0)) with 2. lia.
  - exists final, chunks, w'. destruct (invoke_stream _ _ E) as [Ei Es].
    split; [assumption|]. split; [assumption|].
    unfold channelDefaults, initialState in Hl. fields.
    change (Z.to_nat (2 - 0)) with 2 in Hl. lia.
Qed.

(** C5.  In every state in which a run stops: the status [complete] comes
    with a report; the status [error] comes with no report and with an
    error message; and a report is present exactly when the status is
    [complete].  Every run does stop, in the state [graph.invoke] returns. *)
Theorem report_iff_complete (query : string) (w : World W) :
  (forall final w',
      Reachable env query w END final w' ->
      (status final = Status.complete -> findings final <> None)
      /\ (status final = Status.error -> findings final = None /\ error final <> None)
      /\ (findings final <> None <-> status final = Status.complete))
  /\ (exists final w',
        invoke (buildResearchGraph env) (initialState query) w = (Ok final, w')
        /\ Reachable env query w END final w').
Proof.
  split.
  - intros final w' HR. destruct (reachable_invariant HR) as [_ HT].
    destruct HT as [[Hs Hf]|(Hs & Hf & He)]; rewrite Hs.
    + repeat split; try discriminate; intros; assumption.
    + repeat split; try discriminate; try assumption; try congruence.
  - destruct (@pregel_terminates recursionLimit Node.query_parser
                (merge channelDefaults (initialState query)) w
                (initial_running query))
      as (final & chunks & w' & E & _ & _ & _).
    + unfold channelDefaults, initialState, recursionLimit. fields.
      change (Z.to_nat (2 - 0)) with 2. lia.
    + exists final, w'. split; [apply (invoke_stream _ _ E)|].
      eapply pregel_reachable; [apply reach_start | exact E].
Qed.

(** *** The two entry points *)

(** The update of the step that ends a run carries the status, the report
    and the error message of the final state. *)
Lemma step_end_agrees (n : Node.t) (state state' : AgentState) (chunk : Chunk)
    (w w' : World W) :
  Running state ->
  step (buildResearchGraph env) n state w = (Ok (state', chunk), w') ->
  edge n state' = END ->
  lookup key_status (values chunk) = Some (status state')
  /\ lookup key_findings (values chunk) = findings state'
  /\ lookup key_error (values chunk) = error state'.
Proof.
  intros (Hf & He & Ha) Es Ee.
  destruct (node_shape env n state w) as (r & w1 & E & F & S).
  unfold step, bind, ret in Es. cbn [nodes buildResearchGraph] in Es.
  rewrite E in Es. inversion Es; subst. clear Es E.
  destruct r as [after u]. fields.
  assert (Hfa : findings after = None) by (destruct F as [->|[hits ->]]; assumption).
  assert (Hea : error after = None) by (destruct F as [->|[hits ->]]; assumption).
  clear F. destruct S as [[message ->]|S].
  - fields. cbn [lookup fold_left key_status key_findings key_error].
    repeat split. now rewrite Hfa.
  - destruct n; cbn [SuccessUpdate] in S.
    + destruct S as (e & m & ->). fields. discriminate.
    + destruct S as [(hits & ->)|(Hlt & e & ->)]; fields; discriminate.
    + destruct S as (rel & ->). fields. discriminate.
    + destruct S as (notes & ->). fields. discriminate.
    + destruct S as (guide & ->). fields.
      cbn [lookup fold_left key_status key_findings key_error].
      repeat split. now rewrite Hea.
Qed.

Section Callback.

Variable U : Type.
Variable onUpdate : Partial -> U -> U.

Lemma forAwait_cons (chunk : Chunk) (chunks : list Chunk)
    (finalState : option Partial) (ui : U) :
  forAwait onUpdate (chunk :: chunks) finalState ui
  = forAwait onUpdate chunks (Some (values chunk)) (onUpdate (values chunk) ui).
Proof. reflexivity. Qed.

(** [onUpdate] is called once per chunk, in order, with the object of the
    chunk. *)
Lemma forAwait_calls (chunks : list Chunk) :
  forall (finalState : option Partial) (ui : U),
    snd (forAwait onUpdate chunks finalState ui)
    = fold_left (fun seen chunk => onUpdate (values chunk) seen) chunks ui.
Proof.
  induction chunks as [|chunk chunks IH]; intros finalState ui; [reflexivity|].
  rewrite forAwait_cons, IH. reflexivity.
Qed.

(** What the streaming loop keeps as [finalState] is the update of the last
    step, which agrees with the final state on status, report and error. *)
Lemma pregel_final_object (fuel : nat) :
  forall n state w final chunks w' finalState ui,
    Running state ->
    pregel (buildResearchGraph env) fuel n state w = ((Ok final, chunks), w') ->
    exists obj,
      fst (forAwait onUpdate chunks finalState ui) = Some obj
      /\ lookup key_status obj = Some (status final)
      /\ lookup key_findings obj = findings final
      /\ lookup key_error obj = error final.
Proof.
  induction fuel as [|fuel IH]; intros n state w final chunks w' finalState ui HR Ep.
  - discriminate.
  - cbn [pregel edges buildResearchGraph] in Ep.
    destruct (step_progress n w HR)
      as (state' & chunk & w1 & Es & _ & _ & [[Ee _]|(n' & Ee & HR' & _)]);
      rewrite Es, Ee in Ep.
    + inversion Ep; subst. exists (values chunk). split; [reflexivity|].
      eapply step_end_agrees; eassumption.
    + destruct (pregel (buildResearchGraph env) fuel n' state' w1) as [[r cs] w2] eqn:Ep'.
      inversion Ep; subst. rewrite forAwait_cons. eapply IH; eassumption.
Qed.

(** What the two entry points do agree on: they throw the same error, or
    return objects with the same status, report and error message, having
    made the same calls to the collaborators. *)
Lemma entry_points_agree_on_report (query : string) (ui : U) (w : World W) :
  match executeResearch env query w with
  | (Ok final, w1) =>
      exists obj ui',
        executeResearchStreaming env onUpdate query ui w = ((Ok obj, ui'), w1)
        /\ lookup key_status obj = Some (status final)
        /\ lookup key_findings obj = findings final
        /\ lookup key_error obj = error final
  | (Throw message, w1) =>
      exists ui',
        executeResearchStreaming env onUpdate query ui w = ((Throw message, ui'), w1)
  end.
Proof.
  destruct (@pregel_terminates recursionLimit Node.query_parser
              (merge channelDefaults (initialState query)) w
              (initial_running query))
    as (final & chunks & w' & E & _ & _ & _).
  { unfold channelDefaults, initialState, recursionLimit. fields.
    change (Z.to_nat (2 - 0)) with 2. lia. }
  destruct (@pregel_final_object _ _ _ _ _ _ _ None ui (initial_running query) E)
    as (obj & Eo & Hs & Hf & He).
  unfold executeResearch, executeResearchStreaming, try_catch, bind, invoke, stream,
    ret, throw.
  unfold initializeAgent. cbn [entry buildResearchGraph]. rewrite E.
  destruct (forAwait onUpdate chunks None ui) as [finalState ui'].
  cbn [fst] in Eo. subst finalState. rewrite Hs, He.
  destruct (status final) eqn:Est; cbn [Status.eqb];
    try (eexists _, _; repeat split; solve [eassumption | congruence]).
  eexists. reflexivity.
Qed.

End Callback.

(** *** Retries *)

Lemma step_search_insufficient (state : AgentState) (w : World W) :
  AlwaysInsufficient env ->
  let q := JS.orString (enhancedQuery state) (query state) in
  let u := if (searchAttempts state <? 2)%Z then
             [ Set_searchAttempts (searchAttempts state + 1);
               Set_status Status.parsing_query;
               Set_enhancedQuery (q ++ retrySuffix) ]
           else
             [ Set_status Status.error;
               Set_error "Could not find sufficient search results" ] in
  exists w',
    step (buildResearchGraph env) Node.search state w
      = (Ok (merge state u, {| node := Node.search; values := u |}), w').
Proof.
  intros HI q u. destruct (HI q w) as (hits & w' & E & Hv).
  pose proof (search_cases env state w) as H. cbv zeta in H. fold q in H.
  rewrite E, Hv in H. exists w'. unfold step, bind, ret. cbn [nodes buildResearchGraph nodeFn].
  rewrite H. reflexivity.
Qed.

Lemma step_refine (state : AgentState) (w : World W) :
  match llm_invoke env (QUERY_ENHANCEMENT_PROMPT (query state)) (collaborators w) with
  | (Ok response, _) =>
      exists w',
        step (buildResearchGraph env) Node.query_parser state w =
          (Ok (merge state [ Set_enhancedQuery (JS.trim response);
                             Set_status Status.searching;
                             Set_messages [ HumanMessage (query state);
                                            AIMessage (JS.trim response) ] ],
               {| node := Node.query_parser;
                  values := [ Set_enhancedQuery (JS.trim response);
                              Set_status Status.searching;
                              Set_messages [ HumanMessage (query state);
                                             AIMessage (JS.trim response) ] ] |}),
           w')
  | (Throw message, _) =>
      exists w',
        step (buildResearchGraph env) Node.query_parser state w =
          (Ok (merge state [ Set_status Status.error;
                             Set_error ("Query parsing failed: " ++ message) ],
               {| node := Node.query_parser;
                  values := [ Set_status Status.error;
                              Set_error ("Query parsing failed: " ++ message) ] |}),
           w')
  end.
Proof.
  pose proof (parseQuery_cases env state w) as H.
  unfold step, bind, ret. cbn [nodes buildResearchGraph nodeFn].
  destruct (llm_invoke env _ _) as [[response|message] c]; rewrite H;
    eexists; reflexivity.
Qed.

(** With [k] retries left and a search that never passes validation, the
    run stops in the error status after at most [k + 1] rounds of Refine and
    Search -- after exactly [k + 1] rounds, with the counter at 2, when the
    LLM answers every query-enhancement prompt. *)
Lemma insufficient_from (k : nat) :
  AlwaysInsufficient env ->
  forall (state : AgentState) (w : World W) (fuel : nat),
    searchAttempts state = (2 - Z.of_nat k)%Z ->
    exists final chunks w',
      pregel (buildResearchGraph env) (2 * S k + fuel) Node.query_parser state w
        = ((Ok final, chunks), w')
      /\ status final = Status.error
      /\ executions Node.search chunks <= S k
      /\ (RefineAnswers env ->
          searchAttempts final = 2%Z /\ executions Node.search chunks = S k).
Proof.
  intros HI. induction k as [|k IH]; intros state w fuel Ha.
  - change (2 * 1 + fuel) with (S (S fuel)). cbn [pregel edges buildResearchGraph].
    pose proof (step_refine state w) as H1.
    destruct (llm_invoke env _ _) as [[response|message] c] eqn:El;
      destruct H1 as (w1 & E1); rewrite E1; fields.
    + match type of E1 with _ = (Ok (?s, _), _) => set (state1 := s) in * end.
      destruct (step_search_insufficient state1 w1 HI) as (w2 & E2).
      assert (Hge : (searchAttempts state1 <? 2)%Z = false)
        by (subst state1; fields; apply Z.ltb_ge; lia).
      rewrite Hge in E2. subst state1. fields. rewrite E2. fields.
      eexists _, _, _. split; [reflexivity|]. fields.
      split; [reflexivity|]. split; [cbv; lia|]. intros _. split; [lia | reflexivity].
    + eexists _, _, _. split; [reflexivity|]. fields.
      split; [reflexivity|]. split; [cbv; lia|]. intro HR.
      destruct (HR (query state) (collaborators w)) as (r' & c' & E'). congruence.
  - replace (2 * S (S k) + fuel) with (S (S (2 * S k + fuel))) by lia.
    cbn [pregel edges buildResearchGraph].
    pose proof (step_refine state w) as H1.
    destruct (llm_invoke env _ _) as [[response|message] c] eqn:El;
      destruct H1 as (w1 & E1); rewrite E1; fields.
    + match type of E1 with _ = (Ok (?s, _), _) => set (state1 := s) in * end.
      destruct (step_search_insufficient state1 w1 HI) as (w2 & E2).
      assert (Hlt : (searchAttempts state1 <? 2)%Z = true)
        by (subst state1; fields; apply Z.ltb_lt; lia).
      rewrite Hlt in E2.
      match type of E2 with _ = (Ok (?s, _), _) => set (state2 := s) in * end.
      destruct (IH state2 w2 fuel) as (final & chunks & w3 & E3 & Hs & Hle & Hx).
      { subst state2 state1. fields. lia. }
      subst state1. fields. rewrite E2. subst state2. fields. rewrite E3.
      eexists _, _, _. split; [reflexivity|]. split; [assumption|].
      unfold executions in *. cbn [filter node Node_eqb List.length].
      split; [lia|]. intro HR. destruct (Hx HR) as [Hf Hn]. split; [assumption | lia].
    + eexists _, _, _. split; [reflexivity|]. fields.
      split; [reflexivity|]. split; [cbv; lia|]. intro HR.
      destruct (HR (query state) (collaborators w)) as (r' & c' & E'). congruence.
Qed.

(** C4, as the code has it.  The counter of search attempts is between 0
    and 2 in every state a run passes through.  With a search whose results
    never pass validation every run ends in the error status after at most 3
    executions of the Search node; and if the LLM answers every
    query-enhancement prompt, so that the search is reached each time, the run
    ends with the counter at exactly 2 after exactly 3 executions of the
    Search node. *)
Theorem search_attempts_bounded :
  (forall query w0 t state w,
      Reachable env query w0 t state w -> (0 <= searchAttempts state <= 2)%Z)
  /\ (AlwaysInsufficient env ->
      (forall query w,
          exists final chunks w',
            stream (buildResearchGraph env) (initialState query) w = ((Ok tt, chunks), w')
            /\ invoke (buildResearchGraph env) (initialState query) w = (Ok final, w')
            /\ status final = Status.error
            /\ executions Node.search chunks <= 3)
      /\ (RefineAnswers env -> ExhaustsRetries env)).
Proof.
  split.
  - intros query w0 t state w H. apply (reachable_invariant H).
  - intro HI.
    assert (H : forall query w,
               exists final chunks w',
                 stream (buildResearchGraph env) (initialState query) w = ((Ok tt, chunks), w')
                 /\ invoke (buildResearchGraph env) (initialState query) w = (Ok final, w')
                 /\ status final = Status.error
                 /\ executions Node.search chunks <= 3
                 /\ (RefineAnswers env ->
                     searchAttempts final = 2%Z
                     /\ executions Node.search chunks = 3)).
    { intros query w.
      destruct (@insufficient_from 2 HI (merge channelDefaults (initialState query)) w 19)
        as (final & chunks & w' & E & Hs & Hle & Hx); [reflexivity|].
      exists final, chunks, w'.
      change (2 * 3 + 19) with recursionLimit in E.
      destruct (invoke_stream _ _ E) as [Ei Es]. auto. }
    split.
    + intros query w. destruct (H query w) as (final & chunks & w' & ? & ? & ? & ? & _).
      exists final, chunks, w'. auto.
    + intros HR query w.
      destruct (H query w) as (final & chunks & w' & ? & ? & ? & _ & Hx).
      destruct (Hx HR). exists final, chunks, w'. auto.
Qed.

(** *** The query after a retry *)

(** Refine reads [query] and never [enhancedQuery]: a run from the Refine
    node makes the same calls and yields the same chunks whatever
    [enhancedQuery] holds, and ends in the same state -- or, when Refine
    itself fails, in states that differ in that field alone. *)
Lemma pregel_ignores_enhancedQuery (fuel : nat) (state : AgentState)
    (other : string) (w : World W) :
  let '((r1, chunks1), w1) := pregel (buildResearchGraph env) fuel Node.query_parser state w in
  let '((r2, chunks2), w2) :=
    pregel (buildResearchGraph env) fuel Node.query_parser
           (merge state [Set_enhancedQuery other]) w in
  chunks1 = chunks2
  /\ w1 = w2
  /\ (r1 = r2
      \/ exists s1, r1 = Ok s1 /\ status s1 = Status.error
                    /\ r2 = Ok (merge s1 [Set_enhancedQuery other])).
Proof.
  destruct fuel as [|fuel]; [cbn [pregel edges buildResearchGraph]; auto|].
  cbn [pregel edges buildResearchGraph]. unfold step, bind, ret.
  cbn [nodes buildResearchGraph nodeFn].
  pose proof (parseQuery_cases env state w) as H1.
  pose proof (parseQuery_cases env (merge state [Set_enhancedQuery other]) w) as H2.
  fields.
  destruct (llm_invoke env _ _) as [[response|message] c]; rewrite H1, H2; fields.
  - destruct (pregel (buildResearchGraph env) fuel Node.search _ _) as [[r chunks] w']. auto.
  - split; [reflexivity|]. split; [reflexivity|]. right.
    eexists. split; [reflexivity|]. split; reflexivity.
Qed.

(** C10.  When the Search node loops back, it leaves the suffixed query in
    [enhancedQuery] and the engine goes to Refine.  Refine then calls the LLM
    with the prompt made from the original [query] alone; when the LLM
    answers, its trimmed answer replaces the suffixed query and is what the
    next Search passes on; when it fails, the run ends.  Had any other text
    stood in place of the suffixed query, the rest of the run would have made
    the same calls to the collaborators, and yielded the same chunks. *)
Theorem retry_suffix_never_searched (state : AgentState) (w w1 : World W)
    (hits : list SearchResult) :
  executeSearch env (JS.orString (enhancedQuery state) (query state)) w = (Ok hits, w1) ->
  validateSearchResults hits = false ->
  (searchAttempts state < 2)%Z ->
  let q := JS.orString (enhancedQuery state) (query state) in
  let retried :=
    merge state [ Set_searchAttempts (searchAttempts state + 1);
                  Set_status Status.parsing_query;
                  Set_enhancedQuery (q ++ retrySuffix) ] in
  (exists chunk, step (buildResearchGraph env) Node.search state w = (Ok (retried, chunk), w1))
  /\ enhancedQuery retried = Some (q ++ retrySuffix)
  /\ edge Node.search retried = goto Node.query_parser
  /\ (exists refined chunk w2,
        step (buildResearchGraph env) Node.query_parser retried w1 = (Ok (refined, chunk), w2)
        /\ calls w2 = (calls w1 ++ [LLMCall (QUERY_ENHANCEMENT_PROMPT (query state))])%list
        /\ ((exists response,
               llm_invoke env (QUERY_ENHANCEMENT_PROMPT (query state)) (collaborators w1)
                 = (Ok response, collaborators w2)
               /\ enhancedQuery refined = Some (JS.trim response)
               /\ edge Node.query_parser refined = goto Node.search
               /\ JS.orString (enhancedQuery refined) (query refined)
                  = JS.orString (Some (JS.trim response)) (query state))
            \/ (status refined = Status.error
                /\ edge Node.query_parser refined = END)))
  /\ (forall (other : string) (fuel : nat),
        let '((r1, chunks1), wa) :=
          pregel (buildResearchGraph env) fuel Node.query_parser retried w1 in
        let '((r2, chunks2), wb) :=
          pregel (buildResearchGraph env) fuel Node.query_parser
                 (merge retried [Set_enhancedQuery other]) w1 in
        chunks1 = chunks2
        /\ wa = wb
        /\ (r1 = r2
            \/ exists s1, r1 = Ok s1 /\ status s1 = Status.error
                          /\ r2 = Ok (merge s1 [Set_enhancedQuery other]))).
Proof.
  intros E Hv Ha q retried.
  split; [|split; [reflexivity|split; [reflexivity|split]]].
  - pose proof (search_cases env state w) as H. cbv zeta in H.
    rewrite E, Hv in H.
    assert (Hlt : (searchAttempts state <? 2)%Z = true) by now apply Z.ltb_lt.
    rewrite Hlt in H. unfold step, bind, ret. cbn [nodes buildResearchGraph nodeFn]. rewrite H.
    eexists. reflexivity.
  - pose proof (parseQuery_cases env retried w1) as H.
    unfold step, bind, ret. cbn [nodes buildResearchGraph nodeFn].
    change (query retried) with (query state) in *.
    destruct (llm_invoke env _ _) as [[response|message] c] eqn:El; rewrite H.
    + eexists _, _, _. split; [reflexivity|]. split; [reflexivity|].
      left. exists response. repeat split.
    + eexists _, _, _. split; [reflexivity|]. split; [reflexivity|].
      right. split; reflexivity.
  - intros other fuel. apply pregel_ignores_enhancedQuery.
Qed.

End Runs.

(* ================================================================= *)
(** ** Indexing an array by a number *)

Lemma Qred_inject_Z (z : Z) : Qred (inject_Z z) = inject_Z z.
Proof.
  unfold Qred, inject_Z. cbn [Qnum Qden].
  pose proof (Z.ggcd_gcd z 1) as Hg.
  pose proof (Z.ggcd_correct_divisors z 1) as Hd.
  destruct (Z.ggcd z 1) as [g [aa bb]]. cbn [fst snd] in *.
  rewrite Z.gcd_1_r in Hg. subst g. destruct Hd as [Ha Hb].
  rewrite Z.mul_1_l in Ha, Hb. subst aa bb. reflexivity.
Qed.

Lemma index_nat {A} (arr : list A) (i : nat) :
  JS.index arr (inject_Z (Z.of_nat i)) = nth_error arr i.
Proof.
  unfold JS.index. rewrite Qred_inject_Z. cbn [Qnum Qden inject_Z].
  rewrite Pos.eqb_refl. cbn [andb].
  destruct (0 <=? Z.of_nat i)%Z eqn:E; [now rewrite Nat2Z.id|].
  apply Z.leb_gt in E. lia.
Qed.

Lemma inRange_iff (len : nat) (idx : Q) :
  inRange len idx = true <-> (0 <= idx /\ idx < inject_Z (Z.of_nat len))%Q.
Proof.
  unfold inRange. rewrite andb_true_iff, Qle_bool_iff, gt_iff. reflexivity.
Qed.

Lemma inRange_nat (len i : nat) :
  inRange len (inject_Z (Z.of_nat i)) = (i <? len)%nat.
Proof.
  destruct (i <? len)%nat eqn:E.
  - apply Nat.ltb_lt in E. apply inRange_iff. split.
    + rewrite <- (Zle_Qle 0). lia.
    + rewrite <- Zlt_Qlt. lia.
  - apply Nat.ltb_ge in E. destruct (inRange len _) eqn:R; [|reflexivity].
    apply inRange_iff in R as [_ R]. rewrite <- Zlt_Qlt in R. lia.
Qed.

Lemma nth_error_seq {A} (l : list A) :
  map (nth_error l) (seq 0 (List.length l)) = map Some l.
Proof.
  induction l as [|a l IH]; [reflexivity|].
  cbn [List.length]. rewrite <- cons_seq, <- seq_shift. cbn [map nth_error].
  rewrite map_map. f_equal. exact IH.
Qed.

(** The fallback of the inner [catch], which sorts the indices of the array
    by the score they point at and reads the first five back, yields the
    first five hits of the array sorted by score. *)
Lemma fallback_by_index (results : list SearchResult) :
  map (JS.index results)
      (filter (inRange (List.length results))
         (map (fun idx => inject_Z (Z.of_nat idx))
            (firstn 5
               (JS.sort (fun a b => (scoreAt results b - scoreAt results a)%Q)
                        (seq 0 (List.length results))))))
  = map Some (firstn 5 (JS.sort byScore results)).
Proof.
  set (cmpIdx := fun a b => (scoreAt results b - scoreAt results a)%Q).
  set (oscore := fun o : option SearchResult =>
                   match o with Some r => score r | None => 0%Q end).
  set (cmpOpt := fun a b => (oscore b - oscore a)%Q).
  set (idxs := firstn 5 (JS.sort cmpIdx (seq 0 (List.length results)))).
  assert (Hin : forall i, In i idxs -> i < List.length results).
  { intros i Hi. subst idxs.
    assert (Hs : In i (JS.sort cmpIdx (seq 0 (List.length results)))).
    { rewrite <- (firstn_skipn 5 (JS.sort _ _)). apply in_or_app. now left. }
    apply (Permutation_in _ (sort_permutation cmpIdx _)) in Hs.
    apply in_seq in Hs. lia. }
  assert (Hkeep : filter (inRange (List.length results))
                    (map (fun idx => inject_Z (Z.of_nat idx)) idxs)
                  = map (fun idx => inject_Z (Z.of_nat idx)) idxs).
  { clear -Hin. induction idxs as [|i idxs IH]; [reflexivity|].
    cbn [map filter]. rewrite inRange_nat.
    assert (E : (i <? List.length results)%nat = true)
      by (apply Nat.ltb_lt, Hin; now left).
    rewrite E, IH; [reflexivity|]. intros j Hj. apply Hin. now right. }
  rewrite Hkeep, map_map.
  rewrite (map_ext _ (nth_error results)) by (intro i; apply index_nat).
  subst idxs. rewrite <- firstn_map.
  rewrite (sort_map (nth_error results) cmpIdx cmpOpt) by reflexivity.
  rewrite nth_error_seq.
  rewrite <- (sort_map (@Some SearchResult) byScore cmpOpt) by reflexivity.
  now rewrite firstn_map.
Qed.

(* ================================================================= *)
(** ** The Search, Filter and Analyze nodes *)

Section NodeProperties.

Variable W : Type.
Variable env : Env W.

(** C9, as the code has it.  When the results fail validation and the
    counter of search attempts has reached 2, the Search node reports the
    status [error] with the message "Could not find sufficient search
    results", and the state after its update carries both. *)
Theorem search_gives_up (state : AgentState) (w w' : World W)
    (hits : list SearchResult) :
  executeSearch env (JS.orString (enhancedQuery state) (query state)) w = (Ok hits, w') ->
  validateSearchResults hits = false ->
  (2 <= searchAttempts state)%Z ->
  let u := [ Set_status Status.error;
             Set_error "Could not find sufficient search results" ] in
  search env state w = (Ok {| input_after := state; update := u |}, w')
  /\ status (merge state u) = Status.error
  /\ error (merge state u) = Some "Could not find sufficient search results".
Proof.
  intros E Hv Ha u. split; [|split; reflexivity].
  pose proof (search_cases env state w) as H. cbv zeta in H.
  rewrite E, Hv in H. rewrite H.
  assert (Hge : (searchAttempts state <? 2)%Z = false) by (apply Z.ltb_ge; lia).
  now rewrite Hge.
Qed.

(** *** Filter *)

Lemma filterRelevance_answered (state : AgentState) (results : list SearchResult)
    (w : World W) (response : string) (c : W) :
  searchResults state = Some results ->
  results <> [] ->
  llm_invoke env (RELEVANCE_FILTER_PROMPT (query state) (resultsText results))
             (collaborators w) = (Ok response, c) ->
  let w' := {| collaborators := c;
               calls := calls w ++ [LLMCall (RELEVANCE_FILTER_PROMPT
                                               (query state) (resultsText results))] |} in
  filterRelevance env state w =
    match JSON_parse_indices env (JS.trim response) with
    | IndicesArray indices =>
        (Ok {| input_after := state;
               update := [ Set_relevantResults
                             (map (JS.index results)
                                  (filter (inRange (List.length results)) indices));
                           Set_status Status.analyzing ] |}, w')
    | IndicesNotJSON =>
        (Ok {| input_after := state;
               update := [ Set_relevantResults
                             (map Some (firstn 5 (JS.sort byScore results)));
                           Set_status Status.analyzing ] |}, w')
    | IndicesNotArray =>
        (Ok {| input_after := setSearchResults (JS.sort byScore results) state;
               update := [ Set_relevantResults
                             (map Some (firstn 5 (JS.sort byScore results)));
                           Set_status Status.analyzing ] |}, w')
    end.
Proof.
  intros Hr Hne El w'. unfold filterRelevance. rewrite Hr.
  destruct results as [|hit hits]; [contradiction|].
  unfold try_catch, bind, llm, returns, ret, throw. rewrite El.
  destruct (JSON_parse_indices env (JS.trim response)); try reflexivity.
  now rewrite fallback_by_index.
Qed.

(** When the LLM call of the Filter node fails, the node sorts the
    [searchResults] array of the state it was given, in place. *)
Lemma filterRelevance_unanswered (state : AgentState) (results : list SearchResult)
    (w : World W) (message : string) (c : W) :
  searchResults state = Some results ->
  results <> [] ->
  llm_invoke env (RELEVANCE_FILTER_PROMPT (query state) (resultsText results))
             (collaborators w) = (Throw message, c) ->
  filterRelevance env state w =
    (Ok {| input_after := setSearchResults (JS.sort byScore results) state;
           update := [ Set_relevantResults
                         (map Some (firstn 5 (JS.sort byScore results)));
                       Set_status Status.analyzing ] |},
     {| collaborators := c;
        calls := calls w ++ [LLMCall (RELEVANCE_FILTER_PROMPT
                                        (query state) (resultsText results))] |}).
Proof.
  intros Hr Hne El. unfold filterRelevance. rewrite Hr.
  destruct results as [|hit hits]; [contradiction|].
  unfold try_catch, bind, llm, returns, ret, throw. now rewrite El.
Qed.

(** C6, as the code has it.  On non-empty search results and an LLM reply
    that is not JSON text, or is JSON for something other than an array, the
    Filter node returns as [relevantResults] the top 5 of the search results
    by score, highest first, sets no error and moves the status to
    [analyzing].  On a reply that is an array of numbers it keeps, in the
    order of the reply, exactly the entries within [0, len) and returns
    what the search results hold at each of them; for a list of
    non-negative integers these are the hits at the indices below [len]. *)
Theorem filter_fallback_and_range (state : AgentState) (results : list SearchResult)
    (w : World W) (response : string) (c : W) :
  searchResults state = Some results ->
  results <> [] ->
  llm_invoke env (RELEVANCE_FILTER_PROMPT (query state) (resultsText results))
             (collaborators w) = (Ok response, c) ->
  let reply := JSON_parse_indices env (JS.trim response) in
  exists r w',
    filterRelevance env state w = (Ok r, w')
    /\ (NoArray reply ->
        exists top,
          update r = [Set_relevantResults (map Some top); Set_status Status.analyzing]
          /\ TopByScore 5 results top)
    /\ (forall indices, reply = IndicesArray indices ->
        exists kept,
          update r = [ Set_relevantResults (map (JS.index results) kept);
                       Set_status Status.analyzing ]
          /\ kept = filter (inRange (List.length results)) indices
          /\ (forall idx, In idx kept <->
                In idx indices
                /\ (0 <= idx /\ idx < inject_Z (Z.of_nat (List.length results)))%Q)
          /\ (forall positions : list nat,
                indices = map (fun i => inject_Z (Z.of_nat i)) positions ->
                map (JS.index results) kept
                = map (nth_error results)
                      (filter (fun i => (i <? List.length results)%nat) positions))).
Proof.
  intros Hr Hne El reply.
  pose proof (filterRelevance_answered state w Hr Hne El) as H. cbv zeta in H.
  fold reply in H. rewrite H. clear H.
  destruct reply as [| |indices] eqn:E; eexists _, _; (split; [reflexivity|]).
  - split; [|discriminate]. intros _. eexists. split; [reflexivity|].
    apply top_of_sorted.
  - split; [|discriminate]. intros _. eexists. split; [reflexivity|].
    apply top_of_sorted.
  - split; [intros [?|?]; discriminate|].
    intros indices' Hi. inversion Hi; subst indices'. clear Hi.
    eexists. split; [reflexivity|]. split; [reflexivity|]. split.
    + intro idx. rewrite filter_In, inRange_iff. reflexivity.
    + intros positions ->. clear. induction positions as [|i positions IH];
        [reflexivity|].
      cbn [map filter]. rewrite inRange_nat.
      destruct (i <? List.length results)%nat; cbn [map]; [|assumption].
      now rewrite index_nat, IH.
Qed.

(** *** Analyze *)

Lemma analyzeEach_cons (state : AgentState) (hit : SearchResult)
    (rest : list (option SearchResult)) (acc : list AnalysisStep.t) (w : World W) :
  analyzeEach env state (Some hit :: rest) acc w =
    match llm env (DEEP_ANALYSIS_PROMPT (query state) (content hit)) w with
    | (Ok response, w1) =>
        analyzeEach env state rest
          (acc ++ [ {| AnalysisStep.step := "Analysis of: " ++ title hit;
                       AnalysisStep.findings := JS.trim response;
                       AnalysisStep.confidence := score hit |} ]) w1
    | (Throw message, w1) => (Throw message, w1)
    end.
Proof. reflexivity. Qed.

Lemma analyzeEach_notes (state : AgentState) (hits : list SearchResult) :
  forall (acc : list AnalysisStep.t) (w : World W),
    (exists message w', analyzeEach env state (map Some hits) acc w = (Throw message, w'))
    \/ (exists notes w',
          analyzeEach env state (map Some hits) acc w = (Ok (acc ++ notes)%list, w')
          /\ Forall2 NoteOf hits notes).
Proof.
  induction hits as [|hit hits IH]; intros acc w.
  - right. exists [], w. cbn [map analyzeEach]. unfold ret.
    rewrite app_nil_r. split; [reflexivity | constructor].
  - cbn [map]. rewrite analyzeEach_cons.
    destruct (llm env _ w) as [[response|message] w1] eqn:El.
    + match goal with
      | |- context [ analyzeEach env state (map Some hits) ?acc' w1 ] =>
          destruct (IH acc' w1) as [(message & w' & E)|(notes & w' & E & HF)]
      end.
      * left. eauto.
      * right. eexists (_ :: notes), w'. rewrite E, <- app_assoc.
        split; [reflexivity|]. constructor; [|assumption]. split; reflexivity.
    + left. eauto.
Qed.

Lemma analyzeEach_answers (state : AgentState) (hits : list SearchResult) :
  AnalysisAnswers env ->
  forall (acc : list AnalysisStep.t) (w : World W),
    exists r w', analyzeEach env state (map Some hits) acc w = (Ok r, w').
Proof.
  intro HA. induction hits as [|hit hits IH]; intros acc w.
  - cbn [map analyzeEach]. unfold ret. eauto.
  - cbn [map]. rewrite analyzeEach_cons. unfold llm.
    destruct (HA (query state) (content hit) (collaborators w)) as (response & c & E).
    rewrite E. apply IH.
Qed.

Lemma analyzeEach_outcome (state : AgentState) (hits : list SearchResult) :
  forall (acc : list AnalysisStep.t) (w : World W),
    match firstAnalysisFailure env (query state) hits (collaborators w) with
    | None =>
        exists notes w',
          analyzeEach env state (map Some hits) acc w = (Ok (acc ++ notes)%list, w')
          /\ Forall2 NoteOf hits notes
          /\ calls w' = (calls w ++ analysisCalls (query state) hits)%list
    | Some message =>
        exists w', analyzeEach env state (map Some hits) acc w = (Throw message, w')
    end.
Proof.
  induction hits as [|hit hits IH]; intros acc w; cbn [firstAnalysisFailure].
  - exists [], w. cbn [map analyzeEach analysisCalls]. unfold ret.
    rewrite !app_nil_r. split; [reflexivity|]. split; [constructor | reflexivity].
  - cbn [map]. rewrite analyzeEach_cons. unfold llm.
    destruct (llm_invoke env (DEEP_ANALYSIS_PROMPT (query state) (content hit))
                         (collaborators w)) as [[response|message] c];
      [|eexists; reflexivity].
    match goal with
    | |- context [ analyzeEach env state (map Some hits) ?acc' ?w1 ] =>
        specialize (IH acc' w1); cbn [collaborators calls] in IH
    end.
    destruct (firstAnalysisFailure env (query state) hits c) as [message|].
    + exact IH.
    + destruct IH as (notes & w' & E & HF & C).
      eexists (_ :: notes), w'. rewrite E, <- app_assoc.
      split; [reflexivity|]. split.
      * constructor; [|assumption]. split; reflexivity.
      * rewrite C, <- app_assoc. reflexivity.
Qed.

Lemma analysis_answered (q : string) (hits : list SearchResult) :
  AnalysisAnswers env -> forall c, firstAnalysisFailure env q hits c = None.
Proof.
  intro HA. induction hits as [|hit hits IH]; intro c; cbn [firstAnalysisFailure];
    [reflexivity|].
  destruct (HA q (content hit) c) as (response & c' & E). rewrite E. apply IH.
Qed.

(** C8, as the code has it.  On a non-empty [relevantResults] whose first
    three entries are hits, the Analyze node leaves its input alone and calls
    the LLM for these entries, one after the other.  If every call is
    answered -- as it is whenever the LLM answers the analysis prompts -- the
    node has made one call for each of them and returns exactly min(3, len)
    notes, one for each of the first three hits in their order, each carrying
    its hit's score as confidence; ten relevant results give three notes.  If
    a call fails, the node returns the status [error], the message "Analysis
    failed: " followed by the message of that call, and no notes, whatever
    the calls before it gave. *)
Theorem analyze_first_three (state : AgentState)
    (relevant : list (option SearchResult)) (hits : list SearchResult) (w : World W) :
  relevantResults state = Some relevant ->
  relevant <> [] ->
  firstn 3 relevant = map Some hits ->
  exists r w',
    analyzeResults env state w = (Ok r, w')
    /\ input_after r = state
    /\ match firstAnalysisFailure env (query state) hits (collaborators w) with
       | None =>
           exists notes,
             update r = [Set_analysisSteps notes; Set_status Status.synthesizing]
             /\ List.length notes = Nat.min 3 (List.length relevant)
             /\ Forall2 NoteOf hits notes
             /\ calls w' = (calls w ++ analysisCalls (query state) hits)%list
             /\ (List.length relevant = 10 -> List.length notes = 3)
       | Some message =>
           update r = [ Set_status Status.error;
                        Set_error ("Analysis failed: " ++ message) ]
           /\ lookup key_analysisSteps (update r) = None
       end
    /\ (AnalysisAnswers env ->
        firstAnalysisFailure env (query state) hits (collaborators w) = None).
Proof.
  intros Hr Hne Hf. unfold analyzeResults. rewrite Hr.
  destruct relevant as [|entry relevant']; [contradiction|].
  cbv iota. rewrite Hf. unfold try_catch, bind at 1.
  pose proof (analyzeEach_outcome state hits [] w) as H.
  assert (Hl : List.length hits = Nat.min 3 (List.length (entry :: relevant'))).
  { rewrite <- (length_map Some hits), <- Hf. apply length_firstn. }
  destruct (firstAnalysisFailure env (query state) hits (collaborators w))
    as [message|] eqn:Ef.
  - destruct H as (w' & E). rewrite E.
    eexists _, _. split; [reflexivity|]. split; [reflexivity|].
    split; [split; reflexivity|].
    intro HA. rewrite (analysis_answered (query state) hits HA) in Ef. discriminate.
  - destruct H as (notes & w' & E & HF & C). rewrite E.
    eexists _, _. split; [reflexivity|]. split; [reflexivity|].
    split; [|reflexivity].
    exists notes. cbn [app]. split; [reflexivity|].
    assert (Hn : List.length notes = Nat.min 3 (List.length (entry :: relevant'))).
    { rewrite <- (Forall2_length HF). exact Hl. }
    split; [exact Hn|]. split; [exact HF|]. split; [exact C|].
    intro H10. rewrite Hn, H10. reflexivity.
Qed.

End NodeProperties.

(* ================================================================= *)
(** ** Concrete runs *)

(** The run in which the third search succeeds takes nine node executions,
    more than seven. *)
Lemma nine_executions_when_third_search_succeeds :
  map node (Mock.chunksOf Mock.lateGuide Mock.question)
    = [ Node.query_parser; Node.search; Node.query_parser; Node.search;
        Node.query_parser; Node.search;
        Node.relevance_filter; Node.deep_analysis; Node.synthesis ]
  /\ ~ List.length (Mock.chunksOf Mock.lateGuide Mock.question) <= 7.
Proof.
  split; [vm_compute; reflexivity|].
  assert (E : List.length (Mock.chunksOf Mock.lateGuide Mock.question) = 9)
    by (vm_compute; reflexivity).
  rewrite E. lia.
Qed.

(** With the counter at 2 and nothing found, the message of the Search node
    is not "insufficient search results". *)
Lemma search_gives_up_with_another_message :
  exists hits w' r,
    executeSearch Mock.starved
      (JS.orString (enhancedQuery (Mock.stateAt Mock.starved Mock.question 5))
                   (query (Mock.stateAt Mock.starved Mock.question 5)))
      (Mock.worldAt Mock.starved Mock.question 5) = (Ok hits, w')
    /\ validateSearchResults hits = false
    /\ (2 <= searchAttempts (Mock.stateAt Mock.starved Mock.question 5))%Z
    /\ search Mock.starved (Mock.stateAt Mock.starved Mock.question 5)
              (Mock.worldAt Mock.starved Mock.question 5) = (Ok r, w')
    /\ lookup key_status (update r) = Some Status.error
    /\ lookup key_error (update r) = Some "Could not find sufficient search results"
    /\ lookup key_error (update r) <> Some "insufficient search results".
Proof.
  eexists _, _, _. split; [vm_compute; reflexivity|].
  split; [reflexivity|]. split; [vm_compute; discriminate|].
  split; [vm_compute; reflexivity|]. split; [reflexivity|].
  split; [reflexivity|]. discriminate.
Qed.

(** The starved run at its third search: the counter is at 2, nothing is
    found, and the Search node gives up. *)
Lemma search_gives_up_witness :
  (2 <= searchAttempts (Mock.stateAt Mock.starved Mock.question 5))%Z
  /\ status (merge (Mock.stateAt Mock.starved Mock.question 5)
                   [ Set_status Status.error;
                     Set_error "Could not find sufficient search results" ])
     = Status.error.
Proof.
  split; [vm_compute; discriminate|].
  refine (proj1 (proj2
    (@search_gives_up nat Mock.starved
       (Mock.stateAt Mock.starved Mock.question 5)
       (Mock.worldAt Mock.starved Mock.question 5)
       (snd (executeSearch Mock.starved
               (JS.orString (enhancedQuery (Mock.stateAt Mock.starved Mock.question 5))
                            (query (Mock.stateAt Mock.starved Mock.question 5)))
               (Mock.worldAt Mock.starved Mock.question 5)))
       [] _ _ _))).
  - vm_compute. reflexivity.
  - reflexivity.
  - vm_compute. discriminate.
Defined.

(** A search double that never finds anything, with an LLM that answers:
    the hypotheses of the retry bound hold of it. *)
Lemma search_attempts_bounded_witness :
  Reachable Mock.starved Mock.question Mock.start (goto Node.query_parser)
    (merge channelDefaults (initialState Mock.question)) Mock.start
  /\ (0 <= searchAttempts (merge channelDefaults (initialState Mock.question)) <= 2)%Z
  /\ AlwaysInsufficient Mock.starved
  /\ RefineAnswers Mock.starved
  /\ ExhaustsRetries Mock.starved.
Proof.
  assert (H0 : Reachable Mock.starved Mock.question Mock.start (goto Node.query_parser)
                 (merge channelDefaults (initialState Mock.question)) Mock.start)
    by apply reach_start.
  assert (HI : AlwaysInsufficient Mock.starved).
  { intros q w. eexists _, _. split; reflexivity. }
  assert (HR : RefineAnswers Mock.starved).
  { intros q c. eexists _, _. reflexivity. }
  split; [exact H0|].
  split; [exact (proj1 (search_attempts_bounded Mock.starved) _ _ _ _ _ H0)|].
  split; [exact HI|]. split; [exact HR|].
  exact (proj2 (proj2 (search_attempts_bounded Mock.starved) HI) HR).
Defined.

(** The range check lets a number through that is no index.  The reply
    [[1.5]] is an array, so no fallback is taken; 1.5 lies within [0, 2), so
    it is kept; and the search results hold nothing at 1.5. *)
Lemma filter_keeps_fractional_reply :
  llm_invoke Mock.fractional
    (RELEVANCE_FILTER_PROMPT (query (Mock.stateAt Mock.fractional Mock.question 2))
                             (resultsText (Mock.hitsAt Mock.fractional Mock.question 2)))
    (collaborators (Mock.worldAt Mock.fractional Mock.question 2))
    = (Ok "[1.5]", collaborators (Mock.worldAt Mock.fractional Mock.question 2))
  /\ ~ ParsesAsIndexList (JSON_parse_indices Mock.fractional (JS.trim "[1.5]"))
  /\ searchResults (Mock.stateAt Mock.fractional Mock.question 2)
     = Some (Mock.hitsAt Mock.fractional Mock.question 2)
  /\ List.length (Mock.hitsAt Mock.fractional Mock.question 2) = 2
  /\ exists r w',
       filterRelevance Mock.fractional (Mock.stateAt Mock.fractional Mock.question 2)
                       (Mock.worldAt Mock.fractional Mock.question 2) = (Ok r, w')
       /\ update r = [Set_relevantResults [None]; Set_status Status.analyzing]
       /\ forall top,
            TopByScore 5 (Mock.hitsAt Mock.fractional Mock.question 2) top ->
            lookup key_relevantResults (update r) <> Some (map Some top).
Proof.
  split; [vm_compute; reflexivity|].
  split.
  { intros (indices & E & HF). vm_compute in E. inversion E; subst indices.
    inversion HF as [|? ? [z Hz] _]; subst.
    unfold Qeq, inject_Z in Hz. cbn [Qnum Qden] in Hz. lia. }
  split; [vm_compute; reflexivity|]. split; [vm_compute; reflexivity|].
  eexists _, _. split; [vm_compute; reflexivity|]. split; [reflexivity|].
  intros top (_ & Hlen & _) Heq.
  replace (List.length (Mock.hitsAt Mock.fractional Mock.question 2)) with 2 in Hlen
    by (vm_compute; reflexivity).
  cbn in Heq. inversion Heq as [Hm].
  destruct top as [|a [|b top]]; cbn in Hlen, Hm; try discriminate.
Qed.

(** The reply [[2.5]] is an array, so no fallback is taken; 2.5 lies outside
    [0, 2), so it is discarded and nothing is left: the node returns no
    relevant result where the top five by score were expected, and the run
    ends at the Analyze node, which has nothing to analyze. *)
Lemma filter_takes_no_fallback_on_an_array :
  llm_invoke Scenario.beyondRange
    (RELEVANCE_FILTER_PROMPT (query (Mock.stateAt Scenario.beyondRange Mock.question 2))
                             (resultsText (Mock.hitsAt Scenario.beyondRange Mock.question 2)))
    (collaborators (Mock.worldAt Scenario.beyondRange Mock.question 2))
    = (Ok "[2.5]", collaborators (Mock.worldAt Scenario.beyondRange Mock.question 2))
  /\ ~ ParsesAsIndexList (JSON_parse_indices Scenario.beyondRange (JS.trim "[2.5]"))
  /\ searchResults (Mock.stateAt Scenario.beyondRange Mock.question 2)
     = Some (Mock.hitsAt Scenario.beyondRange Mock.question 2)
  /\ List.length (Mock.hitsAt Scenario.beyondRange Mock.question 2) = 2
  /\ (exists r w',
        filterRelevance Scenario.beyondRange
          (Mock.stateAt Scenario.beyondRange Mock.question 2)
          (Mock.worldAt Scenario.beyondRange Mock.question 2) = (Ok r, w')
        /\ update r = [Set_relevantResults []; Set_status Status.analyzing]
        /\ forall top,
             TopByScore 5 (Mock.hitsAt Scenario.beyondRange Mock.question 2) top ->
             lookup key_relevantResults (update r) <> Some (map Some top))
  /\ exists final w',
       invoke (buildResearchGraph Scenario.beyondRange) (initialState Mock.question)
              Mock.start = (Ok final, w')
       /\ status final = Status.error
       /\ error final = Some "No relevant results to analyze".
Proof.
  split; [vm_compute; reflexivity|].
  split.
  { intros (indices & E & HF). vm_compute in E. inversion E; subst indices.
    inversion HF as [|? ? [z Hz] _]; subst.
    unfold Qeq, inject_Z in Hz. cbn [Qnum Qden] in Hz. lia. }
  split; [vm_compute; reflexivity|]. split; [vm_compute; reflexivity|]. split.
  - eexists _, _. split; [vm_compute; reflexivity|]. split; [reflexivity|].
    intros top (_ & Hlen & _) Heq.
    replace (List.length (Mock.hitsAt Scenario.beyondRange Mock.question 2)) with 2
      in Hlen by (vm_compute; reflexivity).
    cbn in Heq. inversion Heq as [Hm].
    destruct top as [|a top]; cbn in Hlen, Hm; discriminate.
  - eexists _, _. split; [vm_compute; reflexivity|]. split; reflexivity.
Qed.

(** A reply that is no JSON at all: the hypotheses of the fallback hold. *)
Lemma filter_fallback_and_range_witness :
  NoArray (JSON_parse_indices Mock.speechless (JS.trim "I cannot rank these."))
  /\ exists r w' top,
       filterRelevance Mock.speechless (Mock.stateAt Mock.speechless Mock.question 2)
                       (Mock.worldAt Mock.speechless Mock.question 2) = (Ok r, w')
       /\ update r = [Set_relevantResults (map Some top); Set_status Status.analyzing]
       /\ TopByScore 5 (Mock.hitsAt Mock.speechless Mock.question 2) top.
Proof.
  assert (HN : NoArray (JSON_parse_indices Mock.speechless
                                           (JS.trim "I cannot rank these.")))
    by (left; vm_compute; reflexivity).
  split; [exact HN|].
  destruct (@filter_fallback_and_range nat Mock.speechless
              (Mock.stateAt Mock.speechless Mock.question 2)
              (Mock.hitsAt Mock.speechless Mock.question 2)
              (Mock.worldAt Mock.speechless Mock.question 2)
              "I cannot rank these."
              (collaborators (Mock.worldAt Mock.speechless Mock.question 2)))
    as (r & w' & E & Hfall & _).
  - vm_compute. reflexivity.
  - vm_compute. discriminate.
  - vm_compute. reflexivity.
  - destruct (Hfall HN) as (top & Hu & Htop).
    exists r, w', top. split; [exact E|]. split; [exact Hu | exact Htop].
Defined.

(** Ten relevant results at the Analyze node.  With an LLM that answers,
    three notes, for the first three in their order; with an LLM that fails
    at the second, the error and no notes, the first note being dropped. *)
Lemma analyze_first_three_witness :
  relevantResults Scenario.tenRelevant = Some (map Some Scenario.tenHits)
  /\ List.length Scenario.tenHits = 10
  /\ (exists r w' notes,
        analyzeResults Mock.happy Scenario.tenRelevant
          (Mock.worldAt Mock.happy Mock.question 3) = (Ok r, w')
        /\ update r = [Set_analysisSteps notes; Set_status Status.synthesizing]
        /\ List.length notes = 3
        /\ Forall2 NoteOf (firstn 3 Scenario.tenHits) notes
        /\ map AnalysisStep.confidence notes = [Qmake 1 10; Qmake 2 10; Qmake 3 10])
  /\ (exists r w',
        analyzeResults Scenario.secondAnalysisDown Scenario.tenRelevant
          (Mock.worldAt Mock.happy Mock.question 3) = (Ok r, w')
        /\ update r = [ Set_status Status.error;
                        Set_error "Analysis failed: 429 quota exceeded" ]
        /\ lookup key_analysisSteps (update r) = None).
Proof.
  assert (H1 : relevantResults Scenario.tenRelevant = Some (map Some Scenario.tenHits))
    by (vm_compute; reflexivity).
  assert (H2 : map Some Scenario.tenHits <> []) by (vm_compute; discriminate).
  assert (H3 : firstn 3 (map Some Scenario.tenHits)
               = map Some (firstn 3 Scenario.tenHits)) by (vm_compute; reflexivity).
  assert (H10 : List.length (map Some Scenario.tenHits) = 10) by (vm_compute; reflexivity).
  split; [exact H1|]. split; [vm_compute; reflexivity|]. split.
  - destruct (@analyze_first_three nat Mock.happy Scenario.tenRelevant
                (map Some Scenario.tenHits) (firstn 3 Scenario.tenHits)
                (Mock.worldAt Mock.happy Mock.question 3) H1 H2 H3)
      as (r & w' & E & _ & H & _).
    assert (Ef : firstAnalysisFailure Mock.happy (query Scenario.tenRelevant)
                   (firstn 3 Scenario.tenHits)
                   (collaborators (Mock.worldAt Mock.happy Mock.question 3)) = None)
      by (vm_compute; reflexivity).
    rewrite Ef in H. destruct H as (notes & Hu & _ & HF & _ & Hten).
    exists r, w', notes. split; [exact E|]. split; [exact Hu|].
    split; [exact (Hten H10)|]. split; [exact HF|].
    destruct notes as [|n1 [|n2 [|n3 [|n4 notes]]]];
      try (apply Forall2_length in HF; vm_compute in HF; discriminate).
    inversion HF as [|? ? ? ? [_ C1] HF1]; subst.
    inversion HF1 as [|? ? ? ? [_ C2] HF2]; subst.
    inversion HF2 as [|? ? ? ? [_ C3] _]; subst.
    cbn [map]. rewrite C1, C2, C3. vm_compute. reflexivity.
  - destruct (@analyze_first_three nat Scenario.secondAnalysisDown Scenario.tenRelevant
                (map Some Scenario.tenHits) (firstn 3 Scenario.tenHits)
                (Mock.worldAt Mock.happy Mock.question 3) H1 H2 H3)
      as (r & w' & E & _ & H & _).
    assert (Ef : firstAnalysisFailure Scenario.secondAnalysisDown
                   (query Scenario.tenRelevant) (firstn 3 Scenario.tenHits)
                   (collaborators (Mock.worldAt Mock.happy Mock.question 3))
                 = Some "429 quota exceeded")
      by (vm_compute; reflexivity).
    rewrite Ef in H. destruct H as (Hu & Hn).
    exists r, w'. split; [exact E|]. split; [exact Hu | exact Hn].
Defined.

(** With the LLM down for the analysis, one relevant hit gives no note. *)
Lemma no_notes_when_analysis_fails :
  relevantResults (Mock.stateAt Mock.analysisOutage Mock.question 3)
    = Some (map Some (Mock.hitsAt Mock.analysisOutage Mock.question 3))
  /\ List.length (Mock.hitsAt Mock.analysisOutage Mock.question 3) = 1
  /\ exists r w',
       analyzeResults Mock.analysisOutage
         (Mock.stateAt Mock.analysisOutage Mock.question 3)
         (Mock.worldAt Mock.analysisOutage Mock.question 3) = (Ok r, w')
       /\ lookup key_analysisSteps (update r) = None
       /\ lookup key_status (update r) = Some Status.error
       /\ ~ AnalysisOf (Mock.hitsAt Mock.analysisOutage Mock.question 3) (update r).
Proof.
  split; [vm_compute; reflexivity|]. split; [vm_compute; reflexivity|].
  eexists _, _. split; [vm_compute; reflexivity|].
  split; [reflexivity|]. split; [reflexivity|].
  intros (notes & Hu & _). discriminate Hu.
Qed.

(** With the LLM down, a search that never finds anything is never asked:
    the run ends in error with no search made and the counter at 0. *)
Lemma no_search_when_refine_fails :
  AlwaysInsufficient Mock.llmOutage
  /\ (exists final chunks w',
        stream (buildResearchGraph Mock.llmOutage) (initialState Mock.question) Mock.start
          = ((Ok tt, chunks), w')
        /\ invoke (buildResearchGraph Mock.llmOutage) (initialState Mock.question) Mock.start
           = (Ok final, w')
        /\ status final = Status.error
        /\ searchAttempts final = 0%Z
        /\ executions Node.search chunks = 0)
  /\ ~ ExhaustsRetries Mock.llmOutage.
Proof.
  split; [intros q w; eexists _, _; split; reflexivity|].
  split.
  - eexists _, _, _. split; [vm_compute; reflexivity|].
    split; [vm_compute; reflexivity|]. repeat split.
  - intro H. destruct (H Mock.question Mock.start)
      as (final & chunks & w' & Es & _ & _ & _ & Hx).
    vm_compute in Es. inversion Es; subst. vm_compute in Hx. discriminate.
Qed.

(** The starved run at its first search: the node loops back with the
    suffixed query, and the Refine that follows replaces it. *)
Lemma retry_suffix_never_searched_witness :
  validateSearchResults [] = false
  /\ (searchAttempts (Mock.stateAt Mock.starved Mock.question 1) < 2)%Z
  /\ enhancedQuery (Mock.stateAt Mock.starved Mock.question 2)
     = Some ("Spring Boot 2 to 3 migration guide" ++ retrySuffix)
  /\ enhancedQuery (Mock.stateAt Mock.starved Mock.question 3)
     = Some "Spring Boot 2 to 3 migration guide".
Proof.
  split; [reflexivity|]. split; [vm_compute; reflexivity|].
  pose proof (@retry_suffix_never_searched nat Mock.starved
                (Mock.stateAt Mock.starved Mock.question 1)
                (Mock.worldAt Mock.starved Mock.question 1)
                (Mock.worldAt Mock.starved Mock.question 2) [])
    as H.
  cbv zeta in H.
  destruct H as (_ & Hsuffixed & _ & _ & _).
  - vm_compute. reflexivity.
  - reflexivity.
  - vm_compute. reflexivity.
  - split; [|vm_compute; reflexivity].
    assert (E : Mock.stateAt Mock.starved Mock.question 2
                = merge (Mock.stateAt Mock.starved Mock.question 1)
                    [ Set_searchAttempts
                        (searchAttempts (Mock.stateAt Mock.starved Mock.question 1) + 1);
                      Set_status Status.parsing_query;
                      Set_enhancedQuery
                        (JS.orString
                           (enhancedQuery (Mock.stateAt Mock.starved Mock.question 1))
                           (query (Mock.stateAt Mock.starved Mock.question 1))
                         ++ retrySuffix) ])
      by (vm_compute; reflexivity).
    rewrite E, Hsuffixed. vm_compute. reflexivity.
Defined.

(** The three searches of the starved run are all made with the answer of
    the LLM, the suffix nowhere. *)
Example retries_search_the_same_query :
  Mock.searched (Mock.worldAt Mock.starved Mock.question 6)
  = [ "Spring Boot 2 to 3 migration guide";
      "Spring Boot 2 to 3 migration guide";
      "Spring Boot 2 to 3 migration guide" ].
Proof. vm_compute. reflexivity. Qed.

(** When the LLM fails at the Refine that follows a retry, the run ends
    there: the suffixed query stays in the state, and no search is made
    with it. *)
Example refine_failure_after_retry :
  map node (Mock.chunksOf Mock.outageAfterRetry Mock.question)
    = [Node.query_parser; Node.search; Node.query_parser]
  /\ status (Mock.stateAt Mock.outageAfterRetry Mock.question 3) = Status.error
  /\ enhancedQuery (Mock.stateAt Mock.outageAfterRetry Mock.question 3)
     = Some ("Spring Boot 2 to 3 migration guide" ++ retrySuffix)
  /\ Mock.searched (Mock.worldAt Mock.outageAfterRetry Mock.question 3)
     = ["Spring Boot 2 to 3 migration guide"].
Proof. repeat split; vm_compute; reflexivity. Qed.

(** Of the reply [[2, 0, -1]] on two search results only the index 0
    survives: the Filter node returns the first hit. *)
Example filter_discards_out_of_range :
  option_map (map (option_map title))
             (relevantResults (Mock.stateAt Mock.outOfRange Mock.question 3))
  = Some [Some "Blog"].
Proof. vm_compute. reflexivity. Qed.

(** The happy run stops in a state with the status [complete] and a
    report. *)
Lemma report_iff_complete_witness :
  exists final w',
    Reachable Mock.happy Mock.question Mock.start END final w'
    /\ status final = Status.complete
    /\ findings final <> None.
Proof.
  destruct (report_iff_complete Mock.happy Mock.question Mock.start)
    as [Hall (final & w' & Ei & HR)].
  exists final, w'. split; [exact HR|].
  assert (Hs : status final = Status.complete)
    by (vm_compute in Ei; inversion Ei; reflexivity).
  split; [exact Hs|]. exact (proj1 (Hall final w' HR) Hs).
Defined.

(** C2, on the code.  In a run where the LLM fails at the relevance filter,
    the Filter node is handed the search results in the order the search
    returned them, blog first, and leaves the state it was handed with the
    guide first: it has sorted the array of its input in place.  The final
    state of the run keeps that order. *)
Theorem filter_failure_sorts_state_in_place :
  map title (Mock.hitsAt Mock.filterOutage Mock.question 2) = ["Blog"; "Migration Guide"]
  /\ exists r w' final w'',
       filterRelevance Mock.filterOutage
         (Mock.stateAt Mock.filterOutage Mock.question 2)
         (Mock.worldAt Mock.filterOutage Mock.question 2) = (Ok r, w')
       /\ option_map (map title) (searchResults (input_after r))
          = Some ["Migration Guide"; "Blog"]
       /\ searchResults (input_after r)
          <> searchResults (Mock.stateAt Mock.filterOutage Mock.question 2)
       /\ invoke (buildResearchGraph Mock.filterOutage) (initialState Mock.question) Mock.start
          = (Ok final, w'')
       /\ option_map (map title) (searchResults final)
          = Some ["Migration Guide"; "Blog"].
Proof.
  split; [vm_compute; reflexivity|].
  eexists _, _, _, _. split; [vm_compute; reflexivity|].
  split; [vm_compute; reflexivity|]. split; [vm_compute; discriminate|].
  split; vm_compute; reflexivity.
Qed.

(** C1, on the code.  On the happy run the blocking entry point returns the
    final state, with the query and everything gathered on the way; the
    streaming entry point returns the object the last node returned, which
    has the report and the status and nothing else; and [onUpdate] is called
    once per chunk with the object that node returned, never with a state:
    none of its arguments has a [query]. *)
Theorem streaming_returns_last_update :
  exists final obj seen w',
    executeResearch Mock.happy Mock.question Mock.start = (Ok final, w')
    /\ executeResearchStreaming Mock.happy Mock.record Mock.question [] Mock.start
       = ((Ok obj, seen), w')
    /\ view_query (viewOfState final) = Some Mock.question
    /\ view_query (viewOfObject obj) = None
    /\ view_searchResults (viewOfState final) <> None
    /\ view_searchResults (viewOfObject obj) = None
    /\ viewOfState final <> viewOfObject obj
    /\ view_findings (viewOfObject obj) = view_findings (viewOfState final)
    /\ seen = map values (Mock.chunksOf Mock.happy Mock.question)
    /\ List.length seen = 5
    /\ Forall (fun values => view_query (viewOfObject values) = None) seen.
Proof.
  eexists _, _, _, _. split; [vm_compute; reflexivity|].
  split; [vm_compute; reflexivity|].
  split; [reflexivity|]. split; [reflexivity|].
  split; [vm_compute; discriminate|]. split; [reflexivity|].
  split; [intro H; apply (f_equal view_query) in H; vm_compute in H; discriminate|].
  split; [vm_compute; reflexivity|]. split; [vm_compute; reflexivity|].
  split; [reflexivity|]. repeat constructor.
Qed.

(* ================================================================= *)
(** * Further properties of the code *)

Section P.
Variable W : Type.
Variable env : Env W.

Lemma coerce_runs (i : nat) (raw : RawResult) (w : World W) :
  exists hit w',
    coerce env i (Some raw) w = (Ok hit, w') /\ calls w' = calls w /\ Coerced i raw hit.
Proof.
  unfold coerce, bind, now, ret.
  destruct (Date_now env (collaborators w)) as [t c].
  eexists _, _. split; [reflexivity|]. split; [reflexivity|].
  repeat split. discriminate.
Qed.

Lemma records_Some (results : list (option RawResult)) :
  forall raws, records results = Some raws -> results = map Some raws.
Proof.
  induction results as [|[raw|] results IH]; intros raws H; cbn [records] in H.
  - now inversion H.
  - destruct (records results) as [raws'|]; [|discriminate].
    inversion H; subst. cbn [map]. now rewrite (IH raws' eq_refl).
  - discriminate.
Qed.

Lemma records_map_Some (raws : list RawResult) : records (map Some raws) = Some raws.
Proof. induction raws as [|raw raws IH]; [reflexivity|]. cbn. now rewrite IH. Qed.

(** [results.map] on a reply: it coerces the records one after the other,
    and throws at the first [null]. *)
Lemma mapM_coerce (results : list (option RawResult)) :
  forall (start : nat) (w : World W),
    match records results with
    | Some raws =>
        exists hits w',
          mapM (fun ir => coerce env (fst ir) (snd ir))
               (combine (seq start (List.length results)) results) w = (Ok hits, w')
          /\ calls w' = calls w
          /\ Forall2 (fun ir hit => Coerced (fst ir) (snd ir) hit)
                     (combine (seq start (List.length raws)) raws) hits
    | None =>
        exists w',
          mapM (fun ir => coerce env (fst ir) (snd ir))
               (combine (seq start (List.length results)) results) w
          = (Throw (JS.TypeError_null "title"), w')
          /\ calls w' = calls w
    end.
Proof.
  induction results as [|[raw|] results IH]; intros start w; cbn [records].
  - exists [], w. repeat split. constructor.
  - destruct (coerce_runs start raw w) as (hit & w1 & E1 & C1 & H1).
    specialize (IH (S start) w1).
    destruct (records results) as [raws|]; cbn [option_map];
      cbn [List.length seq combine mapM]; unfold bind at 1;
      cbn [fst snd]; rewrite E1; unfold bind at 1.
    + destruct IH as (hits & w2 & E2 & C2 & H2). rewrite E2.
      exists (hit :: hits), w2. split; [reflexivity|].
      split; [congruence|]. now constructor.
    + destruct IH as (w2 & E2 & C2). rewrite E2.
      exists w2. split; [reflexivity | congruence].
  - cbn [List.length seq combine mapM]. unfold bind at 1. cbn [fst snd coerce].
    unfold throw. exists w. split; reflexivity.
Qed.

(** [executeSearch], by what the search tool does. *)
Lemma executeSearch_cases (query : string) (w : World W) :
  match searchTool_invoke env query (collaborators w) with
  | (Throw message, c) =>
      executeSearch env query w
      = (Throw ("Search failed: " ++ message),
         {| collaborators := c; calls := calls w ++ [SearchCall query] |})
  | (Ok reply, c) =>
      match JSON_parse_results env reply with
      | ResultsNotJSON =>
          executeSearch env query w
          = (Throw "Search failed: Invalid search results format",
             {| collaborators := c; calls := calls w ++ [SearchCall query] |})
      | ResultsNull =>
          executeSearch env query w
          = (Throw ("Search failed: " ++ JS.TypeError_null "map"),
             {| collaborators := c; calls := calls w ++ [SearchCall query] |})
      | ResultsNotArray =>
          executeSearch env query w
          = (Throw ("Search failed: " ++ JS.TypeError_not_a_function "results.map"),
             {| collaborators := c; calls := calls w ++ [SearchCall query] |})
      | ResultsArray results =>
          match records results with
          | Some raw =>
              exists coerced w',
                executeSearch env query w
                = (Ok (filter (fun hit => (50 <? String.length (content hit))%nat)
                              coerced), w')
                /\ calls w' = (calls w ++ [SearchCall query])%list
                /\ Forall2 (fun ir hit => Coerced (fst ir) (snd ir) hit)
                           (combine (seq 0 (List.length raw)) raw) coerced
          | None =>
              exists w',
                executeSearch env query w
                = (Throw ("Search failed: " ++ JS.TypeError_null "title"), w')
                /\ calls w' = (calls w ++ [SearchCall query])%list
          end
      end
  end.
Proof.
  unfold executeSearch, try_catch, bind, searchTool, throw, ret.
  destruct (searchTool_invoke env query (collaborators w)) as [[reply|message] c];
    [|reflexivity].
  destruct (JSON_parse_results env reply) as [| | |results]; try reflexivity.
  match goal with
  | |- context [ mapM ?f (combine (seq 0 _) results) ?w1 ] =>
      pose proof (mapM_coerce results 0 w1) as H
  end.
  destruct (records results) as [raw|].
  - destruct H as (coerced & w2 & E & C & H).
    rewrite E. exists coerced, w2. split; [reflexivity|]. split; [exact C | exact H].
  - destruct H as (w2 & E & C). rewrite E. exists w2. split; [reflexivity | exact C].
Qed.


Lemma orString_nonempty (a : option string) (b : string) :
  b <> "" -> JS.orString a b <> "".
Proof. intro Hb. destruct a as [[|c s]|]; cbn; try assumption; discriminate. Qed.

Lemma orNumber_nonzero (a : option Q) (b : Q) :
  ~ (b == 0)%Q -> ~ (JS.orNumber a b == 0)%Q.
Proof.
  intro Hb. unfold JS.orNumber. destruct a as [n|]; [|assumption].
  destruct (Qeq_bool n 0) eqn:E; [assumption|].
  intro H. apply Qeq_bool_iff in H. congruence.
Qed.

Lemma Coerced_usable (i : nat) (raw : RawResult) (hit : SearchResult) :
  Coerced i raw hit ->
  (50 <? String.length (content hit))%nat = true ->
  Usable hit.
Proof.
  intros (Ht & _ & _ & Hs & Hts) Hc. repeat split.
  - now apply Nat.ltb_lt.
  - rewrite Ht. apply orString_nonempty. discriminate.
  - rewrite Hs. apply orNumber_nonzero. intro H. discriminate H.
  - assumption.
Qed.

Lemma Forall2_In_r {A B} (R : A -> B -> Prop) (l : list A) (l' : list B) (y : B) :
  Forall2 R l l' -> In y l' -> exists x, In x l /\ R x y.
Proof.
  induction 1 as [|x y' l l' HR _ IH]; intro Hin; [contradiction|].
  destruct Hin as [->|Hin].
  - exists x. split; [now left | assumption].
  - destruct (IH Hin) as (x' & Hx & HR'). exists x'. split; [now right | assumption].
Qed.

(** X1.  When [executeSearch] returns, it has called the search tool exactly
    once, with the query it was given, and the reply parsed as an array with
    no [null] in it.  Every record of the array is coerced field by field: a missing or empty
    title becomes "Result i+1", a missing or empty URL the empty string, the
    content falls back on the snippet and then on the empty string, a missing
    or zero score becomes 0.5, and a timestamp is added.  What is returned
    are the coerced records with more than 50 characters of content, in the
    order of the reply; so there are no more hits than records, and every hit
    has a title, a score other than 0 and a timestamp. *)
Theorem executeSearch_returns (query : string) (w w' : World W)
    (hits : list SearchResult) :
  executeSearch env query w = (Ok hits, w') ->
  calls w' = (calls w ++ [SearchCall query])%list
  /\ (exists reply c raw coerced,
        searchTool_invoke env query (collaborators w) = (Ok reply, c)
        /\ JSON_parse_results env reply = ResultsArray (map Some raw)
        /\ Forall2 (fun ir hit => Coerced (fst ir) (snd ir) hit)
                   (combine (seq 0 (List.length raw)) raw) coerced
        /\ hits = filter (fun hit => (50 <? String.length (content hit))%nat) coerced
        /\ List.length hits <= List.length raw)
  /\ Forall Usable hits.
Proof.
  intro E. pose proof (executeSearch_cases query w) as H.
  destruct (searchTool_invoke env query (collaborators w)) as [[reply|message] c];
    [|congruence].
  destruct (JSON_parse_results env reply) as [| | |results] eqn:Ep; try congruence.
  destruct (records results) as [raw|] eqn:Er;
    [|destruct H as (w1 & E1 & _); congruence].
  apply records_Some in Er. subst results.
  destruct H as (coerced & w1 & E1 & C1 & F).
  rewrite E in E1. inversion E1; subst. clear E1.
  split; [assumption|]. split.
  - exists reply, c, raw, coerced. repeat split; try assumption.
    assert (Hl : List.length (combine (seq 0 (List.length raw)) raw) = List.length raw)
      by (rewrite length_combine, length_seq; apply Nat.min_id).
    rewrite <- Hl, (Forall2_length F). apply filter_length_le.
  - apply Forall_forall. intros hit Hin. apply filter_In in Hin as [Hin Hc].
    destruct (Forall2_In_r hit F Hin) as ([i raw'] & _ & HC).
    eapply Coerced_usable; eassumption.
Qed.

Lemma executeSearch_throws (query : string) (w w' : World W) (message : string) :
  executeSearch env query w = (Throw message, w') ->
  exists cause, message = "Search failed: " ++ cause.
Proof.
  intro E. pose proof (executeSearch_cases query w) as H.
  destruct (searchTool_invoke env query (collaborators w)) as [[reply|m] c].
  - destruct (JSON_parse_results env reply) as [| | |results];
      try (rewrite E in H; inversion H; eexists; reflexivity).
    destruct (records results) as [raw|].
    + destruct H as (coerced & w1 & E1 & _). congruence.
    + destruct H as (w1 & E1 & _). rewrite E in E1. inversion E1. eexists. reflexivity.
  - rewrite E in H. inversion H. eexists. reflexivity.
Qed.

Lemma executeSearch_calls (query : string) (w : World W) :
  exists r w', executeSearch env query w = (r, w')
               /\ calls w' = (calls w ++ [SearchCall query])%list.
Proof.
  pose proof (executeSearch_cases query w) as H.
  destruct (searchTool_invoke env query (collaborators w)) as [[reply|m] c].
  - destruct (JSON_parse_results env reply) as [| | |results];
      try (eexists _, _; split; [exact H | reflexivity]).
    destruct (records results) as [raw|].
    + destruct H as (coerced & w1 & E1 & C1 & _). eauto.
    + destruct H as (w1 & E1 & C1). eauto.
  - eexists _, _; split; [exact H | reflexivity].
Qed.


(** *** What each node does, in full *)

Lemma search_outcome (state : AgentState) (w : World W) :
  let q := JS.orString (enhancedQuery state) (query state) in
  exists r w',
    search env state w = (Ok r, w')
    /\ input_after r = state
    /\ calls w' = (calls w ++ [SearchCall q])%list
    /\ ((exists hits,
           validateSearchResults hits = true
           /\ update r = [Set_searchResults hits; Set_status Status.filtering_results])
        \/ ((searchAttempts state < 2)%Z
            /\ update r = [ Set_searchAttempts (searchAttempts state + 1);
                            Set_status Status.parsing_query;
                            Set_enhancedQuery (q ++ retrySuffix) ])
        \/ ((2 <= searchAttempts state)%Z
            /\ update r = [ Set_status Status.error;
                            Set_error "Could not find sufficient search results" ])
        \/ (exists cause,
              update r = [ Set_status Status.error;
                           Set_error ("Search failed: Search failed: " ++ cause) ])).
Proof.
  intro q. pose proof (search_cases env state w) as H. cbv zeta in H. fold q in H.
  destruct (executeSearch_calls q w) as (o & w' & E & C). rewrite E in H.
  destruct o as [hits|message]; rewrite H; eexists _, _;
    (split; [reflexivity|]); (split; [reflexivity|]); (split; [exact C|]);
    cbn [update].
  - destruct (validateSearchResults hits) eqn:Hv.
    + left. exists hits. split; [assumption | reflexivity].
    + destruct (searchAttempts state <? 2)%Z eqn:Ha.
      * right. left. split; [now apply Z.ltb_lt | reflexivity].
      * right. right. left. split; [now apply Z.ltb_ge | reflexivity].
  - right. right. right. destruct (executeSearch_throws _ _ E) as (cause & ->).
    exists cause. reflexivity.
Qed.

Lemma index_In {A} (arr : list A) (idx : Q) (x : A) :
  JS.index arr idx = Some x -> In x arr.
Proof.
  unfold JS.index. destruct (_ && _)%bool; [|discriminate]. apply nth_error_In.
Qed.

Lemma firstn_In {A} (k : nat) (l : list A) (x : A) : In x (firstn k l) -> In x l.
Proof.
  intro H. rewrite <- (firstn_skipn k l). apply in_or_app. now left.
Qed.

Lemma filterRelevance_outcome (state : AgentState) (hits : list SearchResult)
    (w : World W) :
  searchResults state = Some hits ->
  hits <> [] ->
  exists r w' relevant,
    filterRelevance env state w = (Ok r, w')
    /\ (input_after r = state
        \/ input_after r = setSearchResults (JS.sort byScore hits) state)
    /\ calls w' = (calls w ++ [LLMCall (RELEVANCE_FILTER_PROMPT
                                          (query state) (resultsText hits))])%list
    /\ update r = [Set_relevantResults relevant; Set_status Status.analyzing]
    /\ Forall (FromHits hits) relevant.
Proof.
  intros Hr Hne.
  assert (Htop : Forall (FromHits hits) (map Some (firstn 5 (JS.sort byScore hits)))).
  { apply Forall_forall. intros entry Hin hit ->. apply in_map_iff in Hin as (x & Hx & Hin).
    inversion Hx; subst x. apply firstn_In in Hin.
    apply (Permutation_in _ (sort_permutation byScore hits) Hin). }
  destruct (llm_invoke env (RELEVANCE_FILTER_PROMPT (query state) (resultsText hits))
                       (collaborators w)) as [[response|message] c] eqn:El.
  - pose proof (filterRelevance_answered env state w Hr Hne El) as H. cbv zeta in H.
    rewrite H. destruct (JSON_parse_indices env (JS.trim response)) as [| |indices];
      eexists _, _, _; (split; [reflexivity|]); cbn [input_after update calls].
    + split; [now left|]. split; [reflexivity|]. split; [reflexivity | exact Htop].
    + split; [now right|]. split; [reflexivity|]. split; [reflexivity | exact Htop].
    + split; [now left|]. split; [reflexivity|]. split; [reflexivity|].
      apply Forall_forall. intros entry Hin hit ->. apply in_map_iff in Hin as (idx & Hx & _).
      eapply index_In; eassumption.
  - rewrite (filterRelevance_unanswered env state w Hr Hne El).
    eexists _, _, _. split; [reflexivity|]. cbn [input_after update calls].
    split; [now right|]. split; [reflexivity|]. split; [reflexivity | exact Htop].
Qed.

Lemma analyzeEach_any (state : AgentState) (l : list (option SearchResult)) :
  forall (acc : list AnalysisStep.t) (w : World W),
    exists o w' new,
      analyzeEach env state l acc w = (o, w')
      /\ calls w' = (calls w ++ new)%list
      /\ llmCalls new <= List.length l
      /\ searchCalls new = 0
      /\ match o with
         | Throw _ => True
         | Ok steps =>
             exists used notes,
               l = map Some used /\ steps = (acc ++ notes)%list /\ Forall2 NoteOf used notes
         end.
Proof.
  induction l as [|[hit|] l IH]; intros acc w.
  - exists (Ok acc), w, []. cbn [analyzeEach]. unfold ret. rewrite !app_nil_r.
    split; [reflexivity|]. split; [reflexivity|]. split; [cbv; lia|]. split; [reflexivity|].
    exists [], []. rewrite app_nil_r. repeat split. constructor.
  - rewrite analyzeEach_cons. unfold llm.
    destruct (llm_invoke env _ (collaborators w)) as [[response|message] c].
    + match goal with
      | |- context [ analyzeEach env state l ?acc' ?w1 ] =>
          destruct (IH acc' w1) as (o & w' & new & E & C & Hl & Hs & Ho)
      end.
      cbn [calls] in C. rewrite <- app_assoc in C.
      eexists o, w', (_ :: new). split; [exact E|]. split; [exact C|].
      split; [unfold llmCalls in *; cbn [filter isLLMCall List.length]; lia|].
      split; [exact Hs|].
      destruct o as [steps|]; [|exact I].
      destruct Ho as (used & notes & -> & -> & HF).
      eexists (hit :: used), (_ :: notes). split; [reflexivity|].
      split; [now rewrite <- app_assoc|]. constructor; [split; reflexivity | assumption].
    + eexists (Throw message), _, [_]. split; [reflexivity|]. split; [reflexivity|].
      split; [unfold llmCalls; cbn [filter isLLMCall List.length]; lia|].
      split; [reflexivity | exact I].
  - exists (Throw (JS.TypeError_undefined "title")), w, []. cbn [analyzeEach]. unfold throw.
    rewrite app_nil_r. split; [reflexivity|]. split; [reflexivity|].
    split; [cbv; lia|]. split; [reflexivity | exact I].
Qed.

Lemma analyzeResults_outcome (state : AgentState) (relevant : list (option SearchResult))
    (w : World W) :
  relevantResults state = Some relevant ->
  exists r w' new,
    analyzeResults env state w = (Ok r, w')
    /\ input_after r = state
    /\ calls w' = (calls w ++ new)%list
    /\ llmCalls new <= 3
    /\ searchCalls new = 0
    /\ ((relevant = []
         /\ update r = [Set_status Status.error; Set_error "No relevant results to analyze"])
        \/ (exists cause,
              update r = [Set_status Status.error; Set_error ("Analysis failed: " ++ cause)])
        \/ (exists used notes,
              firstn 3 relevant = map Some used
              /\ used <> []
              /\ Forall2 NoteOf used notes
              /\ update r = [Set_analysisSteps notes; Set_status Status.synthesizing])).
Proof.
  intro Hr. unfold analyzeResults. rewrite Hr.
  destruct relevant as [|entry relevant].
  - exists {| input_after := state;
              update := [Set_status Status.error; Set_error "No relevant results to analyze"] |},
           w, [].
    rewrite app_nil_r. repeat split; try (cbv; lia). left. split; reflexivity.
  - unfold try_catch, bind at 1.
    destruct (analyzeEach_any state (firstn 3 (entry :: relevant)) [] w)
      as (o & w' & new & E & C & Hl & Hs & Ho).
    rewrite E.
    assert (Hl3 : llmCalls new <= 3).
    { rewrite length_firstn in Hl. lia. }
    destruct o as [steps|message].
    + destruct Ho as (used & notes & Hu & -> & HF).
      eexists _, _, new. split; [reflexivity|]. split; [reflexivity|].
      split; [exact C|]. split; [exact Hl3|]. split; [exact Hs|].
      right. right. exists used, notes. split; [exact Hu|].
      split; [intros ->; discriminate Hu|]. split; [exact HF | reflexivity].
    + eexists _, _, new. split; [reflexivity|]. split; [reflexivity|].
      split; [exact C|]. split; [exact Hl3|]. split; [exact Hs|].
      right. left. exists message. reflexivity.
Qed.

Lemma mapM_urlOf (l : list (option SearchResult)) (w : World W) :
  (exists cited, l = map Some cited /\ mapM (@urlOf W) l w = (Ok (map url cited), w))
  \/ (exists message, mapM (@urlOf W) l w = (Throw message, w)).
Proof.
  induction l as [|[hit|] l IH].
  - left. exists []. split; reflexivity.
  - cbn [mapM urlOf]. unfold bind, ret.
    destruct IH as [(cited & -> & E)|(message & E)]; rewrite E.
    + left. exists (hit :: cited). split; reflexivity.
    + right. eauto.
  - right. eexists. reflexivity.
Qed.

Lemma synthesizeFindings_outcome (state : AgentState) (notes : list AnalysisStep.t)
    (w : World W) :
  analysisSteps state = Some notes ->
  notes <> [] ->
  exists r w' prompt,
    synthesizeFindings env state w = (Ok r, w')
    /\ input_after r = state
    /\ calls w' = (calls w ++ [LLMCall prompt])%list
    /\ ((exists cause,
           update r = [Set_status Status.error; Set_error ("Synthesis failed: " ++ cause)])
        \/ (exists response c guide cited,
              llm_invoke env prompt (collaborators w) = (Ok response, c)
              /\ update r = [Set_findings guide; Set_status Status.complete]
              /\ ReportOf (match JSON_parse env (JS.trim response) with
                           | Some v => v
                           | None => plainSynthesis (JS.trim response)
                           end)
                          (map url cited) guide
              /\ match relevantResults state with
                 | Some relevant => firstn 5 relevant = map Some cited
                 | None => cited = []
                 end)).
Proof.
  intros Hs Hne. unfold synthesizeFindings. rewrite Hs.
  destruct notes as [|note notes]; [contradiction|].
  unfold try_catch, bind at 1, llm.
  destruct (llm_invoke env _ (collaborators w)) as [[response|message] c] eqn:El.
  2:{ eexists _, _, _. split; [reflexivity|]. split; [reflexivity|].
      split; [reflexivity|]. left. eexists. reflexivity. }
  match goal with
  | |- context [ bind ?src _ ?w1 ] =>
      assert (Hsrc : (exists cited, src w1 = (Ok (map url cited), w1)
                                    /\ match relevantResults state with
                                       | Some relevant => firstn 5 relevant = map Some cited
                                       | None => cited = []
                                       end)
                     \/ (exists message, src w1 = (Throw message, w1)))
  end.
  { destruct (relevantResults state) as [relevant|].
    - match goal with
      | |- context [ mapM _ ?l ?w1 ] =>
          destruct (mapM_urlOf l w1) as [(cited & H1 & H2)|(message & H2)]
      end; [left; eauto | right; eauto].
    - left. exists []. split; reflexivity. }
  unfold bind at 1.
  destruct Hsrc as [(cited & Esrc & Hc)|(message & Esrc)]; rewrite Esrc.
  2:{ eexists _, _, _. split; [reflexivity|]. split; [reflexivity|].
      split; [reflexivity|]. left. eexists. reflexivity. }
  unfold plainSynthesis.
  destruct (JSON_parse env (JS.trim response)) as [[| | | | |members]|] eqn:Ep;
    unfold property, bind, throw, ret, returns; cbn [JS.get];
    eexists _, _, _; (split; [reflexivity|]); (split; [reflexivity|]);
    (split; [reflexivity|]);
    try (left; eexists; reflexivity);
    right; exists response, c; eexists _, cited; (split; [exact El|]);
    (split; [reflexivity|]); (split; [|exact Hc]);
    rewrite Ep; unfold plainSynthesis;
    eexists _, _, _, _, _; repeat split.
Qed.

(** *** What a run has gathered *)

Lemma existsb_permutation {A} (f : A -> bool) (l l' : list A) :
  Permutation l l' -> existsb f l = existsb f l'.
Proof.
  intro HP. destruct (existsb f l) eqn:E.
  - symmetry. apply existsb_exists in E as (x & Hin & Hx). apply existsb_exists.
    exists x. split; [eapply Permutation_in; eassumption | assumption].
  - destruct (existsb f l') eqn:E'; [|reflexivity].
    apply existsb_exists in E' as (x & Hin & Hx).
    assert (existsb f l = true); [|congruence].
    apply existsb_exists. exists x.
    split; [eapply Permutation_in; [symmetry|]; eassumption | assumption].
Qed.

Lemma validateSearchResults_permutation (l l' : list SearchResult) :
  Permutation l l' -> validateSearchResults l = validateSearchResults l'.
Proof.
  intro HP. unfold validateSearchResults.
  rewrite (Permutation_length HP), (existsb_permutation _ HP). reflexivity.
Qed.

Lemma Found_nonempty (state : AgentState) (hits : list SearchResult) :
  Found state hits -> hits <> [].
Proof. intros [_ Hv] ->. discriminate Hv. Qed.

Lemma FromHits_permutation (hits hits' : list SearchResult)
    (relevant : list (option SearchResult)) :
  Permutation hits hits' ->
  Forall (FromHits hits) relevant -> Forall (FromHits hits') relevant.
Proof.
  intros HP HF. eapply Forall_impl; [|exact HF].
  intros entry H hit E. eapply Permutation_in; [exact HP | now apply H].
Qed.

Ltac run_step Es E :=
  unfold step, bind, ret in Es; cbn [nodes buildResearchGraph nodeFn] in Es;
  rewrite E in Es; inversion Es; subst; clear Es.

Lemma reachable_gathered (input : string) (w0 : World W)
    (t : Target) (state : AgentState) (w : World W) :
  Reachable env input w0 t state w ->
  query state = input
  /\ (forall n, t = goto n -> status state = phase n)
  /\ Gathered t state.
Proof.
  induction 1 as [|n state w state' chunk w' _ (Hq & Hp & Hg) Es].
  - split; [reflexivity|]. split; [|exact I].
    intros n E. inversion E. reflexivity.
  - specialize (Hp n eq_refl). unfold Gathered, Reported, Analyzed, Filtered, Found in *.
    destruct n.
    + (* Refine *)
      pose proof (parseQuery_cases env state w) as H.
      destruct (llm_invoke env _ _) as [[response|message] c]; run_step Es H; fields.
      * split; [reflexivity|]. split; [|exact I]. intros n E. inversion E. reflexivity.
      * split; [reflexivity|]. split; [discriminate|]. split; [discriminate|].
        intros _. eexists. split; [reflexivity|]. left. eexists. reflexivity.
    + (* Search *)
      destruct (search_outcome state w) as (r & w1 & E & Hin & _ & Hu).
      destruct r as [after u]. cbn [input_after update] in *. subst after.
      run_step Es E.
      destruct Hu as [(hits & Hv & ->)|[(Ha & ->)|[(Ha & ->)|(cause & ->)]]]; fields.
      * split; [reflexivity|]. split; [intros n E'; inversion E'; reflexivity|].
        exists hits. fields. split; [reflexivity | assumption].
      * split; [reflexivity|]. split; [|exact I]. intros n E'. inversion E'. reflexivity.
      * split; [reflexivity|]. split; [discriminate|]. split; [discriminate|].
        intros _. eexists. split; [reflexivity|]. right. right. left. reflexivity.
      * split; [reflexivity|]. split; [discriminate|]. split; [discriminate|].
        intros _. eexists. split; [reflexivity|]. right. left. eexists. reflexivity.
    + (* Filter *)
      destruct Hg as (hits & Hf). pose proof (Found_nonempty Hf) as Hne.
      destruct Hf as [Hs Hv].
      destruct (filterRelevance_outcome state w Hs Hne)
        as (r & w1 & relevant & E & Hin & _ & Hu & HF).
      destruct r as [after u]. cbn [input_after update] in *. subst u.
      destruct Hin as [->| ->]; run_step Es E; fields.
      * split; [reflexivity|]. split; [intros n E'; inversion E'; reflexivity|].
        exists hits, relevant. fields. repeat split; assumption.
      * split; [reflexivity|]. split; [intros n E'; inversion E'; reflexivity|].
        pose proof (sort_permutation byScore hits) as HP.
        exists (JS.sort byScore hits), relevant. fields. repeat split.
        -- rewrite (validateSearchResults_permutation HP). assumption.
        -- eapply FromHits_permutation; [symmetry; exact HP | exact HF].
    + (* Analyze *)
      destruct Hg as (hits & relevant & Hf & Hr & HF).
      destruct (analyzeResults_outcome state w Hr)
        as (r & w1 & new & E & Hin & _ & _ & _ & Hu).
      destruct r as [after u]. cbn [input_after update] in *. subst after.
      run_step Es E.
      destruct Hu as [[_ ->]|[(cause & ->)|(used & notes & H3 & Hne & HN & ->)]]; fields.
      * split; [reflexivity|]. split; [discriminate|]. split; [discriminate|].
        intros _. eexists. split; [reflexivity|]. do 3 right. left. reflexivity.
      * split; [reflexivity|]. split; [discriminate|]. split; [discriminate|].
        intros _. eexists. split; [reflexivity|]. do 4 right. left. eexists. reflexivity.
      * split; [reflexivity|]. split; [intros n E'; inversion E'; reflexivity|].
        exists hits, relevant, notes. fields. split; [tauto|].
        split; [reflexivity|]. exists used. repeat split; assumption.
    + (* Synthesize *)
      destruct Hg as (hits & relevant & notes & Hf & Hn & used & H3 & Hne & HN).
      assert (Hnn : notes <> []).
      { intros ->. inversion HN; subst. contradiction. }
      destruct (synthesizeFindings_outcome state w Hn Hnn)
        as (r & w1 & prompt & E & Hin & _ & Hu).
      destruct r as [after u]. cbn [input_after update] in *. subst after.
      run_step Es E.
      destruct Hu as [(cause & ->)|(response & c & guide & cited & _ & -> & HR & Hc)]; fields.
      * split; [reflexivity|]. split; [discriminate|]. split; [discriminate|].
        intros _. eexists. split; [reflexivity|]. do 5 right. eexists. reflexivity.
      * split; [reflexivity|]. split; [discriminate|]. split; [|discriminate].
        intros _. exists hits, relevant, notes, guide. fields.
        destruct Hf as (Hf & Hr & HF). rewrite Hr in Hc.
        split; [split; [tauto|]|].
        { split; [assumption|]. exists used. repeat split; assumption. }
        split; [reflexivity|]. exists cited. split; [assumption|].
        destruct HR as (? & ? & ? & ? & ? & _ & _ & _ & _ & _ & ->). reflexivity.
Qed.

(** Every run ends: in the state [graph.invoke] returns, which is
    reachable. *)
Lemma run_reaches_end (input : string) (w : World W) :
  exists final chunks w',
    pregel (buildResearchGraph env) recursionLimit Node.query_parser
           (merge channelDefaults (initialState input)) w = ((Ok final, chunks), w')
    /\ invoke (buildResearchGraph env) (initialState input) w = (Ok final, w')
    /\ Reachable env input w END final w'.
Proof.
  destruct (@pregel_terminates _ env recursionLimit Node.query_parser
              (merge channelDefaults (initialState input)) w
              (initial_running input))
    as (final & chunks & w' & E & _ & _ & _).
  { unfold channelDefaults, initialState, recursionLimit. fields.
    change (Z.to_nat (2 - 0)) with 2. lia. }
  exists final, chunks, w'. split; [exact E|].
  split; [apply (invoke_stream env _ _ E)|].
  eapply pregel_reachable; [apply reach_start | exact E].
Qed.

(** X3.  Whenever the engine is about to run a node, the [status] channel
    names that node's phase ([parsing_query] before Refine, [searching] before
    Search, [filtering_results] before Filter, [analyzing] before Analyze,
    [synthesizing] before Synthesize), and [query] is still the query the run
    was started with: no node writes it. *)
Theorem status_names_the_next_node (input : string) (w0 : World W)
    (n : Node.t) (state : AgentState) (w : World W) :
  Reachable env input w0 (goto n) state w ->
  status state = phase n /\ query state = input.
Proof.
  intro HR. destruct (reachable_gathered HR) as (Hq & Hp & _).
  split; [now apply Hp | exact Hq].
Qed.

(** X4.  Every run returns a state whose [query] is the one it was started
    with.  If its status is [complete], the state holds the whole chain of
    evidence: search results that passed [validateSearchResults], relevant
    results that are each [undefined] or one of those search results, one
    analysis note for each of the first three relevant results (between one
    and three notes, none made from an [undefined] entry), and a report whose
    sources are the URLs of the first five relevant results: at most five,
    each the URL of a search result. *)
Theorem complete_report_is_backed (input : string) (w : World W) :
  exists final w',
    invoke (buildResearchGraph env) (initialState input) w = (Ok final, w')
    /\ query final = input
    /\ (status final = Status.complete ->
        exists hits relevant notes guide,
          Reported final hits relevant notes guide
          /\ 1 <= List.length notes <= 3
          /\ List.length (sources guide) <= 5
          /\ forall u, In u (sources guide) -> exists hit, In hit hits /\ url hit = u).
Proof.
  destruct (run_reaches_end input w) as (final & chunks & w' & _ & Ei & HR).
  exists final, w'. split; [exact Ei|].
  destruct (reachable_gathered HR) as (Hq & _ & Hc & _).
  split; [exact Hq|]. intro Hs.
  destruct (Hc Hs) as (hits & relevant & notes & guide & HRep).
  exists hits, relevant, notes, guide. split; [exact HRep|].
  destruct HRep as (((_ & _ & HF) & _ & used & H3 & Hne & HN) & _ & cited & H5 & Hsrc).
  split; [|split].
  - rewrite <- (Forall2_length HN).
    assert (Hl : List.length used = List.length (firstn 3 relevant))
      by (rewrite H3; now rewrite length_map).
    rewrite length_firstn in Hl. destruct used; [contradiction|]. cbn [List.length] in *. lia.
  - rewrite Hsrc, length_map.
    assert (Hl : List.length cited = List.length (firstn 5 relevant))
      by (rewrite H5; now rewrite length_map).
    rewrite length_firstn in Hl. lia.
  - intros u Hu. rewrite Hsrc in Hu. apply in_map_iff in Hu as (hit & <- & Hin).
    exists hit. split; [|reflexivity].
    rewrite Forall_forall in HF. apply (HF (Some hit)); [|reflexivity].
    apply (@firstn_In _ 5). rewrite H5. now apply in_map.
Qed.

Lemma RunError_excludes (message : string) :
  RunError message ->
  message <> "Unknown error occurred"
  /\ message <> "Graph execution produced no final state"
  /\ message <> "GraphRecursionError"
  /\ message <> "No search results to filter"
  /\ message <> "No analyses to synthesize".
Proof.
  intros [(c & ->)|[(c & ->)|[->|[->|[(c & ->)|(c & ->)]]]]];
    repeat split; intro H; discriminate H.
Qed.

Lemma executeResearch_outcome (input : string) (w : World W) :
  match executeResearch env input w with
  | (Ok final, _) => status final = Status.complete /\ findings final <> None
  | (Throw message, _) => RunError message
  end.
Proof.
  destruct (run_reaches_end input w) as (final & chunks & w' & _ & Ei & HR).
  destruct (reachable_gathered HR) as (_ & _ & _ & He).
  destruct (reachable_invariant HR) as [_ HT].
  unfold executeResearch, try_catch, bind, initializeAgent. rewrite Ei.
  destruct HT as [[Hs Hf]|(Hs & _)]; rewrite Hs; cbn [Status.eqb].
  - unfold ret. split; assumption.
  - destruct (He Hs) as (message & Hm & HE). rewrite Hm. unfold throw.
    destruct HE as [(c & ->)|[(c & ->)|[->|[->|[(c & ->)|(c & ->)]]]]]; cbn [JS.orString append].
    + left. eexists. reflexivity.
    + right. left. eexists. reflexivity.
    + right. right. left. reflexivity.
    + do 3 right. left. reflexivity.
    + do 4 right. left. eexists. reflexivity.
    + do 5 right. eexists. reflexivity.
Qed.

Section Entry.
Variable U : Type.
Variable onUpdate : Partial -> U -> U.

(** X5.  [executeResearch] either returns a state with the status
    [complete] and a report, or throws one of the messages the nodes write:
    "Query parsing failed: ...", "Search failed: Search failed: ...", "Could
    not find sufficient search results", "No relevant results to analyze",
    "Analysis failed: ..." or "Synthesis failed: ...".  It never throws its
    own default "Unknown error occurred", and the guards "No search results to
    filter" and "No analyses to synthesize" of the nodes never fire in a run.
    [executeResearchStreaming] likewise returns an object with the status
    [complete] and a report or throws one of these messages, and never throws
    "Unknown error occurred" or "Graph execution produced no final state". *)
Theorem entry_points_throw_run_errors (input : string) (ui : U) (w : World W) :
  match executeResearch env input w with
  | (Ok final, _) => status final = Status.complete /\ findings final <> None
  | (Throw message, _) =>
      RunError message
      /\ message <> "Unknown error occurred"
      /\ message <> "No search results to filter"
      /\ message <> "No analyses to synthesize"
  end
  /\ match executeResearchStreaming env onUpdate input ui w with
     | ((Ok obj, _), _) =>
         lookup key_status obj = Some Status.complete /\ lookup key_findings obj <> None
     | ((Throw message, _), _) =>
         RunError message
         /\ message <> "Unknown error occurred"
         /\ message <> "Graph execution produced no final state"
     end.
Proof.
  pose proof (executeResearch_outcome input w) as H1.
  pose proof (entry_points_agree_on_report env onUpdate input ui w) as H2.
  destruct (executeResearch env input w) as [[final|message] w1].
  - split; [exact H1|]. destruct H2 as (obj & ui' & -> & Hs & Hf & _).
    destruct H1 as [H1 H1']. rewrite Hs, Hf, H1. split; [reflexivity | assumption].
  - destruct (RunError_excludes H1) as (? & ? & ? & ? & ?).
    split; [tauto|]. destruct H2 as (ui' & ->). tauto.
Qed.

End Entry.

(** *** The [messages] channel *)

Lemma dialogue_app (input : string) (answers : list string) (answer : string) :
  dialogue input (answers ++ [answer])
  = (dialogue input answers ++ [HumanMessage input; AIMessage answer])%list.
Proof. unfold dialogue. rewrite flat_map_app. cbn [flat_map]. now rewrite app_nil_r. Qed.

Lemma reachable_dialogue (input : string) (w0 : World W)
    (t : Target) (state : AgentState) (w : World W) :
  Reachable env input w0 t state w ->
  exists answers, messages state = dialogue input answers /\ Asked t state answers.
Proof.
  induction 1 as [|n state w state' chunk w' HR (answers & Hm & Ha) Es].
  - exists []. split; reflexivity.
  - destruct (reachable_gathered HR) as (Hq & _ & _).
    destruct n; cbn [Asked] in Ha.
    + pose proof (parseQuery_cases env state w) as H.
      destruct (llm_invoke env _ _) as [[response|message] c]; run_step Es H; fields.
      * exists (answers ++ [JS.trim response])%list. rewrite dialogue_app, Hm.
        split; [reflexivity|]. cbn [Asked]. fields. rewrite length_app. cbn [List.length].
        split; [lia|]. eauto.
      * exists answers. split; [assumption|]. cbn [Asked]. fields. lia.
    + destruct Ha as [Ha _].
      destruct (search_outcome state w) as (r & w1 & E & Hin & _ & Hu).
      destruct r as [after u]. cbn [input_after update] in *. subst after.
      run_step Es E.
      destruct Hu as [(hits & Hv & ->)|[(Hlt & ->)|[(Hge & ->)|(cause & ->)]]]; fields;
        exists answers; (split; [assumption|]); cbn [Asked]; fields; lia.
    + destruct (node_shape env Node.relevance_filter state w) as (r & w1 & E & F & S).
      cbn [nodeFn] in E. destruct r as [after u]. cbn [input_after update] in *.
      run_step Es E. exists answers.
      destruct F as [->|[hits ->]];
        (destruct S as [[message ->]|(rel & ->)]; fields;
         (split; [assumption|]); cbn [Asked]; fields; lia).
    + destruct (node_shape env Node.deep_analysis state w) as (r & w1 & E & F & S).
      cbn [nodeFn] in E. destruct r as [after u]. cbn [input_after update] in *.
      run_step Es E. exists answers.
      destruct F as [->|[hits ->]];
        (destruct S as [[message ->]|(notes & ->)]; fields;
         (split; [assumption|]); cbn [Asked]; fields; lia).
    + destruct (node_shape env Node.synthesis state w) as (r & w1 & E & F & S).
      cbn [nodeFn] in E. destruct r as [after u]. cbn [input_after update] in *.
      run_step Es E. exists answers.
      destruct F as [->|[hits ->]];
        (destruct S as [[message ->]|(guide & ->)]; fields;
         (split; [assumption|]); cbn [Asked]; fields; lia).
Qed.

(** X6.  At every point of a run the [messages] channel is the dialogue
    of the query-enhancement calls that succeeded so far: for each one, the
    human message with the original query followed by the AI message with the
    trimmed answer, in order, and nothing else.  There are at most three such
    answers; before Refine runs their number is the counter of search
    attempts, and before Search runs the last of them is [enhancedQuery]. *)
Theorem messages_record_the_refinements (input : string) (w0 : World W)
    (t : Target) (state : AgentState) (w : World W) :
  Reachable env input w0 t state w ->
  exists answers,
    messages state = dialogue input answers
    /\ List.length answers <= 3
    /\ (t = goto Node.query_parser ->
        Z.of_nat (List.length answers) = searchAttempts state)
    /\ (t = goto Node.search ->
        exists earlier answer,
          answers = (earlier ++ [answer])%list /\ enhancedQuery state = Some answer).
Proof.
  intro HR. destruct (reachable_dialogue HR) as (answers & Hm & Ha).
  destruct (reachable_invariant HR) as [Hb _].
  exists answers. split; [exact Hm|]. split; [|split].
  - destruct t as [[]|]; cbn [Asked] in Ha; lia.
  - intros ->. exact Ha.
  - intros ->. apply Ha.
Qed.

(** *** Calls to the collaborators *)

Lemma calls_one_llm (prompt : Prompt) :
  llmCalls [LLMCall prompt] = 1 /\ searchCalls [LLMCall prompt] = 0.
Proof. split; reflexivity. Qed.

Lemma node_calls (n : Node.t) (state : AgentState) (w : World W) :
  exists r w' made,
    nodeFn env n state w = (Ok r, w')
    /\ calls w' = (calls w ++ made)%list
    /\ llmCalls made <= llmCost n
    /\ searchCalls made <= searchCost n.
Proof.
  destruct n; cbn [nodeFn llmCost searchCost].
  - pose proof (parseQuery_cases env state w) as H.
    destruct (llm_invoke env _ _) as [[response|message] c]; rewrite H;
      eexists _, _, [_]; (split; [reflexivity|]); (split; [reflexivity|]);
      split; cbv; lia.
  - destruct (search_outcome state w) as (r & w1 & E & _ & C & _).
    exists r, w1. eexists. split; [exact E|]. split; [exact C|]. split; cbv; lia.
  - destruct (searchResults state) as [[|hit hits]|] eqn:Hs.
    1,3: unfold filterRelevance; rewrite Hs; eexists _, _, [];
      (split; [reflexivity|]); rewrite app_nil_r; (split; [reflexivity|]); split; cbv; lia.
    destruct (@filterRelevance_outcome state (hit :: hits) w Hs)
      as (r & w1 & relevant & E & _ & C & _); [discriminate|].
    exists r, w1. eexists. split; [exact E|]. split; [exact C|]. split; cbv; lia.
  - destruct (relevantResults state) as [relevant|] eqn:Hr.
    + destruct (analyzeResults_outcome state w Hr)
        as (r & w1 & made & E & _ & C & Hl & Hz & _).
      exists r, w1, made. split; [exact E|]. split; [exact C|]. split; [exact Hl | lia].
    + unfold analyzeResults. rewrite Hr. eexists _, _, [].
      split; [reflexivity|]. rewrite app_nil_r. split; [reflexivity|]. split; cbv; lia.
  - destruct (analysisSteps state) as [[|note notes]|] eqn:Hs.
    1,3: unfold synthesizeFindings; rewrite Hs; eexists _, _, [];
      (split; [reflexivity|]); rewrite app_nil_r; (split; [reflexivity|]); split; cbv; lia.
    destruct (@synthesizeFindings_outcome state (note :: notes) w Hs)
      as (r & w1 & prompt & E & _ & C & _); [discriminate|].
    exists r, w1. eexists. split; [exact E|]. split; [exact C|]. split; cbv; lia.
Qed.

Lemma step_calls (n : Node.t) (state : AgentState) (w : World W) :
  Running state ->
  exists state' chunk w' made,
    step (buildResearchGraph env) n state w = (Ok (state', chunk), w')
    /\ calls w' = (calls w ++ made)%list
    /\ ((edge n state' = END
         /\ llmCalls made <= llmBudget n state
         /\ searchCalls made <= searchBudget n state)
        \/ (exists n', edge n state' = goto n'
                       /\ Running state'
                       /\ llmCalls made + llmBudget n' state' <= llmBudget n state
                       /\ searchCalls made + searchBudget n' state' <= searchBudget n state)).
Proof.
  intros HR. pose proof HR as (Hf & He & Ha).
  destruct (node_shape env n state w) as (r & w' & E & F & S).
  destruct (node_calls n state w) as (r2 & w2 & made & E2 & C & Hl & Hs).
  rewrite E in E2. inversion E2; subst r2 w2. clear E2.
  destruct (step_progress env n w HR) as (state' & chunk & w1 & Es & _ & _ & Hnext).
  exists state', chunk, w1, made. split; [exact Es|].
  unfold step, bind, ret in Es. cbn [nodes buildResearchGraph] in Es. rewrite E in Es.
  inversion Es; subst state' chunk w1. clear Es. split; [exact C|].
  destruct r as [after u]. cbn [input_after update] in *.
  assert (Haa : searchAttempts after = searchAttempts state)
    by (destruct F as [->|[hits ->]]; reflexivity).
  destruct Hnext as [[Ee _]|(n' & Ee & HR' & _)].
  - left. split; [exact Ee|]. destruct n; cbn [llmBudget searchBudget llmCost searchCost] in *; lia.
  - right. exists n'. split; [exact Ee|]. split; [exact HR'|].
    destruct S as [[message ->]|S].
    + exfalso. revert Ee. fields. destruct n; discriminate.
    + destruct n; cbn [SuccessUpdate] in S.
      * destruct S as (e & m & ->). revert Ee. fields. intro Ee. inversion Ee; subst n'.
        cbn [llmBudget searchBudget llmCost searchCost] in *. fields. lia.
      * destruct S as [(hits & ->)|(Hlt & e & ->)]; revert Ee; fields; intro Ee;
          inversion Ee; subst n';
          cbn [llmBudget searchBudget llmCost searchCost] in *; fields; lia.
      * destruct S as (rel & ->). revert Ee. fields. intro Ee. inversion Ee; subst n'.
        cbn [llmBudget searchBudget llmCost searchCost] in *. lia.
      * destruct S as (notes & ->). revert Ee. fields. intro Ee. inversion Ee; subst n'.
        cbn [llmBudget searchBudget llmCost searchCost] in *. lia.
      * destruct S as (guide & ->). revert Ee. fields. discriminate.
Qed.

Lemma llmCalls_app (a b : list Event) : llmCalls (a ++ b) = llmCalls a + llmCalls b.
Proof. unfold llmCalls. now rewrite filter_app, length_app. Qed.

Lemma searchCalls_app (a b : list Event) :
  searchCalls (a ++ b) = searchCalls a + searchCalls b.
Proof. unfold searchCalls. now rewrite filter_app, length_app. Qed.

Lemma pregel_calls (fuel : nat) :
  forall n state w final chunks w',
    Running state ->
    pregel (buildResearchGraph env) fuel n state w = ((Ok final, chunks), w') ->
    exists made,
      calls w' = (calls w ++ made)%list
      /\ llmCalls made <= llmBudget n state
      /\ searchCalls made <= searchBudget n state.
Proof.
  induction fuel as [|fuel IH]; intros n state w final chunks w' HR Ep; [discriminate|].
  cbn [pregel edges buildResearchGraph] in Ep.
  destruct (step_calls n w HR)
    as (state1 & chunk1 & w1 & made & Es & C & [(Ee & Hl & Hs)|(n' & Ee & HR' & Hl & Hs)]);
    rewrite Es, Ee in Ep.
  - inversion Ep; subst. exists made. auto.
  - destruct (pregel (buildResearchGraph env) fuel n' state1 w1) as [[r cs] w2] eqn:Ep'.
    inversion Ep; subst.
    destruct (IH _ _ _ _ _ _ HR' Ep') as (made' & C' & Hl' & Hs').
    exists (made ++ made')%list. rewrite C', C, app_assoc.
    split; [reflexivity|]. rewrite llmCalls_app, searchCalls_app. lia.
Qed.

(** X7.  Whatever the query and the collaborators, a run makes at most 8
    calls to the LLM (at most three query enhancements, one relevance filter,
    three analyses, one synthesis) and at most 3 calls to the search tool. *)
Theorem run_calls_bounded (input : string) (w : World W) :
  exists final w' made,
    invoke (buildResearchGraph env) (initialState input) w = (Ok final, w')
    /\ calls w' = (calls w ++ made)%list
    /\ llmCalls made <= 8
    /\ searchCalls made <= 3.
Proof.
  destruct (run_reaches_end input w) as (final & chunks & w' & Ep & Ei & _).
  destruct (pregel_calls _ _ _ (initial_running input) Ep) as (made & C & Hl & Hs).
  exists final, w', made. split; [exact Ei|]. split; [exact C|].
  unfold channelDefaults, initialState in *. cbn [llmBudget searchBudget] in *. fields.
  change (Z.to_nat (3 - 0)) with 3 in *. lia.
Qed.

(** *** Failures of the search tool *)

(** X2.  The Search node always returns an update and calls the search tool
    exactly once, with [enhancedQuery] or, when that is missing or empty, with
    [query].  When the tool throws, or its reply is not JSON, or parses to
    [null], to something that is not an array, or to an array with a [null]
    among its elements, the node reports the status [error] with a message
    that carries the prefix twice: "Search failed: Search failed: " followed
    by the cause (the tool's message, "Invalid search results format", the
    TypeError of calling [map], or the TypeError of reading [title] of
    [null]).  When the reply is an array with no [null] in it, no such message
    is written. *)
Theorem search_failure_is_prefixed_twice (state : AgentState) (w : World W) :
  let q := JS.orString (enhancedQuery state) (query state) in
  let failed (cause : string) (u : Partial) :=
    u = [Set_status Status.error; Set_error ("Search failed: Search failed: " ++ cause)] in
  exists r w',
    search env state w = (Ok r, w')
    /\ calls w' = (calls w ++ [SearchCall q])%list
    /\ match searchTool_invoke env q (collaborators w) with
       | (Throw message, _) => failed message (update r)
       | (Ok reply, _) =>
           match JSON_parse_results env reply with
           | ResultsNotJSON => failed "Invalid search results format" (update r)
           | ResultsNull =>
               failed "Cannot read properties of null (reading 'map')" (update r)
           | ResultsNotArray => failed "results.map is not a function" (update r)
           | ResultsArray results =>
               match records results with
               | None =>
                   failed "Cannot read properties of null (reading 'title')" (update r)
               | Some _ => forall cause, ~ failed cause (update r)
               end
           end
       end.
Proof.
  intros q failed. pose proof (search_cases env state w) as H. cbv zeta in H. fold q in H.
  pose proof (executeSearch_cases q w) as Hx.
  destruct (searchTool_invoke env q (collaborators w)) as [[reply|message] c].
  - destruct (JSON_parse_results env reply) as [| | |results].
    1-3: rewrite Hx in H; rewrite H; eexists _, _; (split; [reflexivity|]);
      split; reflexivity.
    destruct (records results) as [raw|].
    + destruct Hx as (coerced & w1 & E & C & _). rewrite E in H. rewrite H.
      eexists _, _. split; [reflexivity|]. split; [exact C|].
      intros cause. unfold failed. cbn [update].
      destruct (validateSearchResults _); [discriminate|].
      destruct (searchAttempts state <? 2)%Z; discriminate.
    + destruct Hx as (w1 & E & C). rewrite E in H. rewrite H.
      eexists _, _. split; [reflexivity|]. split; [exact C | reflexivity].
  - rewrite Hx in H. rewrite H. eexists _, _. split; [reflexivity|]. split; reflexivity.
Qed.

(** *** The Analyze node on an entry that is [undefined] *)

Lemma analyzeEach_undefined (state : AgentState) (before : list SearchResult)
    (rest : list (option SearchResult)) :
  AnalysisAnswers env ->
  forall (acc : list AnalysisStep.t) (w : World W),
    exists w' made,
      analyzeEach env state (map Some before ++ None :: rest) acc w
      = (Throw (JS.TypeError_undefined "title"), w')
      /\ calls w' = (calls w ++ made)%list
      /\ llmCalls made = List.length before
      /\ searchCalls made = 0.
Proof.
  intro HA. induction before as [|hit before IH]; intros acc w.
  - exists w, []. rewrite app_nil_r. repeat split.
  - cbn [map app]. rewrite analyzeEach_cons. unfold llm.
    destruct (HA (query state) (content hit) (collaborators w)) as (response & c & E).
    rewrite E.
    match goal with
    | |- context [ analyzeEach env state _ ?acc' ?w1 ] =>
        destruct (IH acc' w1) as (w' & made & E' & C & Hl & Hs)
    end.
    cbn [calls] in C. rewrite <- app_assoc in C.
    exists w'. eexists (_ :: made). split; [exact E'|]. split; [exact C|].
    split; [unfold llmCalls in *; cbn [filter isLLMCall List.length]; lia | exact Hs].
Qed.

(** X8.  If the LLM answers every analysis prompt and one of the first
    three entries of [relevantResults] is [undefined] (an index the filter let
    through that names no search result), the Analyze node reports the status
    [error] with the message "Analysis failed: Cannot read properties of
    undefined (reading 'title')".  It has by then called the LLM once for each
    entry before the first [undefined] one, and the notes made of them are
    lost. *)
Theorem analysis_fails_on_undefined_entry (state : AgentState)
    (relevant : list (option SearchResult)) (before : list SearchResult)
    (rest : list (option SearchResult)) (w : World W) :
  AnalysisAnswers env ->
  relevantResults state = Some relevant ->
  firstn 3 relevant = (map Some before ++ None :: rest)%list ->
  exists w' made,
    analyzeResults env state w
    = (Ok {| input_after := state;
             update := [ Set_status Status.error;
                         Set_error "Analysis failed: Cannot read properties of undefined (reading 'title')" ] |},
       w')
    /\ calls w' = (calls w ++ made)%list
    /\ llmCalls made = List.length before.
Proof.
  intros HA Hr H3. unfold analyzeResults. rewrite Hr.
  destruct relevant as [|entry relevant].
  { destruct before; discriminate H3. }
  unfold try_catch, bind at 1. rewrite H3.
  destruct (analyzeEach_undefined state before rest HA [] w) as (w' & made & E & C & Hl & _).
  rewrite E. exists w', made. split; [reflexivity|]. split; assumption.
Qed.

(** *** The Synthesize node *)

Lemma mapM_urlOf_defined (hits : list SearchResult) (w : World W) :
  mapM (@urlOf W) (map Some hits) w = (Ok (map url hits), w).
Proof.
  induction hits as [|hit hits IH]; [reflexivity|].
  cbn [map mapM urlOf]. unfold bind, ret. now rewrite IH.
Qed.

Lemma or_truthy (a : option JS.json) (b : JS.json) :
  JS.truthy b = true -> JS.truthy (JS.or a b) = true.
Proof.
  intro Hb. unfold JS.or. destruct a as [v|]; [|assumption].
  destruct (JS.truthy v) eqn:E; assumption.
Qed.

(** X9.  The Synthesize node always returns an update and leaves its input
    state as it was.  Whenever the update holds a report, it also sets the
    status [complete], the summary and the three lists of the report are
    truthy (a falsy field of the LLM's answer has been replaced by its
    default), and the report cites at most five sources. *)
Theorem report_fields_are_truthy (state : AgentState) (w : World W) :
  exists r w',
    synthesizeFindings env state w = (Ok r, w')
    /\ input_after r = state
    /\ forall guide,
         lookup key_findings (update r) = Some guide ->
         lookup key_status (update r) = Some Status.complete
         /\ JS.truthy (summary guide) = true
         /\ JS.truthy (migrationSteps guide) = true
         /\ JS.truthy (breakingChanges guide) = true
         /\ JS.truthy (examples guide) = true
         /\ List.length (sources guide) <= 5.
Proof.
  destruct (analysisSteps state) as [[|note notes]|] eqn:Hs.
  1,3: unfold synthesizeFindings; rewrite Hs; eexists _, _; (split; [reflexivity|]);
    (split; [reflexivity|]); intros guide H; discriminate H.
  destruct (@synthesizeFindings_outcome state (note :: notes) w Hs)
    as (r & w' & prompt & E & Hin & _ & Hu); [discriminate|].
  exists r, w'. split; [exact E|]. split; [exact Hin|]. intros guide Hg.
  destruct Hu as [(cause & Hu)|(response & c & guide' & cited & _ & Hu & HR & Hc)];
    rewrite Hu in Hg; [discriminate Hg|].
  rewrite Hu. cbn in Hg. inversion Hg; subst guide'. split; [reflexivity|].
  destruct HR as (s & m & b & e & n & _ & _ & _ & _ & _ & ->).
  cbn [summary migrationSteps breakingChanges examples sources].
  repeat split; try (repeat apply or_truthy; reflexivity).
  rewrite length_map.
  destruct (relevantResults state) as [relevant|].
  - assert (Hl : List.length cited = List.length (firstn 5 relevant))
      by (rewrite Hc; now rewrite length_map).
    rewrite length_firstn in Hl. lia.
  - subst cited. cbv. lia.
Qed.

(** X10.  With at least one analysis note and no [undefined] entry among
    the relevant results, the Synthesize node calls the LLM exactly once; if
    the LLM answers with text that is not JSON, the node still completes: the
    report has the trimmed text as its summary ("Migration guide synthesis"
    if that is empty), no migration steps, no breaking changes, no examples,
    and the URLs of the first five relevant results as sources. *)
Theorem synthesis_of_plain_text (state : AgentState) (notes : list AnalysisStep.t)
    (relevant : list SearchResult) (w : World W) :
  analysisSteps state = Some notes ->
  notes <> [] ->
  relevantResults state = Some (map Some relevant) ->
  exists r w' prompt,
    synthesizeFindings env state w = (Ok r, w')
    /\ calls w' = (calls w ++ [LLMCall prompt])%list
    /\ forall response c,
         llm_invoke env prompt (collaborators w) = (Ok response, c) ->
         JSON_parse env (JS.trim response) = None ->
         update r =
           [ Set_findings
               {| summary := JS.JString (JS.orString (Some (JS.trim response))
                                                     "Migration guide synthesis");
                  migrationSteps := JS.JArray [];
                  breakingChanges := JS.JArray [];
                  examples := JS.JArray [];
                  sources := map url (firstn 5 relevant) |};
             Set_status Status.complete ].
Proof.
  intros Hs Hne Hr. unfold synthesizeFindings. rewrite Hs, Hr.
  destruct notes as [|note notes]; [contradiction|].
  unfold try_catch, bind at 1, llm.
  destruct (llm_invoke env _ (collaborators w)) as [[response|message] c] eqn:El.
  2:{ eexists _, _, _. split; [reflexivity|]. split; [reflexivity|].
      intros response c' H. rewrite El in H. discriminate H. }
  unfold bind at 1. rewrite firstn_map, mapM_urlOf_defined.
  destruct (JSON_parse env (JS.trim response)) as [v|] eqn:Ep.
  - destruct v; unfold property, bind, throw, ret, returns; cbn [JS.get];
      eexists _, _, _; (split; [reflexivity|]); (split; [reflexivity|]);
      intros response' c' H; rewrite El in H; inversion H; subst; congruence.
  - unfold property, bind, throw, ret, returns; cbn [JS.get].
    eexists _, _, _. split; [reflexivity|]. split; [reflexivity|].
    intros response' c' H _. rewrite El in H. inversion H. subst response' c'.
    cbn [update]. destruct (JS.trim response); reflexivity.
Qed.

End P.


Lemma append_nil_r (s : string) : s ++ "" = s.
Proof. induction s as [|c s IH]; [reflexivity|]. cbn. now rewrite IH. Qed.

Lemma append_assoc (a b c : string) : (a ++ b) ++ c = a ++ b ++ c.
Proof. induction a as [|x a IH]; [reflexivity|]. cbn. now rewrite IH. Qed.

Lemma length_append (a b : string) :
  String.length (a ++ b) = String.length a + String.length b.
Proof. induction a as [|x a IH]; [reflexivity|]. cbn. now rewrite IH. Qed.

Lemma trimStart_spec (s : string) :
  exists l, s = l ++ JS.trimStart s
            /\ blank l = true
            /\ forall c, firstChar (JS.trimStart s) = Some c -> JS.isWhiteSpace c = false.
Proof.
  induction s as [|c s (l & E & Hl & Hf)].
  - exists "". repeat split. discriminate.
  - cbn [JS.trimStart]. destruct (JS.isWhiteSpace c) eqn:Hc.
    + exists (String c l). cbn. rewrite <- E, Hc, Hl. repeat split. assumption.
    + exists "". repeat split. intros c' H. inversion H. now subst.
Qed.

Lemma trimEnd_empty (s : string) : JS.trimEnd s = "" <-> blank s = true.
Proof.
  induction s as [|c s IH]; [split; reflexivity|].
  cbn [JS.trimEnd blank]. destruct (JS.trimEnd s) eqn:E.
  - destruct (JS.isWhiteSpace c); cbn [andb].
    + split; [intros _; now apply IH | reflexivity].
    + split; discriminate.
  - split; [discriminate|]. intro H. apply andb_true_iff in H as [_ H].
    apply IH in H. discriminate H.
Qed.

Lemma trimEnd_spec (s : string) :
  exists r, s = JS.trimEnd s ++ r
            /\ blank r = true
            /\ (forall c, lastChar (JS.trimEnd s) = Some c -> JS.isWhiteSpace c = false).
Proof.
  induction s as [|c s (r & E & Hr & Hl)].
  - exists "". repeat split. discriminate.
  - cbn [JS.trimEnd]. destruct (JS.trimEnd s) as [|c' t] eqn:Et.
    + destruct (JS.isWhiteSpace c) eqn:Hc.
      * exists (String c s). apply trimEnd_empty in Et. cbn [blank append].
        rewrite Hc, Et. repeat split. discriminate.
      * exists r. cbn [append] in *. subst r. repeat split; [assumption|].
        intros x H. inversion H. now subst.
    + exists r. split; [|split; [assumption|]].
      * rewrite E at 1. reflexivity.
      * intros x H. apply Hl. exact H.
Qed.

Lemma trimEnd_first (s : string) (c : ascii) :
  firstChar (JS.trimEnd s) = Some c -> firstChar s = Some c.
Proof.
  destruct s as [|x s]; [discriminate|]. cbn [JS.trimEnd].
  destruct (JS.trimEnd s); [destruct (JS.isWhiteSpace x)|]; cbn; congruence.
Qed.

(** [trim] removes white space at both ends, and nothing else. *)
Lemma trim_spec (s : string) :
  exists l r, s = l ++ JS.trim s ++ r
              /\ blank l = true /\ blank r = true /\ Trimmed (JS.trim s).
Proof.
  unfold JS.trim. destruct (trimStart_spec s) as (l & El & Hl & Hf).
  destruct (trimEnd_spec (JS.trimStart s)) as (r & Er & Hr & Hlast).
  exists l, r. split; [now rewrite <- Er|]. split; [assumption|]. split; [assumption|].
  split; [|assumption]. intros c Hc. apply Hf. now apply trimEnd_first.
Qed.

Lemma blank_app (a b : string) : blank (a ++ b) = blank a && blank b.
Proof.
  induction a as [|c a IH]; [reflexivity|]. cbn. rewrite IH. now rewrite andb_assoc.
Qed.

Lemma trimStart_blank (s : string) : blank s = true -> JS.trimStart s = "".
Proof.
  induction s as [|c s IH]; [reflexivity|]. cbn. intro H.
  apply andb_true_iff in H as [Hc Hs]. rewrite Hc. now apply IH.
Qed.

Lemma trim_empty (s : string) : JS.trim s = "" <-> blank s = true.
Proof.
  split.
  - intro E. destruct (trim_spec s) as (l & r & Es & Hl & Hr & _).
    rewrite E in Es. rewrite Es. cbn. rewrite blank_app, Hl, Hr. reflexivity.
  - intro H. unfold JS.trim. now rewrite (trimStart_blank _ H).
Qed.

Lemma trimStart_trimmed (s : string) :
  (forall c, firstChar s = Some c -> JS.isWhiteSpace c = false) -> JS.trimStart s = s.
Proof.
  destruct s as [|c s]; [reflexivity|]. intro H. cbn. now rewrite (H c eq_refl).
Qed.

Lemma trimEnd_trimmed (s : string) :
  (forall c, lastChar s = Some c -> JS.isWhiteSpace c = false) -> JS.trimEnd s = s.
Proof.
  induction s as [|c s IH]; [reflexivity|]. intro H. cbn [JS.trimEnd].
  destruct s as [|c' s'].
  - cbn. now rewrite (H c eq_refl).
  - rewrite IH; [reflexivity|]. intros x Hx. apply H. exact Hx.
Qed.

Lemma trim_trimmed (s : string) : Trimmed s -> JS.trim s = s.
Proof.
  intros [Hf Hl]. unfold JS.trim. rewrite (trimStart_trimmed _ Hf). now apply trimEnd_trimmed.
Qed.

(** [trim] strips the white space at both ends, and nothing else. *)
Lemma trim_is_idempotent (s : string) :
  JS.trim (JS.trim s) = JS.trim s
  /\ (JS.trim s = "" <-> blank s = true)
  /\ exists l r, s = l ++ JS.trim s ++ r
                 /\ blank l = true /\ blank r = true /\ Trimmed (JS.trim s).
Proof.
  pose proof (trim_spec s) as H. split; [|split; [apply trim_empty | exact H]].
  destruct H as (l & r & _ & _ & _ & HT). now apply trim_trimmed.
Qed.

Section Submit.
Variable U : Type.
Variable onSubmit : string -> U -> U.

(** X11.  [handleSubmit] of the query input does nothing when the
    submitted text is empty or only white space.  Otherwise it calls
    [onSubmit] exactly once, with the text stripped of the white space at both
    ends: a non-empty string that neither begins nor ends with white
    space. *)
Theorem handleSubmit_submits_trimmed (submittedValue : string) (ui : U) :
  (blank submittedValue = true
   /\ QueryInput.handleSubmit onSubmit submittedValue ui = ui)
  \/ (exists l query r,
        submittedValue = l ++ query ++ r
        /\ blank l = true /\ blank r = true
        /\ query <> "" /\ Trimmed query
        /\ QueryInput.handleSubmit onSubmit submittedValue ui = onSubmit query ui).
Proof.
  unfold QueryInput.handleSubmit.
  destruct (JS.trim submittedValue) as [|c t] eqn:E.
  - left. split; [now apply trim_empty | reflexivity].
  - right. destruct (trim_spec submittedValue) as (l & r & Es & Hl & Hr & HT).
    rewrite E in *. exists l, (String c t), r. repeat split; try assumption; try apply HT.
    discriminate.
Qed.
End Submit.

(** X12.  [validateEnvironment] succeeds exactly when both
    [OPENAI_API_KEY] and [TAVILY_API_KEY] are set to a non-empty string (an
    empty value counts as missing).  Otherwise it throws a message that lists
    exactly the missing ones, in that order and separated by a comma and a
    space, followed by the hint to create a [.env] file. *)
Theorem validateEnvironment_iff (processEnv : ProcessEnv) :
  (validateEnvironment processEnv = Ok tt
   <-> getEnv processEnv "OPENAI_API_KEY" "" <> ""
       /\ getEnv processEnv "TAVILY_API_KEY" "" <> "")
  /\ forall message,
       validateEnvironment processEnv = Throw message ->
       exists missing,
         message = "Missing required environment variables: " ++ JS.join ", " missing
                   ++ JS.nl
                   ++ "Please create a .env file with these variables. See .env.example for details."
         /\ missing = filter (fun key => String.eqb (getEnv processEnv key "") "")
                             ["OPENAI_API_KEY"; "TAVILY_API_KEY"].
Proof.
  unfold validateEnvironment. cbn [fold_left filter]. unfold getEnv.
  destruct (processEnv "OPENAI_API_KEY") as [[|c1 s1]|];
    destruct (processEnv "TAVILY_API_KEY") as [[|c2 s2]|];
    cbn [falsy app List.length Nat.ltb Nat.leb JS.orString filter String.eqb];
    (split; [split; [intro H; try discriminate H; split; discriminate
                    | intros [H1 H2]; try reflexivity; try (now elim H1); try (now elim H2)]
            | intros message H; try discriminate H; eexists; (split; [|reflexivity]);
              injection H as H; symmetry; exact H]).
Qed.

(* ================================================================= *)
(** ** The command-line interface *)

Section Interface.
Variable W : Type.
Variable env : Env W.

Lemma forAwait_hook (chunks : list Chunk) :
  forall (finalState : option Partial) (hook : UseAgent.t),
    UseAgent.state hook = finalState ->
    UseAgent.state (snd (forAwait (fun updatedState hook =>
                                     UseAgent.setState (Some updatedState) hook)
                                  chunks finalState hook))
    = fst (forAwait (fun updatedState hook => UseAgent.setState (Some updatedState) hook)
                    chunks finalState hook)
    /\ UseAgent.isLoading (snd (forAwait (fun updatedState hook =>
                                            UseAgent.setState (Some updatedState) hook)
                                         chunks finalState hook))
       = UseAgent.isLoading hook
    /\ UseAgent.error (snd (forAwait (fun updatedState hook =>
                                        UseAgent.setState (Some updatedState) hook)
                                     chunks finalState hook))
       = UseAgent.error hook.
Proof.
  induction chunks as [|chunk chunks IH]; intros finalState hook H.
  - cbn. auto.
  - rewrite forAwait_cons. destruct (IH (Some (values chunk))
                                        (UseAgent.setState (Some (values chunk)) hook))
      as (H1 & H2 & H3); [reflexivity|].
    rewrite H1, H2, H3. auto.
Qed.

Lemma forAwait_last {U} (onUpdate : Partial -> U -> U) (chunks : list Chunk) :
  forall (finalState : option Partial) (ui : U) (obj : Partial),
    fst (forAwait onUpdate chunks finalState ui) = Some obj ->
    finalState = Some obj \/ exists chunk, In chunk chunks /\ values chunk = obj.
Proof.
  induction chunks as [|chunk chunks IH]; intros finalState ui obj H.
  - left. exact H.
  - rewrite forAwait_cons in H. destruct (IH _ _ _ H) as [E|(c & Hin & E)].
    + right. exists chunk. split; [now left | congruence].
    + right. exists c. split; [now right | assumption].
Qed.

(** No node writes [query]. *)
Lemma pregel_no_query (fuel : nat) :
  forall n state w final chunks w',
    pregel (buildResearchGraph env) fuel n state w = ((Ok final, chunks), w') ->
    Forall (fun chunk => lookup key_query (values chunk) = None) chunks.
Proof.
  induction fuel as [|fuel IH]; intros n state w final chunks w' Ep; [discriminate|].
  cbn [pregel edges buildResearchGraph] in Ep.
  destruct (node_shape env n state w) as (r & w1 & E & _ & S).
  unfold step, bind, ret in Ep. cbn [nodes buildResearchGraph] in Ep. rewrite E in Ep.
  assert (Hq : lookup key_query (update r) = None).
  { destruct S as [[message ->]|S]; [reflexivity|].
    destruct n; cbn [SuccessUpdate] in S.
    - destruct S as (e & m & ->). reflexivity.
    - destruct S as [(hits & ->)|(_ & e & ->)]; reflexivity.
    - destruct S as (rel & ->). reflexivity.
    - destruct S as (notes & ->). reflexivity.
    - destruct S as (guide & ->). reflexivity. }
  destruct (edge n _) as [n'|].
  - destruct (pregel (buildResearchGraph env) fuel n' _ w1) as [[o cs] w2] eqn:Ep'.
    inversion Ep; subst. constructor; [exact Hq|]. eapply IH. exact Ep'.
  - inversion Ep; subst. constructor; [exact Hq | constructor].
Qed.

(** X13.  [executeQuery] of the [useAgent] hook always settles: whatever
    the query and the collaborators, it ends with [isLoading] false and with
    a [state] that has no [query] field (it is an update a node returned,
    not the state of the run).  Either [error] is null, the state has the status [complete] and
    a report, and the status message is "Complete!"; or [error] is one of the
    messages of a failed run, the state has the status [error], that same
    message and no report, and the status message is "Error occurred". *)
Theorem executeQuery_settles (input : string) (hook : UseAgent.t) (w : World W) :
  exists hook' w' shown,
    UseAgent.executeQuery env input hook w = (hook', w')
    /\ UseAgent.isLoading hook' = false
    /\ UseAgent.state hook' = Some shown
    /\ lookup key_query shown = None
    /\ ((UseAgent.error hook' = None
         /\ lookup key_status shown = Some Status.complete
         /\ lookup key_findings shown <> None
         /\ UseAgent.statusMessage hook' = "Complete!")
        \/ (exists message,
              UseAgent.error hook' = Some message
              /\ RunError message
              /\ lookup key_status shown = Some Status.error
              /\ lookup key_error shown = Some message
              /\ lookup key_findings shown = None
              /\ UseAgent.statusMessage hook' = "Error occurred")).
Proof.
  destruct (run_reaches_end env input w) as (final & chunks & w' & Ep & _ & HR).
  destruct (reachable_gathered HR) as (_ & _ & _ & He).
  destruct (reachable_invariant HR) as [_ HT].
  set (onUpdate := fun updatedState hook => UseAgent.setState (Some updatedState) hook).
  set (hook0 := UseAgent.setState None
                  (UseAgent.setError None (UseAgent.setIsLoading true hook))).
  destruct (@pregel_final_object _ env _ onUpdate _ _ _ _ _ _ _ None hook0
              (initial_running input) Ep)
    as (obj & Eo & Hs & Hf & Herr).
  destruct (@forAwait_hook chunks None hook0 eq_refl) as (H1 & H2 & H3).
  fold onUpdate in H1, H2, H3.
  assert (Hq : lookup key_query obj = None).
  { pose proof (pregel_no_query _ _ _ _ Ep) as HF. rewrite Forall_forall in HF.
    destruct (forAwait_last _ _ _ _ Eo) as [E|(c & Hin & <-)]; [discriminate|].
    now apply HF. }
  unfold UseAgent.executeQuery, executeResearchStreaming, stream, initializeAgent.
  cbn [entry buildResearchGraph]. rewrite Ep. fold hook0. fold onUpdate.
  destruct (forAwait onUpdate chunks None hook0) as [finalState hook1] eqn:Ef.
  cbn [fst snd] in *. subst finalState. rewrite Hs, Herr.
  destruct HT as [[Hst Hfi]|(Hst & Hfi & _)]; rewrite Hst.
  - eexists _, _, obj. split; [reflexivity|]. split; [reflexivity|].
    split; [exact H1|]. split; [exact Hq|]. left.
    cbn [UseAgent.error UseAgent.setIsLoading]. rewrite H3.
    split; [reflexivity|]. split; [now rewrite Hs, Hst|].
    split; [now rewrite Hf|].
    unfold UseAgent.statusMessage. cbn [UseAgent.state UseAgent.setIsLoading].
    rewrite H1, Hs, Hst. reflexivity.
  - destruct (He Hst) as (message & Hm & HE). rewrite Hm.
    assert (Hor : JS.orString (Some message) "Unknown error occurred" = message).
    { destruct HE as [(c & ->)|[(c & ->)|[->|[->|[(c & ->)|(c & ->)]]]]]; reflexivity. }
    rewrite Hor.
    eexists _, _, obj. split; [reflexivity|]. split; [reflexivity|].
    split; [exact H1|]. split; [exact Hq|]. right. exists message.
    split; [reflexivity|]. split; [exact HE|]. split; [now rewrite Hs, Hst|].
    split; [now rewrite Herr|]. split; [now rewrite Hf|].
    unfold UseAgent.statusMessage.
    cbn [UseAgent.state UseAgent.setIsLoading UseAgent.setError].
    rewrite H1, Hs, Hst. reflexivity.
Qed.

Lemma pregel_calls_grow (fuel : nat) :
  forall n state w o chunks w',
    pregel (buildResearchGraph env) fuel n state w = ((o, chunks), w') ->
    exists made, calls w' = (calls w ++ made)%list.
Proof.
  induction fuel as [|fuel IH]; intros n state w o chunks w' Ep.
  - inversion Ep; subst. exists []. now rewrite app_nil_r.
  - cbn [pregel edges buildResearchGraph] in Ep.
    destruct (node_calls env n state w) as (r & w1 & made & E & C & _).
    unfold step, bind, ret in Ep. cbn [nodes buildResearchGraph] in Ep. rewrite E in Ep.
    destruct (edge n _) as [n'|].
    + destruct (pregel (buildResearchGraph env) fuel n' _ w1) as [[o1 cs] w2] eqn:Ep'.
      inversion Ep; subst. destruct (IH _ _ _ _ _ _ Ep') as (made' & C').
      exists (made ++ made')%list. now rewrite C', C, app_assoc.
    + inversion Ep; subst. exists made. exact C.
Qed.

(** The first thing a run does is to put the query to the LLM. *)
Lemma run_first_call (input : string) (w : World W) :
  exists final chunks w' made,
    pregel (buildResearchGraph env) recursionLimit Node.query_parser
           (merge channelDefaults (initialState input)) w = ((Ok final, chunks), w')
    /\ calls w' = (calls w ++ LLMCall (QUERY_ENHANCEMENT_PROMPT input) :: made)%list.
Proof.
  destruct (run_reaches_end env input w) as (final & chunks & w' & Ep & _ & _).
  exists final, chunks, w'. pose proof Ep as Ep0.
  pose (fuel := 24). change recursionLimit with (S fuel) in Ep. clearbody fuel.
  cbn [pregel edges buildResearchGraph] in Ep.
  unfold step, bind, ret in Ep. cbn [nodes buildResearchGraph nodeFn] in Ep.
  pose proof (parseQuery_cases env (merge channelDefaults (initialState input)) w) as H.
  change (query (merge channelDefaults (initialState input))) with input in H.
  destruct (llm_invoke env _ _) as [[response|message] c]; rewrite H in Ep; clear H; fields.
  - destruct (pregel (buildResearchGraph env) fuel Node.search _ _) as [[o cs] w2] eqn:Ep'.
    destruct (pregel_calls_grow _ _ _ _ Ep') as (made & C). cbn [calls] in C.
    inversion Ep; subst. exists made. split; [exact Ep0|]. now rewrite C, <- app_assoc.
  - inversion Ep; subst. exists []. split; [exact Ep0 | reflexivity].
Qed.

(** X14.  Pressing Enter in the application on a text that is empty or
    only white space changes nothing and calls no collaborator.  On any other
    text the application marks the query as submitted and runs the agent on
    the trimmed text: the first call made is the query-enhancement prompt for
    the trimmed text, the run has settled ([isLoading] is false) when the
    handler returns, and the text of the input field is left as it was. *)
Theorem pressEnter_runs_on_trimmed_text (text : string) (app : App.t) (w : World W) :
  (blank text = true /\ App.pressEnter env text app w = (app, w))
  \/ (exists app' w' made,
        JS.trim text <> ""
        /\ App.pressEnter env text app w = (app', w')
        /\ calls w' = (calls w ++ LLMCall (QUERY_ENHANCEMENT_PROMPT (JS.trim text))
                                  :: made)%list
        /\ App.hasSubmitted app' = true
        /\ UseAgent.isLoading (App.agent app') = false
        /\ App.query app' = App.query app).
Proof.
  unfold App.pressEnter, QueryInput.handleSubmit.
  destruct (JS.trim text) as [|c t] eqn:E.
  - left. split; [now apply trim_empty | reflexivity].
  - right. cbn [String.length Nat.ltb Nat.leb fst snd].
    destruct (run_first_call (String c t) w) as (final & chunks & w' & made & Ep & C).
    unfold App.handleSubmit, UseAgent.executeQuery, executeResearchStreaming, stream,
      initializeAgent.
    cbn [entry buildResearchGraph]. rewrite Ep.
    destruct (forAwait _ chunks None _) as [finalState hook1].
    destruct finalState as [obj|];
      [destruct (lookup key_status obj) as [[]|]|];
      eexists _, w', made; (split; [discriminate|]); (split; [reflexivity|]);
      (split; [exact C|]); repeat split.
Qed.

End Interface.


(* ================================================================= *)
(** ** The helpers of [src/agent/tools/search.ts] *)

Section RegExpFacts.
Import RegExp.

(** *** The matcher *)

Lemma RepeatMatcher_sound (m : Matcher) (r : RegExp.t) :
  (forall x c z, m x c = Some z -> exists y, Reaches r x y /\ c y = Some z) ->
  forall fuel x c z,
    RepeatMatcher m fuel x c = Some z ->
    exists y, Reaches (Star r) x y /\ c y = Some z.
Proof.
  intros Hm. induction fuel as [|fuel IH]; intros x c z H.
  - exists x. split; [constructor | exact H].
  - cbn [RepeatMatcher] in H.
    destruct (m x _) as [z'|] eqn:E.
    + inversion H; subst z'. apply Hm in E as (y & Hy & Hc).
      destruct (String.length (rest y) <? String.length (rest x))%nat eqn:Hlt;
        [|discriminate].
      apply IH in Hc as (y' & Hy' & Hc'). exists y'. split; [|exact Hc'].
      eapply reaches_star_more; [exact Hy | now apply Nat.ltb_lt | exact Hy'].
    + exists x. split; [constructor | exact H].
Qed.

(** Whatever the matcher finds, the pattern matches. *)
Lemma compile_sound (r : RegExp.t) :
  forall x c z, compile r x c = Some z -> exists y, Reaches r x y /\ c y = Some z.
Proof.
  induction r as [|accepts|r1 IH1 r2 IH2|r1 IH1 r2 IH2|r IH|n r IH|]; intros x c z H;
    cbn [compile] in H.
  - exists x. split; [constructor | exact H].
  - destruct (rest x) as [|a s] eqn:E; [discriminate|].
    destruct (accepts a) eqn:Ha; [|discriminate].
    eexists. split; [eapply reaches_char; eassumption | exact H].
  - apply IH1 in H as (y & Hy & H). apply IH2 in H as (y' & Hy' & H).
    exists y'. split; [econstructor; eassumption | exact H].
  - destruct (compile r1 x c) as [z'|] eqn:E.
    + inversion H; subst z'. apply IH1 in E as (y & Hy & Hc).
      exists y. split; [now apply reaches_alt_l | exact Hc].
    + apply IH2 in H as (y & Hy & Hc). exists y. split; [now apply reaches_alt_r | exact Hc].
  - eapply RepeatMatcher_sound; [exact IH | exact H].
  - apply IH in H as (y & Hy & H). eexists. split; [apply reaches_group; exact Hy | exact H].
  - destruct (xorb _ _) eqn:E; [|discriminate].
    exists x. split; [now constructor | exact H].
Qed.

Lemma RepeatMatcher_ext (m : Matcher) :
  (forall x c1 c2, (forall y, c1 y = c2 y) -> m x c1 = m x c2) ->
  forall fuel x c1 c2,
    (forall y, c1 y = c2 y) -> RepeatMatcher m fuel x c1 = RepeatMatcher m fuel x c2.
Proof.
  intros Hm. induction fuel as [|fuel IH]; intros x c1 c2 H; cbn [RepeatMatcher].
  - apply H.
  - rewrite (Hm x _ (fun y => if (String.length (rest y) <? String.length (rest x))%nat
                              then RepeatMatcher m fuel y c2 else None)).
    + now rewrite H.
    + intro y. destruct (_ <? _)%nat; [now apply IH | reflexivity].
Qed.

(** The matcher looks at its continuation only through what it returns. *)
Lemma compile_ext (r : RegExp.t) :
  forall x c1 c2, (forall y, c1 y = c2 y) -> compile r x c1 = compile r x c2.
Proof.
  induction r as [|accepts|r1 IH1 r2 IH2|r1 IH1 r2 IH2|r IH|n r IH|]; intros x c1 c2 H;
    cbn [compile].
  - apply H.
  - destruct (rest x) as [|a s]; [reflexivity|]. destruct (accepts a); [apply H | reflexivity].
  - apply IH1. intro y. now apply IH2.
  - rewrite (IH1 x c1 c2 H), (IH2 x c1 c2 H). reflexivity.
  - now apply RepeatMatcher_ext.
  - apply IH. intro y. apply H.
  - destruct (xorb _ _); [apply H | reflexivity].
Qed.

Lemma RepeatMatcher_fail (m : Matcher) :
  (forall x c, (forall y, c y = None) -> m x c = None) ->
  forall fuel x c, (forall y, c y = None) -> RepeatMatcher m fuel x c = None.
Proof.
  intros Hm. induction fuel as [|fuel IH]; intros x c H; cbn [RepeatMatcher].
  - apply H.
  - rewrite Hm; [apply H|]. intro y. destruct (_ <? _)%nat; [now apply IH | reflexivity].
Qed.

(** A continuation that always fails makes the matcher fail. *)
Lemma compile_fail (r : RegExp.t) :
  forall x c, (forall y, c y = None) -> compile r x c = None.
Proof.
  induction r as [|accepts|r1 IH1 r2 IH2|r1 IH1 r2 IH2|r IH|n r IH|]; intros x c H;
    cbn [compile].
  - apply H.
  - destruct (rest x) as [|a s]; [reflexivity|]. destruct (accepts a); [apply H | reflexivity].
  - apply IH1. intro y. now apply IH2.
  - now rewrite (IH1 x c H), (IH2 x c H).
  - now apply RepeatMatcher_fail.
  - apply IH. intro y. apply H.
  - destruct (xorb _ _); [apply H | reflexivity].
Qed.

(** More fuel than the input is long changes nothing. *)
Lemma RepeatMatcher_fuel (r : RegExp.t) (fuel1 : nat) :
  forall fuel2 x c,
    String.length (rest x) <= fuel1 ->
    String.length (rest x) <= fuel2 ->
    RepeatMatcher (compile r) fuel1 x c = RepeatMatcher (compile r) fuel2 x c.
Proof.
  induction fuel1 as [|fuel1 IH]; intros fuel2 x c H1 H2.
  - destruct fuel2 as [|fuel2]; [reflexivity|]. cbn [RepeatMatcher].
    rewrite compile_fail; [reflexivity|].
    intro y. destruct (_ <? _)%nat eqn:E; [|reflexivity]. apply Nat.ltb_lt in E. lia.
  - destruct fuel2 as [|fuel2]; cbn [RepeatMatcher].
    + rewrite compile_fail; [reflexivity|].
      intro y. destruct (_ <? _)%nat eqn:E; [|reflexivity]. apply Nat.ltb_lt in E. lia.
    + rewrite (compile_ext r x _
                 (fun y => if (String.length (rest y) <? String.length (rest x))%nat
                           then RepeatMatcher (compile r) fuel2 y c else None));
        [reflexivity|].
      intro y. destruct (_ <? _)%nat eqn:E; [|reflexivity]. apply Nat.ltb_lt in E.
      apply IH; lia.
Qed.

(** *** Ways of highest priority *)

Lemma Greedy_empty (x : State) : Greedy Empty x x.
Proof. intros c z H. exact H. Qed.

Lemma Greedy_char (accepts : ascii -> bool) (x : State) (a : ascii) (s : string) :
  rest x = String a s ->
  accepts a = true ->
  Greedy (Char accepts) x {| before := Some a; rest := s; captures := captures x |}.
Proof. intros E Ha c z H. cbn [compile]. now rewrite E, Ha. Qed.

Lemma Greedy_seq (r1 r2 : RegExp.t) (x y z : State) :
  Greedy r1 x y -> Greedy r2 y z -> Greedy (Seq r1 r2) x z.
Proof. intros H1 H2 c w H. cbn [compile]. apply H1. now apply H2. Qed.

Lemma Greedy_alt_l (r1 r2 : RegExp.t) (x y : State) :
  Greedy r1 x y -> Greedy (Alt r1 r2) x y.
Proof. intros H1 c z H. cbn [compile]. now rewrite (H1 c z H). Qed.

Lemma Greedy_alt_r (r1 r2 : RegExp.t) (x y : State) :
  Fails r1 x -> Greedy r2 x y -> Greedy (Alt r1 r2) x y.
Proof. intros H1 H2 c z H. cbn [compile]. rewrite H1. now apply H2. Qed.

Lemma Greedy_group (n : nat) (r : RegExp.t) (x y : State) :
  Greedy r x y ->
  Greedy (Group n r) x
    {| before := before y; rest := rest y;
       captures := (n, substring 0 (String.length (rest x) - String.length (rest y))
                                 (rest x)) :: captures y |}.
Proof. intros H1 c z H. cbn [compile]. apply H1. exact H. Qed.

Lemma Greedy_star_stop (r : RegExp.t) (x : State) : Fails r x -> Greedy (Star r) x x.
Proof.
  intros H1 c z H. cbn [compile]. destruct (String.length (rest x)); cbn [RepeatMatcher].
  - exact H.
  - now rewrite H1.
Qed.

Lemma Greedy_star_more (r : RegExp.t) (x y z : State) :
  Greedy r x y ->
  String.length (rest y) < String.length (rest x) ->
  Greedy (Star r) y z ->
  Greedy (Star r) x z.
Proof.
  intros H1 Hlt H2 c w H. cbn [compile].
  destruct (String.length (rest x)) as [|fuel] eqn:El; [lia|]. cbn [RepeatMatcher].
  rewrite (H1 _ w); [reflexivity|]. cbv beta.
  assert (E : (String.length (rest y) <? String.length (rest x))%nat = true)
    by (apply Nat.ltb_lt; lia).
  rewrite E. rewrite (@RepeatMatcher_fuel r fuel (String.length (rest y)) y c); [|lia|lia].
  apply (H2 c w H).
Qed.

Lemma Fails_char_empty (accepts : ascii -> bool) (x : State) :
  rest x = "" -> Fails (Char accepts) x.
Proof. intros E c. cbn [compile]. now rewrite E. Qed.

Lemma Fails_char (accepts : ascii -> bool) (x : State) (a : ascii) (s : string) :
  rest x = String a s -> accepts a = false -> Fails (Char accepts) x.
Proof. intros E Ha c. cbn [compile]. now rewrite E, Ha. Qed.

Lemma Fails_seq (r1 r2 : RegExp.t) (x : State) : Fails r1 x -> Fails (Seq r1 r2) x.
Proof. intros H c. cbn [compile]. apply H. Qed.

(** *** Strings *)

Lemma substring_prefix (w r : string) :
  substring 0 (String.length (w ++ r) - String.length r) (w ++ r) = w.
Proof.
  rewrite length_append, Nat.add_sub.
  induction w as [|a w IH]; cbn.
  - now destruct r.
  - now rewrite IH.
Qed.

Lemma lastChar_cons (s : string) : forall a, exists c, lastChar (String a s) = Some c.
Proof.
  induction s as [|b s IH]; intro a; [now exists a|].
  destruct (IH b) as (c & E). exists c. exact E.
Qed.

Lemma lastOr_cons (before : option ascii) (a : ascii) (s : string) :
  lastOr before (String a s) = lastOr (Some a) s.
Proof.
  unfold lastOr. destruct s as [|b s]; [reflexivity|].
  destruct (lastChar_cons s b) as (c & E).
  change (lastChar (String a (String b s))) with (lastChar (String b s)). now rewrite E.
Qed.

Lemma lastOr_app (prev : option ascii) (s1 s2 : string) :
  lastOr prev (s1 ++ s2) = lastOr (lastOr prev s1) s2.
Proof.
  revert prev. induction s1 as [|a s1 IH]; intro prev; [reflexivity|].
  cbn [append]. now rewrite !lastOr_cons, IH.
Qed.

Lemma allAscii_complete (c : ascii) : In c allAscii.
Proof.
  unfold allAscii. rewrite <- (ascii_nat_embedding c). apply in_map, in_seq.
  pose proof (nat_ascii_bounded c). lia.
Qed.

Lemma letters_checked :
  forallb (fun p =>
             forallb (fun c => implb (isLetter p && ignoreCase p c) (isLetter c)) allAscii)
          allAscii = true.
Proof. vm_compute. reflexivity. Qed.

(** Under the [i] flag a letter of the pattern matches letters only. *)
Lemma letter_match (p c : ascii) :
  isLetter p = true -> ignoreCase p c = true -> isLetter c = true.
Proof.
  intros Hp Hc. pose proof letters_checked as H. rewrite forallb_forall in H.
  specialize (H p (allAscii_complete p)). rewrite forallb_forall in H.
  specialize (H c (allAscii_complete c)). now rewrite Hp, Hc in H.
Qed.

Lemma classes_checked :
  forallb (fun c => implb (isLetter c) (isWordChar c && negb (isDigit c) && negb (isSpace c))
                    && implb (isDigit c) (isWordChar c && negb (isSpace c)
                                          && negb (Ascii.eqb "." c))
                    && implb (isSpace c) (negb (isWordChar c)))
          allAscii = true.
Proof. vm_compute. reflexivity. Qed.

Lemma letter_class (c : ascii) :
  isLetter c = true -> isWordChar c = true /\ isDigit c = false /\ isSpace c = false.
Proof.
  intro H. pose proof classes_checked as Hc. rewrite forallb_forall in Hc.
  specialize (Hc c (allAscii_complete c)). rewrite H in Hc. cbn [implb] in Hc.
  destruct (isWordChar c), (isDigit c), (isSpace c); cbn in Hc; try discriminate; auto.
Qed.

Lemma digit_class (c : ascii) :
  isDigit c = true ->
  isWordChar c = true /\ isSpace c = false /\ Ascii.eqb "." c = false /\ isLetter c = false.
Proof.
  intro H. pose proof classes_checked as Hc. rewrite forallb_forall in Hc.
  specialize (Hc c (allAscii_complete c)). rewrite H in Hc.
  destruct (isLetter c) eqn:El.
  - destruct (letter_class c El) as (_ & Hd & _). congruence.
  - cbn [implb] in Hc.
    destruct (isWordChar c), (isSpace c), (Ascii.eqb "." c); cbn in Hc;
      try discriminate; auto.
Qed.

Lemma space_class (c : ascii) : isSpace c = true -> isWordChar c = false.
Proof.
  intro H. pose proof classes_checked as Hc. rewrite forallb_forall in Hc.
  specialize (Hc c (allAscii_complete c)). rewrite H in Hc.
  destruct (isWordChar c); [|reflexivity].
  rewrite !andb_true_iff in Hc. destruct Hc as [_ Hc]. discriminate Hc.
Qed.

(** *** Runs of a class, and pattern characters *)

Lemma Greedy_star_class (accepts : ascii -> bool) (block : string) :
  forall (x : State) (r : string),
    allChars accepts block = true ->
    (forall c, firstChar r = Some c -> accepts c = false) ->
    rest x = block ++ r ->
    Greedy (Star (Char accepts)) x
      {| before := lastOr (before x) block; rest := r; captures := captures x |}.
Proof.
  induction block as [|a block IH]; intros x r Hb Hr E.
  - cbn [append] in E. destruct x as [b s cs]. cbn in *. subst s.
    apply Greedy_star_stop. destruct r as [|a r].
    + now apply Fails_char_empty.
    + eapply Fails_char; [reflexivity|]. now apply Hr.
  - cbn [allChars] in Hb. apply andb_true_iff in Hb as [Ha Hb]. cbn [append] in E.
    eapply Greedy_star_more.
    + eapply Greedy_char; eassumption.
    + cbn [rest]. rewrite E. cbn. lia.
    + rewrite lastOr_cons.
      apply (IH {| before := Some a; rest := block ++ r; captures := captures x |} r Hb Hr).
      reflexivity.
Qed.

Lemma Greedy_plus_class (accepts : ascii -> bool) (block : string) (x : State)
    (r : string) :
  (0 <? String.length block)%nat && allChars accepts block = true ->
  (forall c, firstChar r = Some c -> accepts c = false) ->
  rest x = block ++ r ->
  Greedy (Plus (Char accepts)) x
    {| before := lastOr (before x) block; rest := r; captures := captures x |}.
Proof.
  intros Hb Hr E. apply andb_true_iff in Hb as [Hn Hb].
  destruct block as [|a block]; [discriminate Hn|].
  cbn [allChars] in Hb. apply andb_true_iff in Hb as [Ha Hb]. cbn [append] in E.
  unfold Plus. eapply Greedy_seq.
  - eapply Greedy_char; eassumption.
  - rewrite lastOr_cons.
    apply (@Greedy_star_class accepts block
             {| before := Some a; rest := block ++ r; captures := captures x |} r Hb Hr).
    reflexivity.
Qed.

Lemma Greedy_lit (pattern : string) :
  forall (w : string) (x : State) (r : string),
    sameIgnoringCase pattern w = true ->
    rest x = w ++ r ->
    Greedy (Lit pattern) x
      {| before := lastOr (before x) w; rest := r; captures := captures x |}.
Proof.
  induction pattern as [|p pattern IH]; intros w x r Hw E; destruct w as [|a w];
    try discriminate Hw.
  - cbn [append] in E. destruct x as [b s cs]. cbn in *. subst s. apply Greedy_empty.
  - cbn [sameIgnoringCase] in Hw. apply andb_true_iff in Hw as [Ha Hw]. cbn [append] in E.
    cbn [Lit]. eapply Greedy_seq.
    + eapply Greedy_char; eassumption.
    + rewrite lastOr_cons.
      apply (IH w {| before := Some a; rest := w ++ r; captures := captures x |} r Hw).
      reflexivity.
Qed.

Lemma compile_Lit (pattern : string) :
  forall (x : State) (c : Continuation),
    compile (Lit pattern) x c = match readLit pattern x with
                                | Some y => c y
                                | None => None
                                end.
Proof.
  induction pattern as [|p pattern IH]; intros x c; [reflexivity|].
  cbn [Lit compile readLit]. destruct (rest x) as [|a s]; [reflexivity|].
  destruct (ignoreCase p a); [apply IH | reflexivity].
Qed.

Lemma readLit_spec (pattern : string) :
  forall (x : State),
    match readLit pattern x with
    | Some y =>
        stripPrefix pattern (rest x) = Some (rest y)
        /\ captures y = captures x
        /\ exists w, rest x = w ++ rest y
                     /\ sameIgnoringCase pattern w = true
                     /\ before y = lastOr (before x) w
    | None => stripPrefix pattern (rest x) = None
    end.
Proof.
  induction pattern as [|p pattern IH]; intro x.
  - cbn. repeat split. exists "". repeat split.
  - cbn [readLit stripPrefix]. destruct (rest x) as [|a s] eqn:E; [reflexivity|].
    destruct (ignoreCase p a) eqn:Ha; [|reflexivity].
    specialize (IH {| before := Some a; rest := s; captures := captures x |}).
    destruct (readLit pattern _) as [y|]; [|exact IH].
    cbn [rest captures before] in IH. destruct IH as (H1 & H2 & w & H3 & H4 & H5).
    split; [exact H1|]. split; [exact H2|]. exists (String a w).
    cbn [append sameIgnoringCase]. rewrite <- H3, Ha, H4, lastOr_cons. auto.
Qed.

(** *** [optimizeQueryForMigration] *)

Lemma sameIgnoringCase_letters (pattern : string) :
  forall w, sameIgnoringCase pattern w = true ->
            allChars isLetter pattern = true -> allChars isLetter w = true.
Proof.
  induction pattern as [|p pattern IH]; intros [|a w] Hw Hp; try discriminate Hw;
    [reflexivity|].
  cbn in Hw, Hp |- *. apply andb_true_iff in Hw as [Ha Hw]. apply andb_true_iff in Hp as [Hp Hps].
  rewrite (letter_match p a Hp Ha). now apply IH.
Qed.

Lemma lastOr_letters (w : string) :
  forall prev, allChars isLetter w = true -> w <> "" ->
               isWordAt (lastOr prev w) = true.
Proof.
  induction w as [|a w IH]; intros prev Hw Hne; [contradiction|].
  cbn in Hw. apply andb_true_iff in Hw as [Ha Hw]. rewrite lastOr_cons.
  destruct w as [|b w].
  - cbn. apply (letter_class a Ha).
  - apply IH; [assumption | discriminate].
Qed.

Lemma readLit_letters (pattern : string) (x y : State) :
  allChars isLetter pattern = true ->
  pattern <> "" ->
  readLit pattern x = Some y ->
  isWordAt (next x) = true /\ isWordAt (before y) = true.
Proof.
  intros Hp Hne E. pose proof (readLit_spec pattern x) as H. rewrite E in H.
  destruct H as (_ & _ & w & Ex & Hw & Hb).
  pose proof (sameIgnoringCase_letters _ _ Hw Hp) as Hl.
  assert (Hwne : w <> "").
  { intros ->. destruct pattern; [contradiction | discriminate Hw]. }
  split.
  - unfold next. rewrite Ex. destruct w as [|a w]; [contradiction|]. cbn.
    cbn in Hl. apply andb_true_iff in Hl as [Ha _]. apply (letter_class a Ha).
  - rewrite Hb. now apply lastOr_letters.
Qed.

Lemma keywords_are_words :
  Forall (fun keyword => allChars isLetter keyword = true /\ keyword <> "") migrationKeywords.
Proof. repeat constructor; discriminate. Qed.

Lemma keyword_alternative (keyword : string) (x : State) :
  allChars isLetter keyword = true ->
  keyword <> "" ->
  matched (compile (Lit keyword) x (afterKeyword x)) = keywordEnds (rest x) keyword
  /\ (matched (compile (Lit keyword) x (afterKeyword x)) = true ->
      isWordAt (next x) = true).
Proof.
  intros Hl Hne. rewrite compile_Lit. unfold keywordEnds.
  pose proof (readLit_spec keyword x) as H.
  destruct (readLit keyword x) as [y|] eqn:E.
  - destruct H as (Hs & _). rewrite Hs.
    destruct (readLit_letters x Hl Hne E) as [Hn Hb].
    split; [|intros _; exact Hn].
    unfold afterKeyword. cbn [compile before rest next]. unfold next. cbn [rest].
    rewrite Hb. cbn [xorb].
    unfold firstChar. destruct (rest y) as [|a s]; [reflexivity|].
    cbn [isWordAt]. now destruct (isWordChar a).
  - rewrite H. split; [reflexivity | discriminate].
Qed.

Lemma matched_alt (a b : option State) :
  matched (match a with Some z => Some z | None => b end) = matched a || matched b.
Proof. now destruct a. Qed.

Lemma keyword_alternatives (x : State) (others : list string) :
  forall first,
    Forall (fun keyword => allChars isLetter keyword = true /\ keyword <> "")
           (first :: others) ->
    matched (compile (oneOf first others) x (afterKeyword x))
    = existsb (keywordEnds (rest x)) (first :: others)
    /\ (matched (compile (oneOf first others) x (afterKeyword x)) = true ->
        isWordAt (next x) = true).
Proof.
  induction others as [|second others IH]; intros first HF;
    inversion HF as [|? ? [Hl Hn] HF']; subst.
  - cbn [oneOf existsb]. rewrite orb_false_r. now apply keyword_alternative.
  - cbn [oneOf compile]. rewrite matched_alt.
    destruct (keyword_alternative x Hl Hn) as [H1 H2].
    destruct (IH second HF') as [H3 H4].
    split.
    + rewrite H1, H3. reflexivity.
    + intro H. apply orb_true_iff in H as [H|H]; auto.
Qed.

(** The pattern matches at a position exactly when the test says so. *)
Lemma compile_keyword (x : State) :
  matched (compile migrationKeywordPattern x Some) = keywordAt (before x) (rest x).
Proof.
  destruct (@keyword_alternatives x ["upgrad"; "port"; "transition"; "move"] "migrat"
              keywords_are_words) as [H1 H2].
  change (matched (if xorb (isWordAt (before x)) (isWordAt (next x))
                   then compile (oneOf "migrat" ["upgrad"; "port"; "transition"; "move"])
                                x (afterKeyword x)
                   else None)
          = keywordAt (before x) (rest x)).
  unfold keywordAt. change migrationKeywords with ["migrat"; "upgrad"; "port"; "transition"; "move"].
  rewrite <- H1.
  destruct (matched (compile (oneOf _ _) x (afterKeyword x))) eqn:Em.
  - rewrite (H2 eq_refl), xorb_true_r, andb_true_r.
    destruct (negb _); [exact Em | reflexivity].
  - rewrite andb_false_r. destruct (xorb _ _); [exact Em | reflexivity].
Qed.

Lemma scan_keyword (s : string) :
  forall prev, matched (scan migrationKeywordPattern prev s) = keywordIn prev s.
Proof.
  induction s as [|a s IH]; intro prev; cbn [scan keywordIn];
    rewrite matched_alt, compile_keyword; [reflexivity|]. now rewrite IH.
Qed.

Lemma stripPrefix_spec (pattern : string) :
  forall s s',
    stripPrefix pattern s = Some s'
    <-> exists w, s = w ++ s' /\ sameIgnoringCase pattern w = true.
Proof.
  induction pattern as [|p pattern IH]; intros s s'; cbn [stripPrefix].
  - split.
    + intro H. inversion H. now exists "".
    + intros ([|a w] & -> & Hw); [reflexivity | discriminate Hw].
  - destruct s as [|c s].
    + split; [discriminate|]. intros ([|a w] & E & Hw); discriminate.
    + destruct (ignoreCase p c) eqn:Hc.
      * rewrite IH. split.
        -- intros (w & -> & Hw). exists (String c w). cbn. now rewrite Hc, Hw.
        -- intros ([|a w] & E & Hw); [discriminate Hw|]. cbn in E, Hw. inversion E; subst.
           apply andb_true_iff in Hw as [_ Hw]. now exists w.
      * split; [discriminate|]. intros ([|a w] & E & Hw); [discriminate Hw|].
        cbn in E, Hw. inversion E; subst. rewrite Hc in Hw. discriminate Hw.
Qed.

Lemma keywordAt_iff (prev : option ascii) (s : string) :
  keywordAt prev s = true
  <-> isWordAt prev = false
      /\ exists w post,
           s = w ++ post /\ IsMigrationKeyword w /\ isWordAt (firstChar post) = false.
Proof.
  unfold keywordAt. rewrite andb_true_iff, negb_true_iff, existsb_exists. split.
  - intros [Hp (keyword & Hin & He)]. split; [exact Hp|]. unfold keywordEnds in He.
    destruct (stripPrefix keyword s) as [s'|] eqn:E; [|discriminate].
    apply stripPrefix_spec in E as (w & -> & Hw).
    exists w, s'. split; [reflexivity|]. split; [now exists keyword|].
    now apply negb_true_iff.
  - intros [Hp (w & post & -> & (keyword & Hin & Hw) & Hpost)]. split; [exact Hp|].
    exists keyword. split; [exact Hin|]. unfold keywordEnds.
    assert (E : stripPrefix keyword (w ++ post) = Some post)
      by (apply stripPrefix_spec; now exists w).
    rewrite E. now apply negb_true_iff.
Qed.

Lemma keywordIn_iff (s : string) :
  forall prev,
    keywordIn prev s = true
    <-> exists pre w post,
          s = pre ++ w ++ post
          /\ IsMigrationKeyword w
          /\ isWordAt (lastOr prev pre) = false
          /\ isWordAt (firstChar post) = false.
Proof.
  induction s as [|a s IH]; intro prev; cbn [keywordIn]; rewrite orb_true_iff, keywordAt_iff.
  - split.
    + intros [[Hp (w & post & E & Hk & Hpost)]|H]; [|discriminate].
      exists "", w, post. auto.
    + intros ([|c pre] & w & post & E & Hk & Hp & Hpost); [|discriminate E].
      left. split; [exact Hp|]. exists w, post. auto.
  - rewrite IH. split.
    + intros [[Hp (w & post & E & Hk & Hpost)]|(pre & w & post & E & Hk & Hp & Hpost)].
      * exists "", w, post. auto.
      * exists (String a pre), w, post. rewrite lastOr_cons. cbn [append]. rewrite E. auto.
    + intros ([|c pre] & w & post & E & Hk & Hp & Hpost).
      * left. split; [exact Hp|]. exists w, post. auto.
      * right. cbn [append] in E. inversion E; subst. rewrite lastOr_cons in Hp.
        exists pre, w, post. auto.
Qed.

Lemma test_keyword (query : string) :
  test migrationKeywordPattern query = true <-> HasMigrationKeyword query.
Proof.
  unfold test, exec. change (matched (scan migrationKeywordPattern None query) = true
                             <-> HasMigrationKeyword query).
  rewrite scan_keyword, keywordIn_iff. unfold HasMigrationKeyword.
  split; intros (pre & w & post & E & Hk & Hp & Hpost); exists pre, w, post;
    (split; [exact E|]); (split; [exact Hk|]); (split; [|exact Hpost]);
    unfold lastOr in *; destruct (lastChar pre); assumption.
Qed.

Lemma append_inv_head (a b c : string) : a ++ b = a ++ c -> b = c.
Proof. induction a as [|x a IH]; cbn; intro H; [exact H|]. inversion H. now apply IH. Qed.

(** X15.  [optimizeQueryForMigration] appends " official documentation
    guide" exactly when the query holds one of [migrat], [upgrad], [port],
    [transition], [move], in any case, as a word of its own (no letter, digit
    or underscore right before or after it), and appends " migration guide
    upgrade documentation" exactly when it does not. *)
Theorem optimizeQueryForMigration_by_keyword (query : string) :
  (HasMigrationKeyword query
   <-> optimizeQueryForMigration query = query ++ " official documentation guide")
  /\ (~ HasMigrationKeyword query
      <-> optimizeQueryForMigration query
          = query ++ " migration guide upgrade documentation").
Proof.
  pose proof (test_keyword query) as H. unfold optimizeQueryForMigration.
  destruct (test migrationKeywordPattern query); cbn [negb].
  - split; split; try reflexivity.
    + intros _. now apply H.
    + intro Hn. elim Hn. now apply H.
    + intro E. apply append_inv_head in E. discriminate E.
  - split; split; try reflexivity.
    + intro Hk. apply H in Hk. discriminate Hk.
    + intro E. apply append_inv_head in E. discriminate E.
    + intros _ Hk. apply H in Hk. discriminate Hk.
Qed.

(** The suffixes the function appends begin with a space and hold none of
    the five words as a word of its own. *)
Lemma stripPrefix_app (keyword : string) (space : ascii) (suffix : string) :
  allChars isLetter keyword = true ->
  isWordChar space = false ->
  forall s,
    keywordEnds (s ++ String space suffix) keyword = keywordEnds s keyword.
Proof.
  intros Hl Hs. unfold keywordEnds. induction keyword as [|p keyword IH]; intro s.
  - cbn [stripPrefix]. destruct s; cbn; [now rewrite Hs | reflexivity].
  - cbn in Hl. apply andb_true_iff in Hl as [Hp Hl]. cbn [stripPrefix].
    destruct s as [|c s]; cbn [append].
    + destruct (ignoreCase p space) eqn:E; [|reflexivity].
      pose proof (letter_match p space Hp E) as Hsp.
      destruct (letter_class space Hsp) as [Hw _]. congruence.
    + destruct (ignoreCase p c); [now apply IH | reflexivity].
Qed.

Lemma keywordAt_app (prev : option ascii) (s : string) (space : ascii) (suffix : string) :
  isWordChar space = false ->
  keywordAt prev (s ++ String space suffix) = keywordAt prev s.
Proof.
  intro Hs. unfold keywordAt. f_equal.
  pose proof keywords_are_words as HK.
  induction HK as [|keyword keywords [Hl _] _ IH]; [reflexivity|].
  cbn [existsb]. now rewrite IH, (@stripPrefix_app keyword space suffix Hl Hs).
Qed.

Lemma keywordIn_app (s : string) (space : ascii) (suffix : string) :
  isWordChar space = false ->
  keywordIn (Some space) suffix = false ->
  forall prev, keywordIn prev (s ++ String space suffix) = keywordIn prev s.
Proof.
  intros Hs Hsuffix. induction s as [|a s IH]; intro prev.
  - cbn [append keywordIn]. rewrite Hsuffix.
    rewrite <- (@keywordAt_app prev "" space suffix Hs). reflexivity.
  - cbn [append keywordIn]. rewrite IH. f_equal.
    apply (@keywordAt_app prev (String a s) space suffix Hs).
Qed.

Lemma optimizeQueryForMigration_again (query : string) :
  exists suffix,
    (suffix = " official documentation guide"
     \/ suffix = " migration guide upgrade documentation")
    /\ optimizeQueryForMigration query = query ++ suffix
    /\ optimizeQueryForMigration (optimizeQueryForMigration query)
       = query ++ suffix ++ suffix
    /\ (HasMigrationKeyword (optimizeQueryForMigration query)
        <-> HasMigrationKeyword query).
Proof.
  assert (H : forall suffix,
             keywordIn (Some " "%char) suffix = false ->
             test migrationKeywordPattern (query ++ String " " suffix)
             = test migrationKeywordPattern query).
  { intros suffix Hs. unfold test, exec.
    change (matched (scan migrationKeywordPattern None (query ++ String " " suffix))
            = matched (scan migrationKeywordPattern None query)).
    rewrite !scan_keyword. now apply keywordIn_app. }
  destruct (test migrationKeywordPattern query) eqn:E.
  - exists " official documentation guide". split; [now left|].
    assert (E1 : optimizeQueryForMigration query = query ++ " official documentation guide")
      by (unfold optimizeQueryForMigration; now rewrite E).
    assert (E2 : test migrationKeywordPattern (query ++ " official documentation guide")
                 = true) by (apply H; vm_compute; reflexivity).
    rewrite E1. split; [reflexivity|]. split.
    + unfold optimizeQueryForMigration. rewrite E2. cbn [negb]. apply append_assoc.
    + rewrite <- !test_keyword, E2, E. reflexivity.
  - exists " migration guide upgrade documentation". split; [now right|].
    assert (E1 : optimizeQueryForMigration query
                 = query ++ " migration guide upgrade documentation")
      by (unfold optimizeQueryForMigration; now rewrite E).
    assert (E2 : test migrationKeywordPattern
                   (query ++ " migration guide upgrade documentation") = false)
      by (apply H; vm_compute; reflexivity).
    rewrite E1. split; [reflexivity|]. split.
    + unfold optimizeQueryForMigration. rewrite E2. cbn [negb]. apply append_assoc.
    + rewrite <- !test_keyword, E2, E. reflexivity.
Qed.

(** X16.  [optimizeQueryForMigration] is not idempotent: on every query,
    applying it to its own result gives something else than the result.  The
    suffix it appends, one of its two non-empty suffixes, never adds or
    removes a keyword, so the second application appends the same suffix once
    more. *)
Theorem optimizeQueryForMigration_twice (query : string) :
  optimizeQueryForMigration (optimizeQueryForMigration query)
  <> optimizeQueryForMigration query
  /\ exists suffix,
       (suffix = " official documentation guide"
        \/ suffix = " migration guide upgrade documentation")
       /\ optimizeQueryForMigration query = query ++ suffix
       /\ optimizeQueryForMigration (optimizeQueryForMigration query)
          = query ++ suffix ++ suffix
       /\ (HasMigrationKeyword (optimizeQueryForMigration query)
           <-> HasMigrationKeyword query).
Proof.
  destruct (optimizeQueryForMigration_again query) as (suffix & Hs & E1 & E2 & Hk).
  split; [|exists suffix; repeat split; try assumption; apply Hk].
  rewrite E2, E1. intro E. apply (f_equal String.length) in E.
  rewrite !length_append in E.
  assert (0 < String.length suffix) by (destruct Hs as [-> | ->]; cbn; lia).
  lia.
Qed.


(** *** [extractVersions] *)

Lemma Fails_char_then (accepts : ascii -> bool) (r : RegExp.t) (x : State) :
  (forall a s, rest x = String a s -> accepts a = true ->
               Fails r {| before := Some a; rest := s; captures := captures x |}) ->
  Fails (Seq (Char accepts) r) x.
Proof.
  intros H c. cbn [compile]. destruct (rest x) as [|a s] eqn:E; [reflexivity|].
  destruct (accepts a) eqn:Ha; [|reflexivity]. now apply (H a s).
Qed.

Lemma digits_first (d : string) :
  digits d = true -> exists a s, d = String a s /\ isDigit a = true.
Proof.
  unfold digits. intro H. apply andb_true_iff in H as [Hn Hd].
  destruct d as [|a s]; [discriminate Hn|]. cbn in Hd. apply andb_true_iff in Hd as [Ha _].
  now exists a, s.
Qed.

Lemma endsVersion_first (r : string) (c : ascii) :
  endsVersion r = true -> firstChar r = Some c -> isDigit c = false.
Proof.
  destruct r as [|a r]; [discriminate|]. cbn. intros H E. inversion E; subst.
  apply andb_true_iff in H as [H _]. now apply negb_true_iff.
Qed.

(** After a block of digits inside a version comes no digit. *)
Lemma groups_first (more : list string) (r : string) (c : ascii) :
  endsVersion r = true -> firstChar (groups more ++ r) = Some c -> isDigit c = false.
Proof.
  destruct more as [|d more]; cbn [groups append].
  - apply endsVersion_first.
  - intros _ E. cbn in E. inversion E. reflexivity.
Qed.

Lemma Fails_group_digits (x : State) :
  (forall c, firstChar (rest x) = Some c -> isDigit c = false) ->
  Fails (Seq (Char (Ascii.eqb ".")) (Plus (Char isDigit))) x
  \/ exists s, rest x = String "." s.
Proof.
  intro H. destruct (rest x) as [|a s] eqn:E.
  - left. apply Fails_seq. now apply Fails_char_empty.
  - destruct (Ascii.eqb "." a) eqn:Ea.
    + right. apply Ascii.eqb_eq in Ea. subst a. now exists s.
    + left. apply Fails_seq. eapply Fails_char; eassumption.
Qed.

Lemma Greedy_groups (more : list string) :
  forall (x : State) (r : string),
    Forall (fun d => digits d = true) more ->
    endsVersion r = true ->
    rest x = groups more ++ r ->
    Greedy (Star (Seq (Char (Ascii.eqb ".")) (Plus (Char isDigit)))) x
      {| before := lastOr (before x) (groups more); rest := r; captures := captures x |}.
Proof.
  induction more as [|d more IH]; intros x r HF Hr E.
  - cbn [groups append] in *. destruct x as [b s cs]. cbn in *. subst s.
    apply Greedy_star_stop. destruct r as [|a r].
    + apply Fails_seq. now apply Fails_char_empty.
    + cbn [endsVersion] in Hr. apply andb_true_iff in Hr as [Ha Hdot].
      apply negb_true_iff in Hdot.
      apply Fails_char_then. intros a' s E' Hacc. cbn in E'. inversion E'; subst a' s.
      rewrite Hacc in Hdot. cbn [andb] in Hdot.
      unfold Plus. apply Fails_seq. destruct r as [|d r].
      * now apply Fails_char_empty.
      * eapply Fails_char; [reflexivity | exact Hdot].
  - inversion HF as [|? ? Hd HF']; subst. cbn [groups] in *.
    rewrite !append_assoc in E. cbn [append] in E.
    eapply Greedy_star_more.
    + eapply Greedy_seq.
      * eapply Greedy_char; [exact E | reflexivity].
      * eapply (@Greedy_plus_class isDigit d _ (groups more ++ r) Hd).
        -- intros c. now apply groups_first.
        -- reflexivity.
    + cbn [rest]. rewrite E. cbn [String.length]. rewrite !length_append. lia.
    + match goal with
      | |- Greedy _ ?y _ => pose proof (IH y r HF' Hr eq_refl) as H
      end.
      cbn [before captures] in H. cbn [before captures append].
      rewrite lastOr_cons, lastOr_app. exact H.
Qed.

Lemma Greedy_version (first : string) (more : list string) (x : State) (r : string) :
  digits first = true ->
  Forall (fun d => digits d = true) more ->
  endsVersion r = true ->
  rest x = dotted first more ++ r ->
  Greedy versionPattern x
    {| before := lastOr (before x) (dotted first more); rest := r; captures := captures x |}.
Proof.
  intros Hf Hm Hr E. unfold dotted in *. rewrite append_assoc in E.
  unfold versionPattern. eapply Greedy_seq.
  - eapply (@Greedy_plus_class isDigit first x (groups more ++ r) Hf).
    + intro c. now apply groups_first.
    + exact E.
  - match goal with
    | |- Greedy _ ?y _ => pose proof (@Greedy_groups more y r Hm Hr eq_refl) as H
    end.
    cbn [before captures] in H. cbn [before captures]. rewrite lastOr_app. exact H.
Qed.

Lemma spaces_checked :
  forallb (fun c => implb (isSpace c) (negb (isDigit c) && negb (Ascii.eqb "." c)
                                       && negb (isLetter c)))
          allAscii = true.
Proof. vm_compute. reflexivity. Qed.

Lemma space_not_digit (c : ascii) :
  isSpace c = true -> isDigit c = false /\ Ascii.eqb "." c = false /\ isLetter c = false.
Proof.
  intro H. pose proof spaces_checked as Hc. rewrite forallb_forall in Hc.
  specialize (Hc c (allAscii_complete c)). rewrite H in Hc. cbn [implb] in Hc.
  destruct (isDigit c), (Ascii.eqb "." c), (isLetter c); cbn in Hc; try discriminate; auto.
Qed.

Lemma spaces_first (ws : string) :
  spaces ws = true -> exists a s, ws = String a s /\ isSpace a = true.
Proof.
  unfold spaces. intro H. apply andb_true_iff in H as [Hn Hd].
  destruct ws as [|a s]; [discriminate Hn|]. cbn in Hd. apply andb_true_iff in Hd as [Ha _].
  now exists a, s.
Qed.

Lemma endsVersion_spaces (ws r : string) : spaces ws = true -> endsVersion (ws ++ r) = true.
Proof.
  intro H. destruct (spaces_first ws H) as (a & s & -> & Ha).
  destruct (space_not_digit a Ha) as (Hd & Hdot & _).
  cbn [append endsVersion]. now rewrite Hd, Hdot.
Qed.

Lemma DottedNumber_first (a : string) :
  DottedNumber a -> exists d s, a = String d s /\ isDigit d = true.
Proof.
  intros (first & more & -> & Hf & _). destruct (digits_first first Hf) as (d & s & -> & Hd).
  exists d, (s ++ groups more). split; [reflexivity | exact Hd].
Qed.

(** The pattern after the optional [from]: on two versions with [to]
    between them it matches, and captures them. *)
Lemma body_matches (a ws1 to ws2 b post : string) (x : State) :
  DottedNumber a -> DottedNumber b ->
  spaces ws1 = true -> spaces ws2 = true ->
  sameIgnoringCase "to" to = true ->
  endsVersion post = true ->
  rest x = a ++ ws1 ++ to ++ ws2 ++ b ++ post ->
  exists z,
    compile transitionBody x Some = Some z
    /\ captures z = (2, b) :: (1, a) :: captures x
    /\ rest z = post.
Proof.
  intros Ha Hb H1 H2 Hto Hpost E.
  destruct (DottedNumber_first Hb) as (db & sb & Eb & Hdb).
  destruct Ha as (fa & ma & -> & Hfa & Hma). destruct Hb as (fb & mb & Eb' & Hfb & Hmb).
  assert (Hto1 : exists t s, to = String t s /\ isSpace t = false).
  { destruct to as [|t s]; [discriminate Hto|]. exists t, s. split; [reflexivity|].
    cbn in Hto. apply andb_true_iff in Hto as [Ht _].
    assert (Hl : isLetter t = true) by (apply (letter_match "t" t); [reflexivity | exact Ht]).
    apply (letter_class t Hl). }
  destruct Hto1 as (t & s & Eto & Ht).
  assert (G : exists z,
             Greedy transitionBody x z
             /\ captures z = (2, b) :: (1, dotted fa ma) :: captures x
             /\ rest z = post).
  { eexists. split.
    - unfold transitionBody.
      eapply Greedy_seq.
      { eapply Greedy_group.
        eapply (@Greedy_version fa ma x (ws1 ++ to ++ ws2 ++ b ++ post) Hfa Hma).
        - now apply endsVersion_spaces.
        - exact E. }
      eapply Greedy_seq.
      { eapply (@Greedy_plus_class isSpace ws1 _ (to ++ ws2 ++ b ++ post) H1).
        - intros c Hc. rewrite Eto in Hc. cbn in Hc. inversion Hc; subst. exact Ht.
        - reflexivity. }
      eapply Greedy_seq.
      { apply Greedy_alt_l.
        eapply (@Greedy_lit "to" to _ (ws2 ++ b ++ post) Hto). reflexivity. }
      eapply Greedy_seq.
      { eapply (@Greedy_plus_class isSpace ws2 _ (b ++ post) H2).
        - intros c Hc. rewrite Eb in Hc. cbn in Hc. inversion Hc; subst.
          apply (digit_class c Hdb).
        - reflexivity. }
      eapply Greedy_group.
      eapply (@Greedy_version fb mb _ post Hfb Hmb Hpost). cbn [rest]. now rewrite Eb'.
    - cbn [captures rest]. rewrite E, !substring_prefix, Eb'. split; reflexivity. }
  destruct G as (z & HG & Hc & Hr). exists z. split; [now apply HG | split; assumption].
Qed.

Lemma body_fails (x : State) :
  (forall c, firstChar (rest x) = Some c -> isDigit c = false) ->
  Fails transitionBody x.
Proof.
  intros H c. unfold transitionBody, versionPattern, Plus. cbn [compile].
  destruct (rest x) as [|a s]; [reflexivity|]. now rewrite (H a eq_refl).
Qed.

(** Positions before the first digit of the input: the pattern matches
    there only by reading [from] and white space up to that digit, and so
    as its body matches at that digit. *)
Section BeforeTheVersions.

Variable A : string.
Hypothesis A_first : atDigit A = true.

Lemma body_before (p : string) (x : State) :
  allChars notDigit p = true ->
  rest x = p ++ A ->
  p <> "" ->
  Fails transitionBody x.
Proof.
  intros Hp E Hne. destruct p as [|c q]; [contradiction|].
  apply body_fails. intros c' Hc'. rewrite E in Hc'.
  cbn in Hc'. inversion Hc'; subst. cbn in Hp. apply andb_true_iff in Hp as [Hp _].
  now apply negb_true_iff.
Qed.

Lemma space_at_digit (x : State) (k : Continuation) :
  rest x = A -> compile (Char isSpace) x k = None.
Proof.
  intro E. cbn [compile]. rewrite E. destruct A as [|d s]; [reflexivity|].
  cbn in A_first. destruct (digit_class d A_first) as (_ & Hs & _). now rewrite Hs.
Qed.

Lemma spaces_then_body (p : string) :
  forall (fuel : nat) (x : State),
    allChars notDigit p = true ->
    rest x = p ++ A ->
    captures x = [] ->
    RepeatMatcher (compile (Char isSpace)) fuel x (fun y => compile transitionBody y Some)
    = None
    \/ Skips A (RepeatMatcher (compile (Char isSpace)) fuel x
                (fun y => compile transitionBody y Some)).
Proof.
  induction p as [|c q IH]; intros fuel x Hp E Hc.
  - right. exists x. split; [exact E|]. split; [exact Hc|].
    destruct fuel as [|fuel]; cbn [RepeatMatcher]; [reflexivity|].
    now rewrite (space_at_digit x _ E).
  - pose proof (@body_before (String c q) x Hp E ltac:(discriminate)) as HF.
    destruct fuel as [|fuel]; cbn [RepeatMatcher]; [left; apply HF|].
    cbn [compile]. cbn [append] in E. rewrite E.
    cbn in Hp. apply andb_true_iff in Hp as [_ Hq].
    destruct (isSpace c).
    + cbn [rest String.length].
      assert (El : (String.length (q ++ A) <? S (String.length (q ++ A)))%nat = true)
        by (apply Nat.ltb_lt; lia).
      rewrite El.
      destruct (IH fuel {| before := Some c; rest := q ++ A; captures := captures x |}
                  Hq eq_refl Hc) as [H|H].
      * cbn [compile] in H. rewrite H. left. apply HF.
      * destruct H as (y & Ey & Hcy & Hy). cbn [compile] in Hy. rewrite Hy.
        destruct (compile transitionBody y Some) as [z|] eqn:Ez.
        -- right. exists y. now rewrite Ez.
        -- left. apply HF.
    + left. apply HF.
Qed.

Lemma readLit_before (pattern : string) :
  allChars isLetter pattern = true ->
  forall (p : string) (x : State),
    allChars notDigit p = true ->
    rest x = p ++ A ->
    captures x = [] ->
    match readLit pattern x with
    | Some y => exists p', allChars notDigit p' = true /\ rest y = p' ++ A /\ captures y = []
    | None => True
    end.
Proof.
  induction pattern as [|l pattern IH]; intros Hl p x Hp E Hc.
  - cbn [readLit]. now exists p.
  - cbn in Hl. apply andb_true_iff in Hl as [Hl Hls]. cbn [readLit].
    destruct p as [|c q]; cbn [append] in E.
    + rewrite E. destruct A as [|d s]; [exact I|]. cbn in A_first.
      destruct (ignoreCase l d) eqn:Em; [|exact I].
      pose proof (letter_match l d Hl Em) as Hld.
      destruct (digit_class d A_first) as (_ & _ & _ & Hn). congruence.
    + rewrite E. destruct (ignoreCase l c); [|exact I].
      cbn in Hp. apply andb_true_iff in Hp as [_ Hq].
      apply (IH Hls q); [exact Hq | reflexivity | exact Hc].
Qed.

Lemma from_then_body (p : string) (x : State) :
  allChars notDigit p = true ->
  rest x = p ++ A ->
  captures x = [] ->
  compile fromPrefix x (fun y => compile transitionBody y Some) = None
  \/ Skips A (compile fromPrefix x (fun y => compile transitionBody y Some)).
Proof.
  intros Hp E Hc. unfold fromPrefix. cbn [compile]. rewrite compile_Lit.
  pose proof (@readLit_before "from" eq_refl p x Hp E Hc) as H.
  destruct (readLit "from" x) as [y|]; [|now left].
  destruct H as (p' & Hp' & Ey & Hcy).
  unfold Plus.
  change (compile (Seq (Char isSpace) (Star (Char isSpace))) y
            (fun y0 => compile transitionBody y0 Some))
    with (compile (Char isSpace) y
            (fun y1 => compile (Star (Char isSpace)) y1
                         (fun y0 => compile transitionBody y0 Some))).
  destruct p' as [|c q]; cbn [append] in Ey.
  - left. now apply space_at_digit.
  - cbn [compile]. rewrite Ey. destruct (isSpace c); [|now left].
    cbn [rest captures]. cbn in Hp'. apply andb_true_iff in Hp' as [_ Hq].
    pose proof (@spaces_then_body q (String.length (q ++ A))
                  {| before := Some c; rest := q ++ A; captures := captures y |}
                  Hq eq_refl Hcy) as H.
    cbn [compile] in H. exact H.
Qed.

Lemma pattern_before (p : string) (x : State) :
  allChars notDigit p = true ->
  rest x = p ++ A ->
  captures x = [] ->
  (p <> "" /\ compile transitionPattern x Some = None)
  \/ Skips A (compile transitionPattern x Some).
Proof.
  intros Hp E Hc.
  change (compile transitionPattern x Some)
    with (match compile fromPrefix x (fun y => compile transitionBody y Some) with
          | Some z => Some z
          | None => compile transitionBody x Some
          end).
  assert (Hx : (p <> "" /\ compile transitionBody x Some = None)
               \/ Skips A (compile transitionBody x Some)).
  { destruct p as [|c q].
    - right. now exists x.
    - left. split; [discriminate|].
      apply (@body_before (String c q) x Hp E). discriminate. }
  destruct (from_then_body p x Hp E Hc) as [H|(y & Ey & Hcy & Hy)].
  - now rewrite H.
  - rewrite Hy. destruct (compile transitionBody y Some) as [z|] eqn:Ez; [|exact Hx].
    right. exists y. now rewrite Ez.
Qed.

Lemma scan_skips (p : string) :
  forall prev,
    allChars notDigit p = true ->
    exists y,
      rest y = A /\ captures y = []
      /\ scan transitionPattern prev (p ++ A)
         = match compile transitionBody y Some with
           | Some z => Some z
           | None =>
               match A with
               | String d s => scan transitionPattern (Some d) s
               | EmptyString => None
               end
           end.
Proof.
  induction p as [|c q IH]; intros prev Hp.
  - destruct (@pattern_before "" {| before := prev; rest := A; captures := [] |}
                Hp eq_refl eq_refl) as [[Hne _]|(y & Ey & Hcy & Hy)]; [contradiction|].
    exists y. split; [exact Ey|]. split; [exact Hcy|].
    cbn [append]. clear A_first Ey. destruct A as [|d s]; cbn [scan]; now rewrite Hy.
  - cbn [append scan].
    destruct (@pattern_before (String c q)
                {| before := prev; rest := String c (q ++ A); captures := [] |}
                Hp eq_refl eq_refl) as [[_ Hn]|(y & Ey & Hcy & Hy)].
    + rewrite Hn. apply IH. cbn in Hp. now apply andb_true_iff in Hp as [_ Hq].
    + rewrite Hy. destruct (compile transitionBody y Some) as [z|] eqn:Ez.
      * exists y. now rewrite Ez.
      * apply IH. cbn in Hp. now apply andb_true_iff in Hp as [_ Hq].
Qed.

End BeforeTheVersions.

(** X17.  On a query made of text without a digit, a dotted number
    [a], white space, the word [to] in any case, white space, a dotted number
    [b], and a rest that does not continue [b] (no digit, and no dot followed
    by a digit), [extractVersions] returns [a] as the source and [b] as the
    target. *)
Theorem extractVersions_reads_back (pre a ws1 to ws2 b post : string) :
  allChars notDigit pre = true ->
  DottedNumber a -> DottedNumber b ->
  spaces ws1 = true -> spaces ws2 = true ->
  sameIgnoringCase "to" to = true ->
  endsVersion post = true ->
  extractVersions (pre ++ a ++ ws1 ++ to ++ ws2 ++ b ++ post)
  = {| Versions.source := Some a; Versions.target := Some b |}.
Proof.
  intros Hpre Ha Hb H1 H2 Hto Hpost.
  destruct (@scan_skips (a ++ ws1 ++ to ++ ws2 ++ b ++ post)
              ltac:(destruct (DottedNumber_first Ha) as (d & s & -> & Hd); exact Hd)
              pre None Hpre) as (y & Ey & Hcy & Hy).
  destruct (@body_matches a ws1 to ws2 b post y Ha Hb H1 H2 Hto Hpost Ey)
    as (z & Hz & Hcap & _).
  unfold extractVersions, exec. rewrite Hy, Hz, Hcap, Hcy. reflexivity.
Qed.

(** X18.  On a query with no digit in it [extractVersions] returns
    the empty object: neither a source nor a target. *)
Theorem extractVersions_without_digit (query : string) :
  allChars notDigit query = true ->
  extractVersions query = {| Versions.source := None; Versions.target := None |}.
Proof.
  intro H.
  destruct (@scan_skips "" eq_refl query None H) as (y & Ey & _ & Hy).
  rewrite append_nil_r in Hy.
  unfold extractVersions, exec. rewrite Hy.
  rewrite (@body_fails y); [reflexivity|]. rewrite Ey. discriminate.
Qed.

(** What the parts of the pattern read, whichever way they match. *)
Ltac invert_seq H y H1 H2 := inversion H as [| |? ? ? y ? H1 H2| | | | | |]; subst.
Ltac invert_alt H H1 := inversion H as [| | |? ? ? ? H1|? ? ? ? H1| | | |]; subst.
Ltac invert_group H y H1 := inversion H as [| | | | | | |? ? ? y H1|]; subst.
Ltac star_cases H x y H1 H2 IH2 :=
  induction H as [| | | | |? x|? x y ? H1 ? ? H2 IH2| |]; try discriminate.

Lemma Consumed_trans (s t : string) (x y z : State) :
  Consumed s x y -> Consumed t y z -> Consumed (s ++ t) x z.
Proof.
  intros [E1 C1] [E2 C2]. split; [|congruence]. now rewrite E1, E2, append_assoc.
Qed.

Lemma Reaches_char (f : ascii -> bool) (x y : State) :
  Reaches (Char f) x y -> exists c, f c = true /\ Consumed (String c "") x y.
Proof.
  intro H. inversion H; subst. exists a. split; [assumption|]. split; [assumption|reflexivity].
Qed.

Lemma Reaches_class_star (f : ascii -> bool) (x y : State) :
  Reaches (Star (Char f)) x y -> exists s, allChars f s = true /\ Consumed s x y.
Proof.
  intro H. remember (Star (Char f)) as r eqn:Er.
  star_cases H x y H1 H2 IH2; injection Er as ->.
  - exists "". split; [reflexivity|]. now split.
  - destruct (Reaches_char H1) as (c & Hc & HC).
    destruct (IH2 eq_refl) as (s & Hs & HS).
    exists (String c s). split; [cbn; now rewrite Hc|].
    exact (Consumed_trans HC HS).
Qed.

Lemma Reaches_class_plus (f : ascii -> bool) (x y : State) :
  Reaches (Plus (Char f)) x y ->
  exists s, (0 <? String.length s)%nat && allChars f s = true /\ Consumed s x y.
Proof.
  intro H. unfold Plus in H. invert_seq H x1 H1 H2.
  destruct (Reaches_char H1) as (c & Hc & HC).
  destruct (Reaches_class_star H2) as (s & Hs & HS).
  exists (String c s). split; [cbn; now rewrite Hc|].
  exact (Consumed_trans HC HS).
Qed.

Lemma Reaches_Lit (pattern : string) :
  forall x y,
    Reaches (Lit pattern) x y ->
    exists s, sameIgnoringCase pattern s = true /\ Consumed s x y.
Proof.
  induction pattern as [|p pattern IH]; intros x y H; cbn [Lit] in H.
  - inversion H; subst. exists "". split; [reflexivity|]. now split.
  - invert_seq H x1 H1 H2.
    destruct (Reaches_char H1) as (c & Hc & HC).
    destruct (IH _ _ H2) as (s & Hs & HS).
    exists (String c s). split; [cbn; now rewrite Hc|].
    exact (Consumed_trans HC HS).
Qed.

Lemma Reaches_groups (x y : State) :
  Reaches (Star (Seq (Char (Ascii.eqb ".")) (Plus (Char isDigit)))) x y ->
  exists more, Forall (fun d => digits d = true) more /\ Consumed (groups more) x y.
Proof.
  intro H. remember (Star (Seq (Char (Ascii.eqb ".")) (Plus (Char isDigit)))) as r eqn:Er.
  star_cases H x y H1 H2 IH2; injection Er as ->.
  - exists []. split; [constructor|]. now split.
  - invert_seq H1 x1 Hdot Hd.
    destruct (Reaches_char Hdot) as (c & Hc & HC). apply Ascii.eqb_eq in Hc. subst c.
    destruct (Reaches_class_plus Hd) as (d & Hd' & HD).
    destruct (IH2 eq_refl) as (more & Hm & HM).
    exists (d :: more). split; [now constructor|].
    cbn [groups]. rewrite <- append_assoc.
    exact (Consumed_trans (Consumed_trans HC HD) HM).
Qed.

Lemma Reaches_version (x y : State) :
  Reaches versionPattern x y -> exists a, DottedNumber a /\ Consumed a x y.
Proof.
  intro H. unfold versionPattern in H. invert_seq H x1 H1 H2.
  destruct (Reaches_class_plus H1) as (first & Hf & HF).
  destruct (Reaches_groups H2) as (more & Hm & HM).
  exists (dotted first more). split; [now exists first, more|].
  exact (Consumed_trans HF HM).
Qed.

Lemma Reaches_capture (n : nat) (x y : State) :
  Reaches (Group n versionPattern) x y ->
  exists a, DottedNumber a /\ rest x = a ++ rest y /\ captures y = (n, a) :: captures x.
Proof.
  intro H. invert_group H x1 H1.
  destruct (Reaches_version H1) as (a & Ha & E & C).
  exists a. split; [exact Ha|]. cbn [rest captures]. split; [exact E|].
  now rewrite E, substring_prefix, C.
Qed.

Lemma Reaches_separator (x y : State) :
  Reaches (Alt (Lit "to")
             (Seq (Char (ignoreCase (ascii_of_nat 226)))
                (Seq (Char outside) (Char outside)))) x y ->
  exists sep, Separator sep /\ Consumed sep x y.
Proof.
  intro H. invert_alt H H1.
  - destruct (@Reaches_Lit "to" _ _ H1) as (sep & Hto & HC).
    exists sep. split; [now left | exact HC].
  - invert_seq H1 x1 H2 H3. invert_seq H3 x2 H4 H5.
    destruct (Reaches_char H2) as (c1 & Hc1 & HC1).
    destruct (Reaches_char H4) as (c2 & Hc2 & HC2).
    destruct (Reaches_char H5) as (c3 & Hc3 & HC3).
    exists (String c1 (String c2 (String c3 ""))). split.
    + right. exists c1, c2, c3. repeat split; assumption.
    + exact (Consumed_trans HC1 (Consumed_trans HC2 HC3)).
Qed.

Lemma Reaches_body (x z : State) :
  Reaches transitionBody x z ->
  exists a ws1 sep ws2 b,
    DottedNumber a /\ DottedNumber b
    /\ spaces ws1 = true /\ spaces ws2 = true
    /\ Separator sep
    /\ rest x = a ++ ws1 ++ sep ++ ws2 ++ b ++ rest z
    /\ captures z = (2, b) :: (1, a) :: captures x.
Proof.
  intro H. unfold transitionBody in H.
  invert_seq H x1 Ha H1. invert_seq H1 x2 Hs1 H2.
  invert_seq H2 x3 Hsep H3. invert_seq H3 x4 Hs2 Hb.
  destruct (Reaches_capture Ha) as (a & Da & Ea & Ca).
  destruct (Reaches_class_plus Hs1) as (ws1 & W1 & E1 & C1).
  destruct (Reaches_separator Hsep) as (sep & Hto & E2 & C2).
  destruct (Reaches_class_plus Hs2) as (ws2 & W2 & E3 & C3).
  destruct (Reaches_capture Hb) as (b & Db & Eb & Cb).
  exists a, ws1, sep, ws2, b. repeat split; try assumption.
  - now rewrite Ea, E1, E2, E3, Eb.
  - now rewrite Cb, C3, C2, C1, Ca.
Qed.

Lemma Reaches_from (x y : State) :
  Reaches (Opt fromPrefix) x y -> exists s, Consumed s x y.
Proof.
  intro H. unfold Opt, fromPrefix in H. invert_alt H H1.
  - invert_seq H1 x1 H2 H3.
    destruct (@Reaches_Lit "from" _ _ H2) as (s & _ & HS).
    destruct (Reaches_class_plus H3) as (ws & _ & HW).
    exists (s ++ ws). exact (Consumed_trans HS HW).
  - inversion H1; subst. exists "". now split.
Qed.

Lemma scan_found (r : RegExp.t) (input : string) :
  forall prev z,
    scan r prev input = Some z ->
    exists pre s prev',
      input = pre ++ s
      /\ compile r {| before := prev'; rest := s; captures := [] |} Some = Some z.
Proof.
  induction input as [|c input IH]; intros prev z H; cbn [scan] in H.
  - destruct (compile r _ Some) as [z'|] eqn:E; [|discriminate].
    exists "", "", prev. split; [reflexivity|]. now rewrite E.
  - destruct (compile r _ Some) as [z'|] eqn:E.
    + exists "", (String c input), prev. split; [reflexivity|]. now rewrite E.
    + destruct (IH _ _ H) as (pre & s & prev' & -> & Hs).
      exists (String c pre), s, prev'. split; [reflexivity | exact Hs].
Qed.

(** X19.  [extractVersions] returns either the empty object or both a
    source and a target, never one of the two.  When it returns them, they
    are dotted numbers (groups of digits joined by dots) that stand in the
    query in this order, separated by white space, one of the two separators
    of the pattern, and white space again.  The separators are the word [to]
    in any case and the three characters U+00E2, U+2020, U+2019 (the first in
    either case); the second cannot occur in a query whose characters lie
    below U+0100. *)
Theorem extractVersions_shape (query : string) :
  extractVersions query = {| Versions.source := None; Versions.target := None |}
  \/ exists pre a ws1 sep ws2 b post,
       query = pre ++ a ++ ws1 ++ sep ++ ws2 ++ b ++ post
       /\ DottedNumber a /\ DottedNumber b
       /\ spaces ws1 = true /\ spaces ws2 = true
       /\ Separator sep
       /\ extractVersions query
          = {| Versions.source := Some a; Versions.target := Some b |}.
Proof.
  unfold extractVersions, exec.
  destruct (scan transitionPattern None query) as [z|] eqn:E; [right | now left].
  destruct (scan_found _ _ _ E) as (pre & s & prev & -> & Hz).
  apply compile_sound in Hz as (y & Hy & Ey). injection Ey as ->.
  change transitionPattern with (Seq (Opt fromPrefix) transitionBody) in Hy.
  invert_seq Hy x1 Hfrom Hbody.
  destruct (Reaches_from Hfrom) as (from & Ef & Cf).
  destruct (Reaches_body Hbody)
    as (a & ws1 & sep & ws2 & b & Da & Db & W1 & W2 & Hto & Eb & Cb).
  cbn [rest captures] in Ef, Cf.
  exists (pre ++ from), a, ws1, sep, ws2, b, (rest z).
  split; [now rewrite Ef, Eb, append_assoc|].
  repeat (split; [assumption|]).
  rewrite Cb, Cf. reflexivity.
Qed.

End RegExpFacts.

(* ================================================================= *)
(** ** The properties on the scenarios *)

(** The states [Mock.stateAt] computes are states of the run. *)
Lemma advance_reachable (e : Env nat) (input : string) (k : nat) :
  forall t state w,
    Reachable e input Mock.start t state w ->
    Reachable e input Mock.start
      (fst (fst (Mock.advance e k t state w)))
      (snd (fst (Mock.advance e k t state w)))
      (snd (Mock.advance e k t state w)).
Proof.
  induction k as [|k IH]; intros [n|] state w H; cbn [Mock.advance fst snd]; try exact H.
  destruct (node_shape e n state w) as (r & w' & E & _).
  assert (Es : step (buildResearchGraph e) n state w
               = (Ok (merge (input_after r) (update r),
                      {| node := n; values := update r |}), w')).
  { unfold step, bind, ret. cbn [nodes buildResearchGraph]. now rewrite E. }
  rewrite Es. apply IH. exact (reach_step H Es).
Qed.

Lemma executeSearch_returns_witness :
  exists hits w',
    executeSearch Mock.happy Mock.question Mock.start = (Ok hits, w')
    /\ calls w' = [SearchCall Mock.question]
    /\ Forall Usable hits.
Proof.
  destruct (executeSearch Mock.happy Mock.question Mock.start) as [[hits|message] w'] eqn:E;
    [|vm_compute in E; discriminate].
  exists hits, w'. split; [reflexivity|].
  destruct (@executeSearch_returns nat Mock.happy Mock.question Mock.start w' hits E)
    as (Hc & _ & Hu).
  split; [exact Hc | exact Hu].
Defined.

Lemma status_names_the_next_node_witness :
  Reachable Mock.happy Mock.question Mock.start (goto Node.deep_analysis)
    (Mock.stateAt Mock.happy Mock.question 3) (Mock.worldAt Mock.happy Mock.question 3)
  /\ status (Mock.stateAt Mock.happy Mock.question 3) = Status.analyzing
  /\ query (Mock.stateAt Mock.happy Mock.question 3) = Mock.question.
Proof.
  assert (H : Reachable Mock.happy Mock.question Mock.start (goto Node.deep_analysis)
                (Mock.stateAt Mock.happy Mock.question 3)
                (Mock.worldAt Mock.happy Mock.question 3)).
  { pose proof (@advance_reachable Mock.happy Mock.question 3 _ _ _
                  (reach_start Mock.happy Mock.question Mock.start)) as H.
    assert (E : fst (fst (Mock.advance Mock.happy 3 (goto Node.query_parser)
                            (merge channelDefaults (initialState Mock.question)) Mock.start))
                = goto Node.deep_analysis) by (vm_compute; reflexivity).
    rewrite E in H. exact H. }
  split; [exact H|].
  exact (@status_names_the_next_node nat Mock.happy Mock.question Mock.start
           Node.deep_analysis _ _ H).
Defined.

Lemma messages_record_the_refinements_witness :
  Reachable Mock.lateGuide Mock.question Mock.start (goto Node.search)
    (Mock.stateAt Mock.lateGuide Mock.question 3)
    (Mock.worldAt Mock.lateGuide Mock.question 3)
  /\ exists answers,
       messages (Mock.stateAt Mock.lateGuide Mock.question 3)
       = dialogue Mock.question answers
       /\ List.length answers = 2
       /\ exists earlier answer,
            answers = (earlier ++ [answer])%list
            /\ enhancedQuery (Mock.stateAt Mock.lateGuide Mock.question 3) = Some answer.
Proof.
  assert (H : Reachable Mock.lateGuide Mock.question Mock.start (goto Node.search)
                (Mock.stateAt Mock.lateGuide Mock.question 3)
                (Mock.worldAt Mock.lateGuide Mock.question 3)).
  { pose proof (@advance_reachable Mock.lateGuide Mock.question 3 _ _ _
                  (reach_start Mock.lateGuide Mock.question Mock.start)) as H.
    assert (E : fst (fst (Mock.advance Mock.lateGuide 3 (goto Node.query_parser)
                            (merge channelDefaults (initialState Mock.question)) Mock.start))
                = goto Node.search) by (vm_compute; reflexivity).
    rewrite E in H. exact H. }
  split; [exact H|].
  destruct (@messages_record_the_refinements nat Mock.lateGuide Mock.question Mock.start
              _ _ _ H) as (answers & Hm & _ & _ & Hs).
  exists answers. split; [exact Hm|]. split; [|exact (Hs eq_refl)].
  apply (f_equal (@List.length BaseMessage)) in Hm.
  assert (El : forall l, List.length (dialogue Mock.question l) = 2 * List.length l).
  { unfold dialogue. induction l as [|a l IHl]; [reflexivity|].
    cbn [flat_map List.length app]. rewrite IHl. lia. }
  assert (E4 : List.length (messages (Mock.stateAt Mock.lateGuide Mock.question 3)) = 4)
    by (vm_compute; reflexivity).
  rewrite El, E4 in Hm. lia.
Defined.

Lemma analysis_fails_on_undefined_entry_witness :
  relevantResults (Mock.stateAt Mock.fractional Mock.question 3) = Some [None]
  /\ exists w' made,
       analyzeResults Mock.fractional (Mock.stateAt Mock.fractional Mock.question 3)
         (Mock.worldAt Mock.fractional Mock.question 3)
       = (Ok {| input_after := Mock.stateAt Mock.fractional Mock.question 3;
                update := [ Set_status Status.error;
                            Set_error "Analysis failed: Cannot read properties of undefined (reading 'title')" ] |},
          w')
       /\ calls w' = (calls (Mock.worldAt Mock.fractional Mock.question 3) ++ made)%list
       /\ llmCalls made = 0.
Proof.
  assert (H1 : relevantResults (Mock.stateAt Mock.fractional Mock.question 3) = Some [None])
    by (vm_compute; reflexivity).
  assert (H2 : AnalysisAnswers Mock.fractional)
    by (intros q content c; eexists _, _; reflexivity).
  split; [exact H1|].
  exact (@analysis_fails_on_undefined_entry nat Mock.fractional
           (Mock.stateAt Mock.fractional Mock.question 3) [None] [] []
           (Mock.worldAt Mock.fractional Mock.question 3) H2 H1 eq_refl).
Defined.

Lemma synthesis_of_plain_text_witness :
  exists notes,
    analysisSteps (Mock.stateAt Mock.happy Mock.question 4) = Some notes
    /\ notes <> []
    /\ relevantResults (Mock.stateAt Mock.happy Mock.question 4)
       = Some (map Some (Mock.hitsAt Mock.happy Mock.question 4))
    /\ exists r w' prompt,
         synthesizeFindings Mock.happy (Mock.stateAt Mock.happy Mock.question 4)
           (Mock.worldAt Mock.happy Mock.question 4) = (Ok r, w')
         /\ calls w'
            = (calls (Mock.worldAt Mock.happy Mock.question 4) ++ [LLMCall prompt])%list
         /\ forall response c,
              llm_invoke Mock.happy prompt
                (collaborators (Mock.worldAt Mock.happy Mock.question 4)) = (Ok response, c) ->
              JSON_parse Mock.happy (JS.trim response) = None ->
              update r =
                [ Set_findings
                    {| summary := JS.JString (JS.orString (Some (JS.trim response))
                                                          "Migration guide synthesis");
                       migrationSteps := JS.JArray [];
                       breakingChanges := JS.JArray [];
                       examples := JS.JArray [];
                       sources := map url (firstn 5 (Mock.hitsAt Mock.happy Mock.question 4)) |};
                  Set_status Status.complete ].
Proof.
  destruct (analysisSteps (Mock.stateAt Mock.happy Mock.question 4)) as [notes|] eqn:E1;
    [|vm_compute in E1; discriminate].
  assert (H2 : notes <> []) by (intros ->; vm_compute in E1; discriminate).
  assert (H3 : relevantResults (Mock.stateAt Mock.happy Mock.question 4)
               = Some (map Some (Mock.hitsAt Mock.happy Mock.question 4)))
    by (vm_compute; reflexivity).
  exists notes. split; [reflexivity|]. split; [exact H2|]. split; [exact H3|].
  exact (@synthesis_of_plain_text nat Mock.happy (Mock.stateAt Mock.happy Mock.question 4)
           notes (Mock.hitsAt Mock.happy Mock.question 4)
           (Mock.worldAt Mock.happy Mock.question 4) E1 H2 H3).
Defined.

Lemma extractVersions_reads_back_witness :
  extractVersions "Upgrade Spring Boot from 2.7 TO  3.0.1, step by step"
  = {| Versions.source := Some "2.7"; Versions.target := Some "3.0.1" |}.
Proof.
  refine (@extractVersions_reads_back "Upgrade Spring Boot from " "2.7" " " "TO" "  "
            "3.0.1" ", step by step" eq_refl _ _ eq_refl eq_refl eq_refl eq_refl).
  - exists "2", ["7"]. repeat split; repeat constructor.
  - exists "3", ["0"; "1"]. repeat split; repeat constructor.
Defined.

Lemma extractVersions_without_digit_witness :
  extractVersions "upgrade React to the latest version"
  = {| Versions.source := None; Versions.target := None |}.
Proof.
  exact (@extractVersions_without_digit "upgrade React to the latest version" eq_refl).
Defined.

(** [migrate], [migration] and [upgrade] are not among the keywords: the
    pattern asks for the end of a word right after [migrat] and [upgrad]. *)
Example optimizeQueryForMigration_inflected :
  optimizeQueryForMigration "migrate React 17 to 18"
  = "migrate React 17 to 18 migration guide upgrade documentation"
  /\ optimizeQueryForMigration "React 17 migration and upgrade"
     = "React 17 migration and upgrade migration guide upgrade documentation"
  /\ optimizeQueryForMigration "Port the app to React 18"
     = "Port the app to React 18 official documentation guide".
Proof. vm_compute. repeat split. Qed.

(** A [null] among the elements of the search tool's reply. *)
Example search_fails_on_null_element :
  exists r w',
    search Scenario.nullHit (Mock.stateAt Scenario.nullHit Mock.question 1)
           (Mock.worldAt Scenario.nullHit Mock.question 1) = (Ok r, w')
    /\ update r
       = [ Set_status Status.error;
           Set_error "Search failed: Search failed: Cannot read properties of null (reading 'title')" ].
Proof. eexists _, _. split; vm_compute; reflexivity. Qed.
